(** * EchoScript: the speech-event orchestration pipeline

    A shallow embedding of the parts of EchoScript that sequence audio
    buffering, transcription, trigger-word gating, intent extraction and
    text injection, and of the access and quota checks behind them,
    together with the properties its design document states about them
    and further properties read off the code.

    Modelling conventions.
    - A JavaScript string is a [string] of 8-bit code units (the Latin-1
      range of UTF-16); [-1] results of [indexOf] are kept as [Z].
    - A Node [Buffer] is a [list byte].
    - An [async] method is cut at its [await]s: the part that runs up to
      the first suspension is one function, the continuation that runs
      when the awaited call settles is another, and the answer of the
      remote service is an argument of the continuation.
    - Effects the code performs on its collaborators (events emitted,
      console lines, files, requests) are collected in a trace, oldest
      first. *)

From Stdlib Require Import ZArith List String Ascii Bool Lia Arith.
From Stdlib Require Import DecimalString.
From Stdlib Require Strings.Byte.
Import ListNotations.

Local Open Scope string_scope.
Local Open Scope Z_scope.

(* ################################################################## *)
(** * Part I: the model *)
(* ################################################################## *)

(* ================================================================== *)
(** ** JavaScript strings *)
(* ================================================================== *)

Module JS.

Definition code (c : ascii) : N := N_of_ascii c.

(** White space as [String.prototype.trim] and the regular expression
    class [\s] see it, within the 8-bit range: TAB, LF, VT, FF, CR, space
    and the no-break space U+00A0. *)
Definition isSpace (c : ascii) : bool :=
  let n := code c in
  ((9 <=? n) && (n <=? 13) || (n =? 32) || (n =? 160))%N.

(** The class [\w] of a regular expression without the [u] flag. *)
Definition isWordChar (c : ascii) : bool :=
  let n := code c in
  ((48 <=? n) && (n <=? 57) || (65 <=? n) && (n <=? 90)
   || (n =? 95) || (97 <=? n) && (n <=? 122))%N.

(** [toLowerCase] on one code unit: A-Z, and the Latin-1 capitals
    U+00C0..U+00DE except the multiplication sign U+00D7. *)
Definition toLowerChar (c : ascii) : ascii :=
  let n := code c in
  if ((65 <=? n) && (n <=? 90)
      || (192 <=? n) && (n <=? 222) && negb (n =? 215))%N
  then ascii_of_N (n + 32) else c.

Fixpoint toLowerCase (s : string) : string :=
  match s with
  | EmptyString => EmptyString
  | String c r => String (toLowerChar c) (toLowerCase r)
  end.

Fixpoint trimStart (s : string) : string :=
  match s with
  | EmptyString => EmptyString
  | String c r => if isSpace c then trimStart r else s
  end.

Fixpoint trimEnd (s : string) : string :=
  match s with
  | EmptyString => EmptyString
  | String c r =>
      match trimEnd r with
      | EmptyString => if isSpace c then EmptyString else String c EmptyString
      | r' => String c r'
      end
  end.

Definition trim (s : string) : string := trimEnd (trimStart s).

Definition isEmpty (s : string) : bool :=
  match s with EmptyString => true | _ => false end.

(** [s.startsWith(p)] *)
Definition startsWith (s p : string) : bool := prefix p s.

(** [s.includes(p)] *)
Fixpoint includes (s p : string) : bool :=
  prefix p s ||
  match s with
  | EmptyString => false
  | String _ r => includes r p
  end.

Fixpoint indexOf_from (s p : string) (i : Z) : Z :=
  if prefix p s then i
  else match s with
       | EmptyString => -1
       | String _ r => indexOf_from r p (i + 1)
       end.

(** [s.indexOf(p)], [-1] when [p] does not occur. *)
Definition indexOf (s p : string) : Z := indexOf_from s p 0.

Fixpoint lastIndexOf_from (s p : string) (i : Z) : Z :=
  match s with
  | EmptyString => if prefix p s then i else -1
  | String _ r =>
      let k := lastIndexOf_from r p (i + 1) in
      if 0 <=? k then k else if prefix p s then i else -1
  end.

(** [s.lastIndexOf(p)], [-1] when [p] does not occur. *)
Definition lastIndexOf (s p : string) : Z := lastIndexOf_from s p 0.

Fixpoint take (n : nat) (s : string) : string :=
  match n, s with
  | S n', String c r => String c (take n' r)
  | _, _ => EmptyString
  end.

Fixpoint drop (n : nat) (s : string) : string :=
  match n, s with
  | S n', String _ r => drop n' r
  | _, _ => s
  end.

(** [s.slice(a, b)] and [s.substring(a, b)] for [0 <= a]: both clamp to
    the length; [substring] swaps its arguments when [b < a], [slice]
    returns the empty string. *)
Definition slice (s : string) (a b : Z) : string :=
  take (Z.to_nat (b - a)) (drop (Z.to_nat a) s).

Definition substring (s : string) (a b : Z) : string :=
  if b <? a then slice s (Z.max 0 b) a else slice s a b.

(** Equality of code units under the [i] flag. *)
Definition ciEq (a b : ascii) : bool :=
  Ascii.eqb (toLowerChar a) (toLowerChar b).

(** The literal [word] read from the head of [text] under the [i] flag.
    [prevW] tells whether the code unit before the current position is a
    word character; the result carries that bit for the position after
    the match, and what is left of [text]. *)
Fixpoint matchLiteral (prevW : bool) (word text : string)
  : option (bool * string) :=
  match word with
  | EmptyString => Some (prevW, text)
  | String a word' =>
      match text with
      | EmptyString => None
      | String b text' =>
          if ciEq a b then matchLiteral (isWordChar b) word' text'
          else None
      end
  end.

Definition headIsWord (s : string) : bool :=
  match s with
  | EmptyString => false
  | String c _ => isWordChar c
  end.

(** The assertion [\b] between a position whose left neighbour has word
    bit [prevW] and the rest [s] of the subject. *)
Definition wordBoundary (prevW : bool) (s : string) : bool :=
  xorb prevW (headIsWord s).

Definition isPunct (c : ascii) : bool :=
  existsb (Ascii.eqb c) [".";"!";"?";",";";";":"]%char.

Fixpoint allPunct (s : string) : bool :=
  match s with
  | EmptyString => true
  | String c r => isPunct c && allPunct r
  end.

(** The tail [\s*[.!?,;:]*$] of a pattern, tried on the rest [s] of the
    subject. *)
Definition onlyPunctuationLeft (s : string) : bool :=
  allPunct (trimStart s).

End JS.

(* ================================================================== *)
(** ** TriggerWordDetector *)
(* ================================================================== *)

Module TriggerWordDetector.

Record t := mk {
  triggerWord : string;
  deactivatePhrase : string;
  enabled : bool;
  caseSensitive : bool
}.

Inductive Detection :=
| Deactivate (phrase originalText : string)   (* type: 'deactivate', confidence 1.0 *)
| Activate (word originalText : string).      (* type: 'activate', confidence 1.0 *)

Definition isDeactivate (r : option Detection) : bool :=
  match r with Some (Deactivate _ _) => true | _ => false end.

Definition isActivate (r : option Detection) : bool :=
  match r with Some (Activate _ _) => true | _ => false end.

(** [containsPhrase(text, phrase)] is [text.includes(phrase)]. *)
Definition containsPhrase (text phrase : string) : bool :=
  JS.includes text phrase.

(** [/\bWORD\b/i] tried at the current position. [escapeRegex] quotes
    every metacharacter of the word, so the pattern reads it literally. *)
Definition wordAt (prevW : bool) (word text : string) : bool :=
  JS.wordBoundary prevW text &&
  match JS.matchLiteral prevW word text with
  | Some (lastW, rest) => JS.wordBoundary lastW rest
  | None => false
  end.

Fixpoint searchWord (prevW : bool) (word text : string) : bool :=
  wordAt prevW word text ||
  match text with
  | EmptyString => false
  | String c rest => searchWord (JS.isWordChar c) word rest
  end.

(** [containsWord(text, word)]:
    [new RegExp(`\\b${escapeRegex(word)}\\b`, 'i').test(text)]. *)
Definition containsWord (text word : string) : bool :=
  searchWord false word text.

Definition normalize (d : t) (s : string) : string :=
  if caseSensitive d then s else JS.toLowerCase s.

(** [detect(text)] *)
Definition detect (d : t) (text : string) : option Detection :=
  if negb (enabled d) || JS.isEmpty text then None
  else
    let normalizedText := normalize d (JS.trim text) in
    let normalizedTrigger := normalize d (triggerWord d) in
    let normalizedDeactivate := normalize d (deactivatePhrase d) in
    if containsPhrase normalizedText normalizedDeactivate then
      Some (Deactivate (deactivatePhrase d) text)
    else if containsWord normalizedText normalizedTrigger then
      Some (Activate (triggerWord d) text)
    else None.

(** The configuration the constructor falls back to. *)
Definition defaults : t :=
  {| triggerWord := "sana"; deactivatePhrase := "sana close";
     enabled := true; caseSensitive := false |}.

End TriggerWordDetector.

(* ================================================================== *)
(** ** Node buffers *)
(* ================================================================== *)

Module Buffer.

Local Open Scope list_scope.

Definition t := list Byte.byte.

(** [Buffer.alloc(n)]: [n] zero bytes. *)
Definition alloc (n : nat) : t := repeat Byte.x00 n.

(** [Buffer.concat(list)] *)
Definition concat (chunks : list t) : t := List.concat chunks.

(** Overwrites [buf] from [off] on with as much of [data] as fits; the
    length of [buf] never changes. *)
Definition fill_at (buf : t) (off : nat) (data : list Byte.byte) : t :=
  firstn off buf ++ firstn (List.length buf - off) data
    ++ skipn (off + List.length data) buf.

Definition byteOf (z : Z) : Byte.byte :=
  match Byte.of_N (Z.to_N (z mod 256)) with
  | Some b => b
  | None => Byte.x00
  end.

Definition toZ (b : Byte.byte) : Z := Z.of_N (Byte.to_N b).

(** The [width] low bytes of [v], least significant first. *)
Fixpoint le_bytes (width : nat) (v : Z) : list Byte.byte :=
  match width with
  | O => []
  | S k => byteOf (v mod 256) :: le_bytes k (v / 256)
  end.

Fixpoint le_value (bs : list Byte.byte) : Z :=
  match bs with
  | [] => 0
  | b :: r => toZ b + 256 * le_value r
  end.

(** [buf.write(string, offset)] for an ASCII [string]: a [RangeError]
    ([None]) when [offset] lies beyond the buffer. *)
Definition write (buf : t) (s : string) (off : nat) : option t :=
  if (off <=? List.length buf)%nat
  then Some (fill_at buf off (list_byte_of_string s))
  else None.

(** [buf.writeUIntLE]: a [RangeError] ([None]) when [value] is not an
    unsigned integer of [width] bytes or the field does not fit. *)
Definition writeUIntLE (width : nat) (buf : t) (value : Z) (off : nat)
  : option t :=
  if (0 <=? value) && (value <? 256 ^ Z.of_nat width)
     && (off + width <=? List.length buf)%nat
  then Some (fill_at buf off (le_bytes width value))
  else None.

Definition writeUInt32LE := writeUIntLE 4.
Definition writeUInt16LE := writeUIntLE 2.

Definition readUIntLE (width : nat) (buf : t) (off : nat) : option Z :=
  if (off + width <=? List.length buf)%nat
  then Some (le_value (firstn width (skipn off buf)))
  else None.

Definition readUInt32LE := readUIntLE 4.
Definition readUInt16LE := readUIntLE 2.

(** [src.copy(target, targetStart)]: copies what fits, nothing when
    [targetStart] is beyond the target. *)
Definition copy (src target : t) (targetStart : nat) : t :=
  if (targetStart <=? List.length target)%nat
  then fill_at target targetStart src
  else target.

(** [buf.subarray(a, b)] *)
Definition subarray (buf : t) (a b : nat) : t :=
  firstn (b - a) (skipn a buf).

End Buffer.

(** Sequencing of calls that may throw. *)
Notation "x <- e ;; k" :=
  (match e with Some x => k | None => None end)
  (at level 61, e at next level, right associativity).

(* ================================================================== *)
(** ** GroqSTTClient: WAV container *)
(* ================================================================== *)

Module Wav.

Local Open Scope list_scope.

(** [GroqSTTClient.createWavBuffer(pcmData)]. [None] stands for the
    [RangeError] a field write raises. *)
Definition createWavBuffer (pcmData : Buffer.t) : option Buffer.t :=
  let sampleRate := 16000 in
  let numChannels := 1 in
  let bitsPerSample := 16 in
  let byteRate := sampleRate * numChannels * (bitsPerSample / 8) in
  let blockAlign := numChannels * (bitsPerSample / 8) in
  let dataSize := Z.of_nat (List.length pcmData) in
  let buffer := Buffer.alloc (44 + List.length pcmData) in
  let offset := 0%nat in
  (* RIFF header *)
  buffer <- Buffer.write buffer "RIFF" offset ;;
  let offset := (offset + 4)%nat in
  buffer <- Buffer.writeUInt32LE buffer (36 + dataSize) offset ;;
  let offset := (offset + 4)%nat in
  buffer <- Buffer.write buffer "WAVE" offset ;;
  let offset := (offset + 4)%nat in
  (* fmt chunk *)
  buffer <- Buffer.write buffer "fmt " offset ;;
  let offset := (offset + 4)%nat in
  buffer <- Buffer.writeUInt32LE buffer 16 offset ;;
  let offset := (offset + 4)%nat in
  buffer <- Buffer.writeUInt16LE buffer 1 offset ;;
  let offset := (offset + 2)%nat in
  buffer <- Buffer.writeUInt16LE buffer numChannels offset ;;
  let offset := (offset + 2)%nat in
  buffer <- Buffer.writeUInt32LE buffer sampleRate offset ;;
  let offset := (offset + 4)%nat in
  buffer <- Buffer.writeUInt32LE buffer byteRate offset ;;
  let offset := (offset + 4)%nat in
  buffer <- Buffer.writeUInt16LE buffer blockAlign offset ;;
  let offset := (offset + 2)%nat in
  buffer <- Buffer.writeUInt16LE buffer bitsPerSample offset ;;
  let offset := (offset + 2)%nat in
  (* data chunk *)
  buffer <- Buffer.write buffer "data" offset ;;
  let offset := (offset + 4)%nat in
  buffer <- Buffer.writeUInt32LE buffer dataSize offset ;;
  let offset := (offset + 4)%nat in
  Some (Buffer.copy pcmData buffer offset).

(** The canonical 44-byte RIFF/WAVE header, as a reader of the container
    decodes it. *)
Record Header := mkHeader {
  chunkId : Buffer.t;        (* bytes 0..3 *)
  chunkSize : Z;             (* bytes 4..7 *)
  waveId : Buffer.t;         (* bytes 8..11 *)
  fmtId : Buffer.t;          (* bytes 12..15 *)
  fmtSize : Z;               (* bytes 16..19 *)
  audioFormat : Z;           (* bytes 20..21, 1 is PCM *)
  channels : Z;              (* bytes 22..23 *)
  sampleRateHz : Z;          (* bytes 24..27 *)
  bytesPerSecond : Z;        (* bytes 28..31 *)
  frameBytes : Z;            (* bytes 32..33 *)
  sampleBits : Z;            (* bytes 34..35 *)
  dataId : Buffer.t;         (* bytes 36..39 *)
  dataBytes : Z              (* bytes 40..43 *)
}.

Definition readHeader (wav : Buffer.t) : option Header :=
  chunkSize <- Buffer.readUInt32LE wav 4 ;;
  fmtSize <- Buffer.readUInt32LE wav 16 ;;
  audioFormat <- Buffer.readUInt16LE wav 20 ;;
  channels <- Buffer.readUInt16LE wav 22 ;;
  sampleRateHz <- Buffer.readUInt32LE wav 24 ;;
  bytesPerSecond <- Buffer.readUInt32LE wav 28 ;;
  frameBytes <- Buffer.readUInt16LE wav 32 ;;
  sampleBits <- Buffer.readUInt16LE wav 34 ;;
  dataBytes <- Buffer.readUInt32LE wav 40 ;;
  Some {| chunkId := Buffer.subarray wav 0 4;
          chunkSize := chunkSize;
          waveId := Buffer.subarray wav 8 12;
          fmtId := Buffer.subarray wav 12 16;
          fmtSize := fmtSize;
          audioFormat := audioFormat;
          channels := channels;
          sampleRateHz := sampleRateHz;
          bytesPerSecond := bytesPerSecond;
          frameBytes := frameBytes;
          sampleBits := sampleBits;
          dataId := Buffer.subarray wav 36 40;
          dataBytes := dataBytes |}.

(** The bytes [createWavBuffer] lays down before the samples. *)
Definition headerBytes (n : Z) : Buffer.t :=
  list_byte_of_string "RIFF" ++ Buffer.le_bytes 4 (36 + n)
  ++ list_byte_of_string "WAVE"
  ++ list_byte_of_string "fmt " ++ Buffer.le_bytes 4 16
  ++ Buffer.le_bytes 2 1 ++ Buffer.le_bytes 2 1
  ++ Buffer.le_bytes 4 16000 ++ Buffer.le_bytes 4 32000
  ++ Buffer.le_bytes 2 2 ++ Buffer.le_bytes 2 16
  ++ list_byte_of_string "data" ++ Buffer.le_bytes 4 n.

End Wav.

(* ================================================================== *)
(** ** GroqSTTClient: the buffered transcription session *)
(* ================================================================== *)

Module GroqSTTClient.

Local Open Scope list_scope.

Inductive Level := Log | Warn | Error.     (* console.log / warn / error *)

(** Events the client emits to its listeners. The confidence field of a
    transcription is the constant 1.0 and is left out. *)
Inductive Event :=
| Open
| Transcription (text : string) (isFinal : bool) (language : option string)
| LanguageDetected (language : string)
| ErrorEvent (message : string)
| Close.

(** What a call does to the world outside the client, in order.
    [Concat d] marks the blob [d] that [Buffer.concat] hands to a flush;
    a temporary file is named by the clock value in its name. *)
Inductive Effect :=
| Console (level : Level) (message : string)
| Emit (e : Event)
| Concat (audioData : Buffer.t)
| WriteFileSync (tempFile : Z) (wavBuffer : Buffer.t)
| UnlinkSync (tempFile : Z)
| CreateTranscription (tempFile : Z).

(** The [verbose_json] answer of the transcription endpoint; an absent
    field is [None]. *)
Record VerboseJson := mkJson {
  text : option string;
  language : option string
}.

Inductive Answer :=
| Resolved (transcription : option VerboseJson)
| Rejected (message : string).

Record State := mkState {
  apiKey : string;
  bufferDuration : Z;
  groqClient : bool;                 (* the SDK client has been created *)
  isConnected : bool;
  sessionStartTime : option Z;
  audioBuffer : list Buffer.t;
  bufferStartTime : option Z;
  isProcessing : bool;
  (* suspended continuations *)
  awaitingAnswer : option Z;         (* processBuffer at its await, with its temp file *)
  stopAwaitingFlush : bool           (* stopSession at its await *)
}.

(** [new GroqSTTClient(config)] *)
Definition create (key : string) (duration : Z) : State :=
  {| apiKey := key;
     bufferDuration := if duration =? 0 then 3000 else duration;
     groqClient := false;
     isConnected := false;
     sessionStartTime := None;
     audioBuffer := [];
     bufferStartTime := None;
     isProcessing := false;
     awaitingAnswer := None;
     stopAwaitingFlush := false |}.

Definition with_buffer (s : State) (b : list Buffer.t) (t0 : option Z) : State :=
  {| apiKey := apiKey s; bufferDuration := bufferDuration s;
     groqClient := groqClient s; isConnected := isConnected s;
     sessionStartTime := sessionStartTime s;
     audioBuffer := b; bufferStartTime := t0;
     isProcessing := isProcessing s;
     awaitingAnswer := awaitingAnswer s;
     stopAwaitingFlush := stopAwaitingFlush s |}.

Definition with_processing (s : State) (p : bool) (f : option Z) : State :=
  {| apiKey := apiKey s; bufferDuration := bufferDuration s;
     groqClient := groqClient s; isConnected := isConnected s;
     sessionStartTime := sessionStartTime s;
     audioBuffer := audioBuffer s; bufferStartTime := bufferStartTime s;
     isProcessing := p;
     awaitingAnswer := f;
     stopAwaitingFlush := stopAwaitingFlush s |}.

Definition with_stop_waiting (s : State) (w : bool) : State :=
  {| apiKey := apiKey s; bufferDuration := bufferDuration s;
     groqClient := groqClient s; isConnected := isConnected s;
     sessionStartTime := sessionStartTime s;
     audioBuffer := audioBuffer s; bufferStartTime := bufferStartTime s;
     isProcessing := isProcessing s;
     awaitingAnswer := awaitingAnswer s;
     stopAwaitingFlush := w |}.

Definition with_session (s : State) (client connected : bool)
  (started : option Z) : State :=
  {| apiKey := apiKey s; bufferDuration := bufferDuration s;
     groqClient := client; isConnected := connected;
     sessionStartTime := started;
     audioBuffer := audioBuffer s; bufferStartTime := bufferStartTime s;
     isProcessing := isProcessing s;
     awaitingAnswer := awaitingAnswer s;
     stopAwaitingFlush := stopAwaitingFlush s |}.

Definition isNil {A} (l : list A) : bool :=
  match l with [] => true | _ => false end.

Inductive Outcome := Returned | Threw (message : string).

(** [startSession()] at clock value [now]. *)
Definition startSession (now : Z) (s : State)
  : State * list Effect * Outcome :=
  let e0 := [Console Log "Starting session..."] in
  if negb (groqClient s) && JS.isEmpty (apiKey s) then
    (* initialize() throws, the catch of startSession reports and rethrows *)
    (with_session s false false (sessionStartTime s),
     e0 ++ [Console Error "Initialization failed: Groq API key is required";
            Console Error "Error starting session";
            Emit (ErrorEvent "Groq API key is required")],
     Threw "Groq API key is required")
  else
    let e1 := if groqClient s then e0
              else e0 ++ [Console Log "Client initialized successfully"] in
    if isConnected s then
      (with_session s true true (sessionStartTime s),
       e1 ++ [Console Warn "Session already active"], Returned)
    else
      (with_session (with_buffer s [] (Some now)) true true (Some now),
       e1 ++ [Console Log "Session started successfully"; Emit Open],
       Returned).

(** [processBuffer()] up to its [await]. When it suspends, the state
    carries [awaitingAnswer]. *)
Definition processBuffer (now : Z) (s : State) : State * list Effect :=
  if isNil (audioBuffer s) || isProcessing s then (s, [])
  else
    (* this.isProcessing = true *)
    let audioData := Buffer.concat (audioBuffer s) in
    let s1 := with_buffer s [] (Some now) in
    match Wav.createWavBuffer audioData with
    | Some wavBuffer =>
        let tempFile := now in
        (with_processing s1 true (Some tempFile),
         [Concat audioData; WriteFileSync tempFile wavBuffer;
          CreateTranscription tempFile])
    | None =>
        (* outer catch, then finally *)
        (with_processing s1 false None,
         [Concat audioData; Console Error "Error processing buffer";
          Emit (ErrorEvent "RangeError")])
    end.

(** The tail of [stopSession()], after its [await]. *)
Definition stopSession_finish (s : State) : State * list Effect :=
  (with_session (with_buffer s [] None) (groqClient s) false None,
   [Console Log "Session stopped successfully"; Emit Close]).

Definition nonBlank (o : option string) : bool :=
  match o with
  | Some t => negb (JS.isEmpty t) && negb (JS.isEmpty (JS.trim t))
  | None => false
  end.

Definition truthy (o : option string) : bool :=
  match o with Some l => negb (JS.isEmpty l) | None => false end.

(** What the inner [try] of [processBuffer] does with the answer. *)
Definition deliver (tempFile : Z) (a : Answer) : list Effect :=
  match a with
  | Resolved tr =>
      UnlinkSync tempFile ::
      match tr with
      | Some j =>
          if nonBlank (text j) then
            let t := match text j with Some t => t | None => "" end in
            [Console Log "Transcription";
             Emit (Transcription (JS.trim t) true (language j))]
            ++ (if truthy (language j)
                then match language j with
                     | Some l => [Emit (LanguageDetected l)]
                     | None => []
                     end
                else [])
          else []
      | None => []
      end
  | Rejected _ =>
      (* catch (transcribeError): report, remove the temp file, which
         existsSync finds where writeFileSync left it *)
      [Console Error "Transcription error"; UnlinkSync tempFile]
  end.

(** The continuation of [processBuffer] when the request settles with
    [a], followed by the continuation of a [stopSession] that was
    awaiting this flush. Without a suspended flush nothing happens. *)
Definition transcriptionSettled (a : Answer) (s : State)
  : State * list Effect :=
  match awaitingAnswer s with
  | None => (s, [])
  | Some tempFile =>
      let s1 := with_processing s false None in     (* finally *)
      if stopAwaitingFlush s then
        let '(s2, e2) := stopSession_finish (with_stop_waiting s1 false) in
        (s2, deliver tempFile a ++ e2)
      else (s1, deliver tempFile a)
  end.

(** [stopSession()] up to its [await]; it suspends only when its call of
    [processBuffer] has started a request. *)
Definition stopSession (now : Z) (s : State) : State * list Effect :=
  if negb (isConnected s) then
    (s, [Console Log "Session already stopped"])
  else
    let e0 := [Console Log "Stopping session..."] in
    if negb (isNil (audioBuffer s)) then
      let '(s1, e1) := processBuffer now s in
      if negb (isProcessing s) && isProcessing s1 then
        (with_stop_waiting s1 true, e0 ++ e1)
      else
        let '(s2, e2) := stopSession_finish s1 in (s2, e0 ++ e1 ++ e2)
    else
      let '(s2, e2) := stopSession_finish s in (s2, e0 ++ e2).

(** [sendAudio(audioData)] at clock value [now]. *)
Definition sendAudio (audioData : Buffer.t) (now : Z) (s : State)
  : State * list Effect * bool :=
  if negb (isConnected s) then
    (s, [Console Warn "Cannot send audio: not connected"], false)
  else if isNil audioData then (s, [], false)
  else
    let s1 := with_buffer s (audioBuffer s ++ [audioData]) (bufferStartTime s) in
    let duration :=
      now - match bufferStartTime s1 with Some t0 => t0 | None => 0 end in
    if (bufferDuration s1 <=? duration) && negb (isProcessing s1) then
      let '(s2, e2) := processBuffer now s1 in (s2, e2, true)
    else (s1, [], true).

(** [isSessionActive()] *)
Definition isSessionActive (s : State) : bool := isConnected s.

(** *** Runs of the client *)

Inductive Action :=
| StartSession (now : Z)
| SendAudio (audioData : Buffer.t) (now : Z)
| Settle (a : Answer)
| StopSession (now : Z).

Definition step (a : Action) (s : State) : State * list Effect :=
  match a with
  | StartSession now => let '(s', e, _) := startSession now s in (s', e)
  | SendAudio d now => let '(s', e, _) := sendAudio d now s in (s', e)
  | Settle r => transcriptionSettled r s
  | StopSession now => stopSession now s
  end.

Fixpoint run (acts : list Action) (s : State) : State * list Effect :=
  match acts with
  | [] => (s, [])
  | a :: rest =>
      let '(s1, e1) := step a s in
      let '(s2, e2) := run rest s1 in
      (s2, e1 ++ e2)
  end.

(** The blobs handed to a flush in a trace, oldest first. *)
Fixpoint blobs (tr : list Effect) : list Buffer.t :=
  match tr with
  | [] => []
  | Concat d :: rest => d :: blobs rest
  | _ :: rest => blobs rest
  end.

Fixpoint emitted (tr : list Effect) : list Event :=
  match tr with
  | [] => []
  | Emit e :: rest => e :: emitted rest
  | _ :: rest => emitted rest
  end.

Definition isClose (e : Event) : bool :=
  match e with Close => true | _ => false end.

Definition isErrorEvent (e : Event) : bool :=
  match e with ErrorEvent _ => true | _ => false end.

Definition isRequest (e : Effect) : bool :=
  match e with CreateTranscription _ => true | _ => false end.

(** [await client.stopSession()]: the call, and the settlement of the
    request it waits for when it has started one. *)
Definition stopSession_awaited (now : Z) (a : Answer) (s : State)
  : State * list Effect :=
  let '(s1, e1) := stopSession now s in
  if negb (stopAwaitingFlush s) && stopAwaitingFlush s1 then
    let '(s2, e2) := transcriptionSettled a s1 in (s2, e1 ++ e2)
  else (s1, e1).

Definition sends (cs : list (Buffer.t * Z)) : list Action :=
  map (fun c => SendAudio (fst c) (snd c)) cs.

(** The chunks of [cs] a connected client accepts: the non-empty ones. *)
Definition accepted (cs : list (Buffer.t * Z)) : list Buffer.t :=
  filter (fun d => negb (isNil d)) (map fst cs).

End GroqSTTClient.

(* ================================================================== *)
(** ** ElevenLabsSTTClient: the other transcription backend *)
(* ================================================================== *)

Module ElevenLabsSTTClient.

Import GroqSTTClient.
Local Open Scope list_scope.

(** The continuation of [ElevenLabsSTTClient.processBuffer] when the MP3
    conversion and the request have settled with [a]. The session
    fields and the buffering are those of the Groq client; a rejection
    reaches the one [catch] of the method, which reports it on the
    console and emits it. *)
Definition deliver (a : Answer) : list Effect :=
  match a with
  | Resolved (Some j) =>
      if nonBlank (text j) then
        let t := match text j with Some t => t | None => "" end in
        [Console Log "Transcription";
         Emit (Transcription (JS.trim t) true (language j))]
        ++ (if truthy (language j)
            then match language j with
                 | Some l => [Emit (LanguageDetected l)]
                 | None => []
                 end
            else [])
      else []
  | Resolved None => []
  | Rejected message =>
      [Console Error "Error processing buffer"; Emit (ErrorEvent message)]
  end.

Definition transcriptionSettled (a : Answer) (s : State)
  : State * list Effect :=
  (with_processing s false None, deliver a).        (* finally *)

End ElevenLabsSTTClient.

(* ================================================================== *)
(** ** CrewAIAgent: intent extraction by a language model *)
(* ================================================================== *)

Module CrewAIAgent.

Local Open Scope list_scope.

(** A value as [JSON.parse] returns it; a number keeps its literal. *)
#[local] Unset Elimination Schemes.
Inductive Json :=
| JNull
| JBool (b : bool)
| JNumber (literal : string)
| JString (s : string)
| JArray (items : list Json)
| JObject (fields : list (string * Json)).
#[local] Set Elimination Schemes.

(** A call that returns [a] or throws. *)
Inductive Result (A : Type) :=
| Return (a : A)
| Throw (message : string).
Arguments Return {A} a.
Arguments Throw {A} message.

Definition bind {A B} (r : Result A) (k : A -> Result B) : Result B :=
  match r with
  | Return a => k a
  | Throw m => Throw m
  end.

Notation "'do' x <- e ; k" := (bind e (fun x => k))
  (at level 10, x name, e at level 100, k at level 200).

(** An entry of the returned command list. [NotAString] is what the
    lookup [variations[normalized]] yields for a name it inherits from
    [Object.prototype]. *)
Inductive Command :=
| Key (token : string)
| NotAString (property : string).

Record IntentResult := mkIntent {
  text : string;
  commands : list Command
}.

(** [extractJsonObject(text)] *)
Definition extractJsonObject (text : string) : Result string :=
  if JS.isEmpty text then Throw "Empty response text from LLM"
  else
    let start := JS.indexOf text "{" in
    let end_ := JS.lastIndexOf text "}" in
    if (start =? -1) || (end_ =? -1) || (end_ <=? start)
    then Throw "No JSON object found in LLM response"
    else Return (JS.slice text start (end_ + 1)).

Definition endsWith (s p : string) : bool :=
  (String.length p <=? String.length s)%nat &&
  String.eqb (JS.drop (String.length s - String.length p) s) p.

(** [s.replace(/\s*```$/i, '')]: the closing fence and the white space
    before it, when [s] ends with a fence. *)
Definition stripClosingFence (s : string) : string :=
  if endsWith s "```"
  then JS.trimEnd (JS.take (String.length s - 3) s)
  else s.

(** The removal of a markdown code fence around the answer. *)
Definition stripCodeFence (content : string) : string :=
  if JS.startsWith content "```json" then
    (* replace(/^```json\s*/i, '') *)
    stripClosingFence (JS.trimStart (JS.drop 7 content))
  else if JS.startsWith content "```" then
    (* replace(/^```\s*/i, '') *)
    stripClosingFence (JS.trimStart (JS.drop 3 content))
  else content.

Fixpoint assoc {V} (k : string) (table : list (string * V)) : option V :=
  match table with
  | [] => None
  | (k', v) :: rest => if String.eqb k k' then Some v else assoc k rest
  end.

(** The own property [k] of a parsed object: the last field of that
    name wins. *)
Definition field (k : string) (fields : list (string * Json)) : option Json :=
  assoc k (rev fields).

(** [this.commandMapping] *)
Definition commandMapping : list (string * string) :=
  [("enter", "enter"); ("return", "enter"); ("sent", "enter");
   ("send", "enter"); ("new line", "enter"); ("tab", "tab");
   ("select all", "ctrl+a"); ("select everything", "ctrl+a");
   ("copy", "ctrl+c"); ("paste", "ctrl+v"); ("cut", "ctrl+x");
   ("undo", "ctrl+z"); ("redo", "ctrl+y"); ("save", "ctrl+s")].

(** The table [variations] of the normaliser. *)
Definition variations : list (string * string) :=
  [("sent", "enter"); ("send", "enter"); ("send it", "enter");
   ("send the message", "enter"); ("send this", "enter");
   ("send this message", "enter"); ("post", "enter");
   ("post this", "enter"); ("submit", "enter"); ("submit this", "enter");
   ("return", "enter"); ("newline", "enter"); ("new line", "enter");
   ("next line", "enter"); ("press enter", "enter"); ("press tab", "tab");
   ("hit enter", "enter"); ("hit tab", "tab"); ("select all", "ctrl+a");
   ("select everything", "ctrl+a"); ("copy", "ctrl+c");
   ("copy it", "ctrl+c"); ("paste", "ctrl+v"); ("paste it", "ctrl+v");
   ("cut", "ctrl+x"); ("cut it", "ctrl+x")].

(** The lower-case names every object literal inherits. *)
Definition inheritedNames : list string := ["constructor"; "__proto__"].

Definition validSimpleKeys : list string :=
  ["enter"; "tab"; "backspace"; "delete"; "space"; "escape"; "esc"].

Definition member (k : string) (l : list string) : bool :=
  existsb (String.eqb k) l.

(** The callback of [commands.map]: [None] is the [null] that the
    following [filter] removes. *)
Definition normalizeCommand (cmd : Json) : option Command :=
  match cmd with
  | JString c =>
      if JS.isEmpty c then None
      else
        let normalized := JS.trim (JS.toLowerCase c) in
        match assoc normalized variations with
        | Some v => Some (Key v)
        | None =>
            if member normalized inheritedNames
            then Some (NotAString normalized)
            else
              match assoc normalized commandMapping with
              | Some v => Some (Key v)
              | None =>
                  if JS.includes normalized "ctrl+"
                     || JS.includes normalized "shift+"
                     || JS.includes normalized "alt+"
                  then Some (Key normalized)
                  else if member normalized validSimpleKeys
                  then Some (Key normalized)
                  else None
              end
        end
  | _ => None
  end.

Fixpoint normalizeCommands (cmds : list Json) : list Command :=
  match cmds with
  | [] => []
  | c :: rest =>
      match normalizeCommand c with
      | Some k => k :: normalizeCommands rest
      | None => normalizeCommands rest
      end
  end.

(** The settlement of [groqClient.chat.completions.create]. [content]
    is [None] when [choices[0]?.message?.content] is missing; [usage] is
    the token count when the answer carries one. An answer without
    [choices] makes the next line of [analyze] throw and counts as
    [Rejected]. *)
Inductive Completion :=
| Rejected (message : string)
| Answered (content : option string) (usage : option Z).

Record Agent := mkAgent {
  enabled : bool;
  groqClient : bool          (* the SDK client exists *)
}.

Section Analyze.

(** [JSON.parse], [None] for the [SyntaxError] it throws. *)
Variable JSON_parse : string -> option Json.

(** Whether [tokenTracker.recordAgentUsage] resolves. *)
Variable usageRecorded : bool.

(** What the interpreter does with the parsed answer. *)
Definition interpret (transcribedText : string) (parsed : Json)
  : Result IntentResult :=
  do fields <-
    match parsed with
    | JNull => Throw "TypeError: Cannot convert undefined or null to object"
    | JObject fs => Return fs
    | _ => Return []
    end;
  (* hasTextKey ? parsed.text : transcribedText *)
  let text := match field "text" fields with
              | Some v => v
              | None => JString transcribedText
              end in
  let commands := match field "commands" fields with
                  | Some (JArray items) => items
                  | _ => []
                  end in
  let normalizedCommands := normalizeCommands commands in
  match text with
  | JString t =>
      Return {| text := JS.trim t; commands := normalizedCommands |}
  | _ => Throw "TypeError: text.trim is not a function"
  end.

(** The [try] block of [analyze]. *)
Definition analyze_try (transcribedText : string) (answer : Completion)
  : Result IntentResult :=
  do result <-
    match answer with
    | Rejected m => Throw m
    | Answered content usage => Return (content, usage)
    end;
  let content := match fst result with
                 | Some c => JS.trim c
                 | None => ""
                 end in
  do _ <-
    match snd result with
    | Some _ => if usageRecorded then Return tt
                else Throw "recordAgentUsage failed"
    | None => Return tt
    end;
  let content := stripCodeFence content in
  do jsonText <- extractJsonObject content;
  do parsed <-
    match JSON_parse jsonText with
    | Some v => Return v
    | None => Throw "SyntaxError"
    end;
  interpret transcribedText parsed.

(** [analyze(transcribedText)] when the completion request settles with
    [answer]. *)
Definition analyze (agent : Agent) (transcribedText : string)
  (answer : Completion) : Result IntentResult :=
  if negb (enabled agent) || negb (groqClient agent) then
    Return {| text := transcribedText; commands := [] |}
  else if JS.isEmpty transcribedText
          || JS.isEmpty (JS.trim transcribedText) then
    Return {| text := ""; commands := [] |}
  else
    match analyze_try transcribedText answer with
    | Return r => Return r
    | Throw _ =>
        (* catch: console.error, then the fallback *)
        Return {| text := transcribedText; commands := [] |}
    end.

(** The request was rejected, or its answer holds no [{...}] text, or
    [JSON.parse] refuses that text. *)
Definition backendOrParseFailure (answer : Completion) : bool :=
  match answer with
  | Rejected _ => true
  | Answered content _ =>
      let content := match content with
                     | Some c => JS.trim c
                     | None => ""
                     end in
      match extractJsonObject (stripCodeFence content) with
      | Throw _ => true
      | Return jsonText =>
          match JSON_parse jsonText with
          | None => true
          | Some _ => false
          end
      end
  end.

End Analyze.

(** [isEnabled()] *)
Definition isEnabled (agent : Agent) : bool :=
  enabled agent && groqClient agent.

End CrewAIAgent.

(* ================================================================== *)
(** ** CommandParser *)
(* ================================================================== *)

Module CommandParser.

Local Open Scope list_scope.

Inductive Kind := text | command.

(** The result of [parse]: [{type, value, originalText}]. *)
Record Parsed := mkParsed {
  type : Kind;
  value : string;
  originalText : string
}.

(** The phrases of the closed mapping that the design document, the
    README table of built-in commands and the controller's own comments
    name, with their canonical tokens. *)
Definition phrases : list (string * string) :=
  [("send this message", "enter"); ("send", "enter"); ("sent", "enter");
   ("press enter", "enter"); ("enter", "enter"); ("return", "enter");
   ("new line", "enter"); ("press tab", "tab"); ("tab", "tab");
   ("press backspace", "backspace"); ("backspace", "backspace");
   ("delete", "backspace"); ("select all", "ctrl+a");
   ("copy", "ctrl+c"); ("paste", "ctrl+v"); ("cut", "ctrl+x");
   ("undo", "ctrl+z"); ("redo", "ctrl+y"); ("save", "ctrl+s")].

(** Modelled from the spec: CommandParser.js is not among the sources;
    only its caller is. The design document describes it as "a closed
    mapping from literal command phrases (e.g. "send this message",
    "tab", "select all") to canonical tokens", against which "the full
    transcript is first checked as an exact command". The controller
    below takes the parser as a parameter; this one instantiates it in
    examples. *)
Definition parse (transcript : string) : Parsed :=
  match CrewAIAgent.assoc (JS.trim (JS.toLowerCase transcript)) phrases with
  | Some token =>
      {| type := command; value := token; originalText := transcript |}
  | None =>
      {| type := text; value := transcript; originalText := transcript |}
  end.

End CommandParser.

(* ================================================================== *)
(** ** SpeechRecognitionController *)
(* ================================================================== *)

Module SpeechRecognitionController.

Local Open Scope list_scope.

Inductive Phase :=
| idle | listening | background_listening | processing | error.

Definition Phase_eqb (a b : Phase) : bool :=
  match a, b with
  | idle, idle | listening, listening
  | background_listening, background_listening
  | processing, processing | error, error => true
  | _, _ => false
  end.

(** The answer of the token tracker; [reason] is the field as a
    template literal prints it. *)
Record LimitCheck := mkLimit { allowed : bool; reason : string }.

Record Translation := mkTranslation {
  isEnglish : bool;
  translatedText : string;
  detectedLanguage : string
}.

(** The collaborators of the controller, as the answers they give during
    one call. The OS automation behind [textInjector] is taken to
    succeed on every string; [microphoneManager.stop()] and
    [stopSession] never throw (both catch their own errors), and
    [stopSession] resolves in the order of its calls, as it does on a
    session that holds no audio.

    [startSession] and [microphoneManager.start()] can fail, and both
    tell it twice: they emit ['error'] on themselves, which runs the
    listener the controller has set in [setupEventListeners], and then
    throw the same error. [None] is a call that succeeds, [Some message]
    one that fails with that message. *)
Record Services := mkServices {
  isUserAuthenticated : bool;                  (* authService *)
  checkPermission : string -> bool;            (* authService *)
  trackDeepgramUsage : LimitCheck;             (* tokenTracker *)
  startSession : option string;                (* sttClient *)
  microphoneStart : option string;             (* microphoneManager *)
  translateToEnglish : string -> option Translation;
                                 (* [None]: it throws or returns null *)
  analyze : string -> CrewAIAgent.IntentResult;
  parse : string -> CommandParser.Parsed       (* commandParser.parse *)
}.

Inductive Level := Log | Warn | Error.

Inductive Event :=
| authenticationRequired
| activationRequired (feature : string)
| tokenLimitExceeded (limitCheck : LimitCheck)
| started
| stopped
| errorEvent (message : string)
| microphoneUnavailable (message : string)
| stateChange (oldState newState : Phase)
| triggerActivated (r : TriggerWordDetector.Detection)
| triggerDeactivated (r : TriggerWordDetector.Detection)
| backgroundListeningStopped
| translated (original translatedTo language : string)
| textEvent (text : string)
| commandEvent (command : string) (originalText : string)
| commandsEvent (commands : list CrewAIAgent.Command) (originalText : string).

Inductive Effect :=
| Console (level : Level) (message : string)
| Emit (e : Event)
| Indicator (call : string)
| IsUserAuthenticated
| CheckPermission (feature : string)
| TrackDeepgramUsage
| SttStartSession
| SttStopSession
| MicrophoneStart
| MicrophoneStop
| TranslateToEnglish (text : string)
| Analyze (text : string)
| TypeText (text : string)
| ExecuteCommand (token : string)
| WriteToLog (line : string)
| WriteCommandToLog (originalText : string)
| Delay (ms : Z).

Record Controller := mkController {
  state : Phase;
  backgroundListening : bool;
  lastInterimText : string;
  finalTextBuffer : string;               (* the text accumulator *)
  (* configuration, and the modules that carry it *)
  voiceCommands : bool;
  translationEnabled : bool;
  crewAIAgent : CrewAIAgent.Agent;
  triggerWordDetector : TriggerWordDetector.t
}.

Definition with_state (c : Controller) (p : Phase) : Controller :=
  {| state := p; backgroundListening := backgroundListening c;
     lastInterimText := lastInterimText c;
     finalTextBuffer := finalTextBuffer c;
     voiceCommands := voiceCommands c;
     translationEnabled := translationEnabled c;
     crewAIAgent := crewAIAgent c;
     triggerWordDetector := triggerWordDetector c |}.

Definition with_background (c : Controller) (b : bool) : Controller :=
  {| state := state c; backgroundListening := b;
     lastInterimText := lastInterimText c;
     finalTextBuffer := finalTextBuffer c;
     voiceCommands := voiceCommands c;
     translationEnabled := translationEnabled c;
     crewAIAgent := crewAIAgent c;
     triggerWordDetector := triggerWordDetector c |}.

Definition with_buffers (c : Controller) (interim final : string)
  : Controller :=
  {| state := state c; backgroundListening := backgroundListening c;
     lastInterimText := interim;
     finalTextBuffer := final;
     voiceCommands := voiceCommands c;
     translationEnabled := translationEnabled c;
     crewAIAgent := crewAIAgent c;
     triggerWordDetector := triggerWordDetector c |}.

(** *** The monad of a controller method: state, trace, exceptions *)

Inductive Completion (A : Type) :=
| Done (a : A)
| Raised (message : string).
Arguments Done {A} a.
Arguments Raised {A} message.

Definition M (A : Type) : Type :=
  Controller -> Controller * list Effect * Completion A.

Definition ret {A} (a : A) : M A := fun c => (c, [], Done a).

Definition bind {A B} (m : M A) (k : A -> M B) : M B :=
  fun c =>
    match m c with
    | (c1, e1, Done a) =>
        let '(c2, e2, r) := k a c1 in (c2, e1 ++ e2, r)
    | (c1, e1, Raised message) => (c1, e1, Raised message)
    end.

Definition throw {A} (message : string) : M A :=
  fun c => (c, [], Raised message).

Definition try_catch {A} (m : M A) (handler : string -> M A) : M A :=
  fun c =>
    match m c with
    | (c1, e1, Raised message) =>
        let '(c2, e2, r) := handler message c1 in (c2, e1 ++ e2, r)
    | done => done
    end.

Definition tell (e : Effect) : M unit := fun c => (c, [e], Done tt).
Definition get : M Controller := fun c => (c, [], Done c).
Definition modify (f : Controller -> Controller) : M unit :=
  fun c => (f c, [], Done tt).

Notation "'let!' x := e 'in' k" := (bind e (fun x => k))
  (at level 10, x name, e at level 100, k at level 200).
Notation "e >> k" := (bind e (fun _ => k))
  (at level 61, right associativity).

Definition console (l : Level) (message : string) : M unit :=
  tell (Console l message).
Definition emit (e : Event) : M unit := tell (Emit e).

(** [setState(newState)] *)
Definition setState (newState : Phase) : M unit :=
  let! c := get in
  modify (fun c => with_state c newState) >>
  emit (stateChange (state c) newState).

(** [stop()] as far as [await this.sttClient.stopSession()]. [true]: it
    waits there; [false]: it has returned. Its [catch] is not reached:
    nothing it calls throws. *)
Definition stopBegin : M bool :=
  let! c := get in
  console Log "Stop requested" >>
  if Phase_eqb (state c) idle then
    console Warn "Not currently listening, ignoring stop request" >>
    ret false
  else
    console Log "Stopping speech recognition..." >>
    console Log "Stopping microphone..." >>
    tell MicrophoneStop >>
    console Log "Stopping Deepgram session..." >>
    tell SttStopSession >>
    ret true.

(** [stop()] from its [await] on. *)
Definition stopEnd : M unit :=
  setState idle >>
  tell (Indicator "idle") >>
  emit stopped >>
  console Log "Speech recognition stopped successfully".

(** [stop()], awaited. *)
Definition stop : M unit :=
  let! waits := stopBegin in
  if (waits : bool) then stopEnd else ret tt.

(** [stopBackgroundListening()] as far as its [await], and from there
    on. *)
Definition stopBackgroundListeningBegin : M bool :=
  let! c := get in
  if negb (backgroundListening c) then ret false
  else
    console Log "Stopping background listening..." >>
    tell MicrophoneStop >>
    tell SttStopSession >>
    ret true.

Definition stopBackgroundListeningEnd : M unit :=
  modify (fun c => with_background c false) >>
  setState idle >>
  emit backgroundListeningStopped >>
  console Log "Background listening stopped".

(** [stopBackgroundListening()], awaited. *)
Definition stopBackgroundListening : M unit :=
  let! waits := stopBackgroundListeningBegin in
  if (waits : bool) then stopBackgroundListeningEnd else ret tt.

(** A call that was made without [await] and has reached its own
    [await]: it goes on when the code that made it has returned to the
    event loop. *)
Inductive Suspended := stopCall | stopBackgroundListeningCall.

Definition resume (call : Suspended) : M unit :=
  match call with
  | stopCall => stopEnd
  | stopBackgroundListeningCall => stopBackgroundListeningEnd
  end.

(** The suspended calls go on in the order in which they were made. *)
Fixpoint resumeAll (calls : list Suspended) : M unit :=
  match calls with
  | [] => ret tt
  | call :: rest => resume call >> resumeAll rest
  end.

(** A call without [await]: it runs as far as its [await]. *)
Definition launch (begin : M bool) (call : Suspended)
  : M (list Suspended) :=
  let! waits := begin in
  ret (if (waits : bool) then [call] else []).

(** [handleError(error)], as far as it runs before it returns; the
    result is the [stop()] it has launched. *)
Definition handleError (message : string) : M (list Suspended) :=
  setState error >>
  tell (Indicator "error") >>
  emit (errorEvent message) >>
  launch stopBegin stopCall.

(** The listener of the session's ['error'] event. *)
Definition onSttError (message : string) : M (list Suspended) :=
  console Error "Deepgram error:" >>
  handleError message.

(** The listener of the microphone's ['error'] event. *)
Definition onMicrophoneError (message : string) : M (list Suspended) :=
  console Error "Microphone error:" >>
  if JS.includes message "device not found" then
    console Warn "Microphone device not found - speech recognition features will be unavailable" >>
    console Warn "TTS and other features will still work" >>
    let! c := get in
    let! launched :=
      if backgroundListening c
      then launch stopBackgroundListeningBegin stopBackgroundListeningCall
      else ret [] in
    setState idle >>
    tell (Indicator "idle") >>
    emit (microphoneUnavailable message) >>
    ret launched
  else
    handleError message.

(** The [catch] block of [start()], entered where its [try] block
    throws, and what the event loop runs after it. [waiting] are the
    calls that a listener has left at their [await] in the turn of the
    [throw]. Once [start()] has rejected they go on, before the [stop()]
    that this [handleError] launches. *)
Definition startCatch (waiting : list Suspended) (message : string)
  : M unit :=
  console Error "Error starting speech recognition" >>
  console Error "Error stack" >>
  let! launched := handleError message in
  resumeAll (waiting ++ launched) >>
  throw message.

(** [start()]. A failing [startSession] has run the listener of the
    session by the time its rejection reaches the [catch] block, and the
    [stop()] of that listener has gone on: it found the session closed.
    A failing [microphoneManager.start()] runs the listener of the
    microphone and throws in one turn: the [stop()] of that listener
    still waits when the [catch] block runs. *)
Definition start (w : Services) : M unit :=
  let! c := get in
  console Log "Start requested" >>
  if Phase_eqb (state c) listening then
    console Warn "Already listening, ignoring start request"
  else
    tell IsUserAuthenticated >>
    if negb (isUserAuthenticated w) then
      console Error "Authentication check failed" >>
      emit authenticationRequired >>
      startCatch []
        "User not authenticated. Please login to use speech recognition."
    else
      tell (CheckPermission "stt") >>
      if negb (checkPermission w "stt") then
        console Error "STT not activated for user" >>
        emit (activationRequired "stt") >>
        startCatch []
          "STT feature not activated. Please activate STT in the dashboard."
      else
        tell TrackDeepgramUsage >>
        if negb (allowed (trackDeepgramUsage w)) then
          console Error "Token limit exceeded" >>
          emit (tokenLimitExceeded (trackDeepgramUsage w)) >>
          startCatch []
            ("Token limit exceeded: " ++ reason (trackDeepgramUsage w))%string
        else
          (if backgroundListening c then
             console Log "Stopping background listening first..." >>
             stopBackgroundListening
           else ret tt) >>
          console Log "Starting speech recognition..." >>
          setState listening >>
          tell (Indicator "listening") >>
          modify (fun c => with_buffers c "" "") >>
          console Log "Buffers reset" >>
          console Log "Starting Deepgram session..." >>
          tell SttStartSession >>
          match startSession w with
          | Some message =>
              let! launched := onSttError message in
              resumeAll launched >>
              startCatch [] message
          | None =>
              console Log "Deepgram session started" >>
              console Log "Starting microphone..." >>
              tell MicrophoneStart >>
              match microphoneStart w with
              | Some message =>
                  let! launched := onMicrophoneError message in
                  startCatch launched message
              | None =>
                  emit started >>
                  console Log "Speech recognition started successfully"
              end
          end.

(** [toggle()] *)
Definition toggle (w : Services) : M unit :=
  let! c := get in
  if Phase_eqb (state c) idle then start w else stop.

(** The three lines every typing site repeats:
    [textToType = finalTextBuffer.length > 0 ? ' ' + fragment : fragment],
    [typeText(textToType)], [finalTextBuffer += textToType]. *)
Definition typeFragment (fragment : string) : M unit :=
  let! c := get in
  let textToType :=
    if JS.isEmpty (finalTextBuffer c) then fragment
    else (" " ++ fragment)%string in
  tell (TypeText textToType) >>
  modify (fun c => with_buffers c (lastInterimText c)
                     (finalTextBuffer c ++ textToType)%string).

Definition resetFinalTextBuffer : M unit :=
  modify (fun c => with_buffers c (lastInterimText c) "").

Definition isEnter (token : string) : bool :=
  String.eqb (JS.toLowerCase token) "enter".

(** The loop over [analysis.commands]. An entry that is no string makes
    [executeCommand] throw a [TypeError] at [command.includes]. *)
Fixpoint executeCommands (cmds : list CrewAIAgent.Command) : M unit :=
  match cmds with
  | [] => ret tt
  | CrewAIAgent.Key token :: rest =>
      tell (ExecuteCommand token) >>
      (if isEnter token then resetFinalTextBuffer else ret tt) >>
      tell (Delay 100) >>
      executeCommands rest
  | CrewAIAgent.NotAString _ :: _ =>
      throw "TypeError: command.includes is not a function"
  end.

Definition blank (s : string) : bool :=
  JS.isEmpty s || JS.isEmpty (JS.trim s).

(** The branch taken when the agent is enabled. [true]: the method
    returned from it; [false]: its [catch] ran and the standard
    processing follows. *)
Definition agentProcessing (w : Services) (transcript : string) : M bool :=
  try_catch
    (tell (Indicator "processing crewai") >>
     tell (Analyze transcript) >>
     let analysis := analyze w transcript in
     (if negb (blank (CrewAIAgent.text analysis))
      then typeFragment (CrewAIAgent.text analysis)
      else ret tt) >>
     (match CrewAIAgent.commands analysis with
      | [] => ret tt
      | cmds =>
          tell (Indicator "processing command") >>
          tell (WriteCommandToLog transcript) >>
          executeCommands cmds >>
          emit (commandsEvent cmds transcript)
      end) >>
     tell (Indicator "success") >>
     emit (textEvent (if JS.isEmpty (CrewAIAgent.text analysis)
                      then transcript
                      else CrewAIAgent.text analysis)) >>
     ret true)
    (fun _ =>
       console Error "Error processing with CrewAI, falling back to standard processing" >>
       console Error "Error details" >>
       ret false).

(** The command words of the fallback grammar, in the order the loop
    tries them. *)
Definition commandWords : list string :=
  ["new line"; "select all"; "question mark"; "exclamation mark";
   "exclamation point"; "open parenthesis"; "close parenthesis";
   "open bracket"; "close bracket";
   "sent"; "send"; "enter"; "return"; "tab"; "backspace"; "delete"].

(** One attempt of [/WORD\s*[.!?,;:]*$/i], with a leading [\b] for a
    single word, at the current position. *)
Definition commandAt (single prevW : bool) (word subject : string) : bool :=
  (if single then JS.wordBoundary prevW subject else true) &&
  match JS.matchLiteral prevW word subject with
  | Some (_, rest) => JS.onlyPunctuationLeft rest
  | None => false
  end.

Fixpoint searchCommand (single prevW : bool) (word subject : string)
  : bool :=
  commandAt single prevW word subject ||
  match subject with
  | EmptyString => false
  | String ch rest => searchCommand single (JS.isWordChar ch) word rest
  end.

(** [regex.test(normalizedText)] for the pattern built from
    [commandWord]. *)
Definition endsWithCommand (normalizedText commandWord : string) : bool :=
  searchCommand (negb (JS.includes commandWord " ")) false
    commandWord normalizedText.

(** What the standard processing does once a command is recognised. *)
Definition runCommand (token originalText : string) : M unit :=
  tell (Indicator "processing command") >>
  tell (WriteCommandToLog originalText) >>
  tell (ExecuteCommand token) >>
  (if String.eqb token "enter" then resetFinalTextBuffer else ret tt) >>
  tell (Indicator "success") >>
  emit (commandEvent token originalText).

(** The [for] loop over the command words; [true] when it returned from
    the method. *)
Fixpoint tryCommandWords (w : Services) (transcript normalizedText : string)
  (words : list string) : M bool :=
  match words with
  | [] => ret false
  | commandWord :: rest =>
      if endsWithCommand normalizedText commandWord then
        let commandIndex :=
          JS.lastIndexOf normalizedText (JS.toLowerCase commandWord) in
        if commandIndex =? -1
        then tryCommandWords w transcript normalizedText rest
        else
          let textBeforeCommand :=
            JS.trim (JS.substring transcript 0 commandIndex) in
          let commandParsed := parse w commandWord in
          match CommandParser.type commandParsed with
          | CommandParser.command =>
              (if JS.isEmpty textBeforeCommand then ret tt
               else typeFragment textBeforeCommand) >>
              runCommand (CommandParser.value commandParsed) transcript >>
              ret true
          | CommandParser.text =>
              tryCommandWords w transcript normalizedText rest
          end
      else tryCommandWords w transcript normalizedText rest
  end.

(** The standard processing: the fallback grammar, then plain typing. *)
Definition standardProcessing (w : Services) (transcript : string) : M unit :=
  let! c := get in
  let! returned :=
    if voiceCommands c then
      let parsed := parse w transcript in
      match CommandParser.type parsed with
      | CommandParser.command =>
          runCommand (CommandParser.value parsed)
            (CommandParser.originalText parsed) >>
          ret true
      | CommandParser.text =>
          tryCommandWords w transcript
            (JS.trim (JS.toLowerCase transcript)) commandWords
      end
    else ret false in
  if (returned : bool) then ret tt
  else
    typeFragment transcript >>
    tell (Indicator "success") >>
    emit (textEvent transcript).

(** The translation stage; it yields the text to go on with. *)
Definition translate (w : Services) (transcript : string) : M string :=
  let! c := get in
  if translationEnabled c then
    tell (Indicator "processing translation") >>
    tell (TranslateToEnglish transcript) >>
    match translateToEnglish w transcript with
    | Some t =>
        if negb (isEnglish t) then
          tell (WriteToLog "[TRANSLATION]") >>
          tell (WriteToLog transcript) >>
          tell (WriteToLog (translatedText t)) >>
          emit (translated transcript (translatedText t)
                  (detectedLanguage t)) >>
          ret (translatedText t)
        else ret transcript
    | None => ret transcript
    end
  else ret transcript.

(** [processFinalTranscription(text, isFinal)] *)
Definition processFinalTranscription (w : Services) (transcript : string)
  (isFinal : bool) : M unit :=
  if negb isFinal then
    console Error "processFinalTranscription called with interim result!" >>
    console Error "only FINAL transcriptions should reach this method"
  else if blank transcript then ret tt
  else
    let! c := get in
    let detector := triggerWordDetector c in
    if Phase_eqb (state c) background_listening
       && TriggerWordDetector.enabled detector then
      match TriggerWordDetector.detect detector transcript with
      | Some (TriggerWordDetector.Activate _ _ as r) =>
          stopBackgroundListening >> start w >> emit (triggerActivated r)
      | Some (TriggerWordDetector.Deactivate _ _ as r) =>
          stop >> emit (triggerDeactivated r)
      | None => ret tt
      end
    else
      let deactivation :=
        if Phase_eqb (state c) listening
           && TriggerWordDetector.enabled detector
        then match TriggerWordDetector.detect detector transcript with
             | Some (TriggerWordDetector.Deactivate _ _ as r) => Some r
             | _ => None
             end
        else None in
      match deactivation with
      | Some r => stop >> emit (triggerDeactivated r)
      | None =>
          tell (Indicator "processing text") >>
          let! processedText := translate w transcript in
          let! returned :=
            if CrewAIAgent.isEnabled (crewAIAgent c)
            then agentProcessing w processedText
            else ret false in
          if (returned : bool) then ret tt
          else standardProcessing w processedText
      end.

(** The final transcripts of one episode, processed one after the
    other. *)
Fixpoint dictate (w : Services) (transcripts : list string) : M unit :=
  match transcripts with
  | [] => ret tt
  | t :: rest => processFinalTranscription w t true >> dictate w rest
  end.

(** *** Reading a trace *)

Fixpoint typedTexts (tr : list Effect) : list string :=
  match tr with
  | [] => []
  | TypeText t :: rest => t :: typedTexts rest
  | _ :: rest => typedTexts rest
  end.

Fixpoint executedCommands (tr : list Effect) : list string :=
  match tr with
  | [] => []
  | ExecuteCommand k :: rest => k :: executedCommands rest
  | _ :: rest => executedCommands rest
  end.

Fixpoint emitted (tr : list Effect) : list Event :=
  match tr with
  | [] => []
  | Emit e :: rest => e :: emitted rest
  | _ :: rest => emitted rest
  end.

(** The calls that check a precondition of [start]. *)
Definition isCheck (e : Effect) : bool :=
  match e with
  | IsUserAuthenticated | CheckPermission _ | TrackDeepgramUsage => true
  | _ => false
  end.

(** The three signals of a failed precondition. *)
Definition isSignal (e : Event) : bool :=
  match e with
  | authenticationRequired | activationRequired _ | tokenLimitExceeded _ =>
      true
  | _ => false
  end.

(** The calls that start the transcription session or the microphone. *)
Definition isStart (e : Effect) : bool :=
  match e with
  | SttStartSession | MicrophoneStart => true
  | _ => false
  end.

Definition checks (tr : list Effect) : list Effect := filter isCheck tr.
Definition signals (tr : list Effect) : list Event :=
  filter isSignal (emitted tr).
Definition startsNothing (tr : list Effect) : bool :=
  negb (existsb isStart tr).

(** The separator a typing site puts before a fragment. *)
Definition separator (accumulator : string) : string :=
  if JS.isEmpty accumulator then "" else " ".

(** The text that leaves the translation stage. *)
Definition processedText (w : Services) (c : Controller)
  (transcript : string) : string :=
  if translationEnabled c then
    match translateToEnglish w transcript with
    | Some t => if negb (isEnglish t) then translatedText t else transcript
    | None => transcript
    end
  else transcript.

(** A controller as its constructor leaves it, with voice commands on
    and the optional stages off. *)
Definition fresh : Controller :=
  {| state := idle; backgroundListening := false;
     lastInterimText := ""; finalTextBuffer := "";
     voiceCommands := true; translationEnabled := false;
     crewAIAgent := {| CrewAIAgent.enabled := false;
                       CrewAIAgent.groqClient := false |};
     triggerWordDetector := TriggerWordDetector.defaults |}.

(** Collaborators that let everything pass; the agent, where it is
    asked, finds no command. *)
Definition granting : Services :=
  {| isUserAuthenticated := true;
     checkPermission := fun _ => true;
     trackDeepgramUsage := {| allowed := true; reason := "undefined" |};
     startSession := None;
     microphoneStart := None;
     translateToEnglish := fun _ => None;
     analyze := fun t => {| CrewAIAgent.text := t;
                            CrewAIAgent.commands := [] |};
     parse := CommandParser.parse |}.

(** The same with a user who is not logged in. *)
Definition loggedOut : Services :=
  {| isUserAuthenticated := false;
     checkPermission := checkPermission granting;
     trackDeepgramUsage := trackDeepgramUsage granting;
     startSession := None;
     microphoneStart := None;
     translateToEnglish := translateToEnglish granting;
     analyze := analyze granting;
     parse := parse granting |}.

(** The text typed before a recognised trailing command word. *)
Definition textBefore (transcript commandWord : string) : string :=
  JS.trim (JS.substring transcript 0
    (JS.lastIndexOf (JS.trim (JS.toLowerCase transcript))
       (JS.toLowerCase commandWord))).

(** A pass that ends in a command [token], after typing [before] when
    that is not empty. *)
Definition commandPass (c : Controller) (before token : string)
  (result : Controller * list Effect * Completion bool) : Prop :=
  let '(c', tr, r) := result in
  r = Done true /\
  typedTexts tr =
    (if JS.isEmpty before then []
     else [(separator (finalTextBuffer c) ++ before)%string]) /\
  executedCommands tr = [token] /\
  finalTextBuffer c' =
    (if String.eqb token "enter" then ""
     else fold_left String.append (typedTexts tr) (finalTextBuffer c)).

End SpeechRecognitionController.

(* ================================================================== *)
(** ** Words and white space *)
(* ================================================================== *)

Module Words.

(** Whether the code unit before the end of [s] is a word character;
    [prevW] answers for the empty string. *)
Fixpoint endsInWord (prevW : bool) (s : string) : bool :=
  match s with
  | EmptyString => prevW
  | String c r => endsInWord (JS.isWordChar c) r
  end.

(** A string of word characters only. *)
Fixpoint allWordChars (s : string) : bool :=
  match s with
  | EmptyString => true
  | String c r => JS.isWordChar c && allWordChars r
  end.

(** Equality of strings under the [i] flag. *)
Definition ciEqString (a b : string) : bool :=
  String.eqb (JS.toLowerCase a) (JS.toLowerCase b).

(** A string of white space only. *)
Fixpoint allSpaces (s : string) : bool :=
  match s with
  | EmptyString => true
  | String c r => JS.isSpace c && allSpaces r
  end.

(** A word boundary between [before] and [after]: exactly one of the
    two characters next to it is a word character, the ends of the text
    counting as none. *)
Definition boundary (before after : string) : bool :=
  xorb (endsInWord false before) (JS.headIsWord after).

(** [word] stands in [text] as a word, letter case apart: with a word
    boundary before it and one after it. *)
Definition standsAsWord (text word : string) : Prop :=
  exists pre m post,
    text = pre ++ m ++ post /\
    ciEqString m word = true /\
    boundary pre (m ++ post) = true /\
    boundary (pre ++ m) post = true.

(** [word] ends [text], letter case apart: white space and then
    punctuation marks are all that follows it, and a [word] without a
    space in it begins at a word boundary. *)
Definition endsText (text word : string) : Prop :=
  exists pre m spaces marks,
    text = pre ++ m ++ spaces ++ marks /\
    ciEqString m word = true /\
    allSpaces spaces = true /\
    JS.allPunct marks = true /\
    (JS.includes word " " = false ->
     boundary pre (m ++ spaces ++ marks) = true).

End Words.

(* ================================================================== *)
(** ** GroqSTTClient: reading a run *)
(* ================================================================== *)

Module GroqSTTClientRuns.

Import GroqSTTClient.
Local Open Scope list_scope.

(** The chunks of a run for which [sendAudio] returned [true], in the
    order of the calls. *)
Fixpoint acceptedIn (acts : list Action) (s : State) : list Buffer.t :=
  match acts with
  | [] => []
  | a :: rest =>
      let later := acceptedIn rest (fst (step a s)) in
      match a with
      | SendAudio d now =>
          if snd (sendAudio d now s) then d :: later else later
      | _ => later
      end
  end.

Definition isStop (a : Action) : bool :=
  match a with StopSession _ => true | _ => false end.

(** The temporary files a trace writes, removes and submits. *)
Fixpoint written (tr : list Effect) : list Z :=
  match tr with
  | [] => []
  | WriteFileSync f _ :: rest => f :: written rest
  | _ :: rest => written rest
  end.

Fixpoint unlinked (tr : list Effect) : list Z :=
  match tr with
  | [] => []
  | UnlinkSync f :: rest => f :: unlinked rest
  | _ :: rest => unlinked rest
  end.

Fixpoint submitted (tr : list Effect) : list Z :=
  match tr with
  | [] => []
  | CreateTranscription f :: rest => f :: submitted rest
  | _ :: rest => submitted rest
  end.


(** The temporary file of the request in flight. *)
Definition pending (s : State) : list Z :=
  match awaitingAnswer s with Some f => [f] | None => [] end.

(** *** What the runs of a client keep true *)

(** What the methods keep true of the session when [stopSession] is not
    called: a client that is not connected holds no audio, and a
    connected one has its SDK client. *)
Definition open_invariant (s : State) : Prop :=
  (isConnected s = false -> audioBuffer s = []) /\
  (isConnected s = true -> groqClient s = true) /\
  stopAwaitingFlush s = false.

(** Without a request in flight no continuation is suspended. *)
Definition flight_invariant (s : State) : Prop :=
  isProcessing s = false -> awaitingAnswer s = None.

(** The files of a stretch of a run, from state [s] to state [s1] with
    trace [e1]. *)
Definition files_balance (s s1 : State) (e1 : list Effect) : Prop :=
  flight_invariant s1 /\
  pending s ++ written e1 = unlinked e1 ++ pending s1 /\
  submitted e1 = written e1.

(** A trace that touches no file. *)
Definition quiet (tr : list Effect) : Prop :=
  written tr = [] /\ unlinked tr = [] /\ submitted tr = [].




End GroqSTTClientRuns.

(* ================================================================== *)
(** ** SpeechRecognitionController: the keyboard *)
(* ================================================================== *)

Module SpeechRecognitionControllerTraces.

Import SpeechRecognitionController.
Local Open Scope list_scope.

(** A run that reaches the keyboard with nothing. *)
Definition silent {A} (result : Controller * list Effect * Completion A)
  : Prop :=
  typedTexts (snd (fst result)) = [] /\
  executedCommands (snd (fst result)) = [].

(** The messages of the ['error'] events of a trace. *)
Fixpoint errorMessages (tr : list Effect) : list string :=
  match tr with
  | [] => []
  | Emit (errorEvent message) :: rest => message :: errorMessages rest
  | _ :: rest => errorMessages rest
  end.

End SpeechRecognitionControllerTraces.

(* ================================================================== *)
(** ** JavaScript values in stored documents *)
(* ================================================================== *)

Module JSValue.

(** A field of a stored document, as far as the code tells values
    apart: by type, by truthiness and by strict equality with [true]
    and ['yes']. A number is an integer here. *)
Inductive t :=
| Undefined
| Null
| Bool (b : bool)
| Number (n : Z)
| Str (s : string)
| Object.

(** [!!v] *)
Definition truthy (v : t) : bool :=
  match v with
  | Bool b => b
  | Number n => negb (n =? 0)
  | Str s => negb (JS.isEmpty s)
  | Object => true
  | Undefined | Null => false
  end.

(** [v === true] *)
Definition isTrue (v : t) : bool :=
  match v with Bool true => true | _ => false end.

(** [typeof v === 'boolean' ? v : v === 'yes'] *)
Definition grants (v : t) : bool :=
  match v with
  | Bool b => b
  | Str s => String.eqb s "yes"
  | _ => false
  end.

(** [`${n}`] for an integer. *)
Definition show (n : Z) : string := NilEmpty.string_of_int (Z.to_int n).

End JSValue.

(* ================================================================== *)
(** ** MongoDBService: access, limits and token usage *)
(* ================================================================== *)

Module MongoDBService.

Local Open Scope list_scope.

(** A user id as the application hands it around
    ([currentUser.user_id]): a string. *)
Definition UserId := string.

(** An [ObjectId] of the driver: twelve bytes, written as the 24
    hexadecimal digits that [toHexString()] prints. *)
Record ObjectId := mkObjectId { toHexString : string }.

Definition ObjectId_eqb (a b : ObjectId) : bool :=
  String.eqb (toHexString a) (toHexString b).

Definition isHexDigit (c : ascii) : bool :=
  let n := JS.code c in
  ((48 <=? n) && (n <=? 57) || (65 <=? n) && (n <=? 70)
   || (97 <=? n) && (n <=? 102))%N.

Fixpoint allHexDigits (s : string) : bool :=
  match s with
  | EmptyString => true
  | String c r => isHexDigit c && allHexDigits r
  end.

(** The pattern [/^[a-f0-9]{24}$/i], against which [isValidObjectId] of
    main/index.js tests an id. *)
Definition isValidObjectId (id : string) : bool :=
  (String.length id =? 24)%nat && allHexDigits id.

(** [new ObjectId(userId)] for a string: the driver reads 24
    hexadecimal digits, in either case, as the twelve bytes, and throws
    on a string that is not an id; [None] is the throw. (Drivers before
    version 6 also read a string of twelve characters as the bytes
    themselves; the application hands out and checks ids of 24 digits
    only.) *)
Definition newObjectId (userId : UserId) : option ObjectId :=
  if isValidObjectId userId
  then Some {| toHexString := JS.toLowerCase userId |}
  else None.

(** The field [user_id] of a stored document: [None] for [null] and for
    any value that is not an [ObjectId], which no query by [ObjectId]
    finds. *)
Record AccessDoc := mkAccess {
  access_user_id : option ObjectId;
  permission : JSValue.t;
  stt_enabled : JSValue.t;
  tts_enabled : JSValue.t
}.

Record LimitDoc := mkLimit {
  limit_user_id : option ObjectId;
  deepgram_token_list : list Z;
  agent_token_list : list Z
}.

Record UsageDoc := mkUsage {
  usage_user_id : ObjectId;
  deepgram : Z;
  agent : Z;
  date : Z                       (* local midnight of the day *)
}.

(** The fields of a profile that usage accounting touches. *)
Record ProfileDoc := mkProfile {
  profile_id : ObjectId;
  total_deepgram : Z;
  total_agent : Z
}.

(** The service and the collections behind it, each in natural order.
    [isConnected] stands for [this.isConnected && this.db];
    [responding] tells whether the calls to the driver resolve. A
    document carries the fields its creator writes; the console lines
    of the methods are left out. *)
Record t := mk {
  isConnected : bool;
  responding : bool;
  access : list AccessDoc;
  limit : list LimitDoc;
  token_usage : list UsageDoc;
  profile : list ProfileDoc;
  log : list (ObjectId * string)
}.

Inductive Outcome (A : Type) :=
| Resolved (a : A)
| Rejected (message : string).
Arguments Resolved {A} a.
Arguments Rejected {A} message.

(** Every method below is one [try] block whose [catch] logs and
    rethrows: what throws inside it rejects the promise of the method.
    The three steps of such a block, in the order in which the methods
    take them: [getCollection(name)], which throws when the service is
    not connected; [new ObjectId(userId)] for an argument of the call;
    the call to the driver. *)
Definition getCollection {A} (db : t) (rest : Outcome A) : Outcome A :=
  if negb (isConnected db) then Rejected "MongoDB not connected"
  else rest.

Definition withObjectId {A} (userId : UserId) (rest : ObjectId -> Outcome A)
  : Outcome A :=
  match newObjectId userId with
  | Some id => rest id
  | None => Rejected "BSONError"
  end.

Definition driver {A} (db : t) (answer : A) : Outcome A :=
  if negb (responding db) then Rejected "driver error"
  else Resolved answer.

Definition sameUser (id : ObjectId) (o : option ObjectId) : bool :=
  match o with Some v => ObjectId_eqb id v | None => false end.

(** [getAccessByUserId(userId)] *)
Definition getAccessByUserId (db : t) (userId : UserId)
  : Outcome (option AccessDoc) :=
  getCollection db (withObjectId userId (fun id =>
    driver db (find (fun d => sameUser id (access_user_id d)) (access db)))).

(** [getLimitByUserId(userId)] *)
Definition getLimitByUserId (db : t) (userId : UserId)
  : Outcome (option LimitDoc) :=
  getCollection db (withObjectId userId (fun id =>
    driver db (find (fun d => sameUser id (limit_user_id d)) (limit db)))).

Definition usageOf (id : ObjectId) (today : Z) (d : UsageDoc) : bool :=
  ObjectId_eqb id (usage_user_id d) && (date d =? today).

(** [getTodayTokenUsage(userId)] on the day [today]. *)
Definition getTodayTokenUsage (db : t) (userId : UserId) (today : Z)
  : Outcome (option UsageDoc) :=
  getCollection db (withObjectId userId (fun id =>
    driver db (find (usageOf id today) (token_usage db)))).

(** [updateOne({_id: existingRecord._id}, {$inc: ...})]: the document
    found is the first one of the user and the day, and its [_id]
    names it and no other. *)
Fixpoint incUsage (id : ObjectId) (today : Z) (tokenType : string)
    (amount : Z) (docs : list UsageDoc) : list UsageDoc :=
  match docs with
  | [] => []
  | d :: rest =>
      if usageOf id today d then
        (if String.eqb tokenType "deepgram"
         then {| usage_user_id := usage_user_id d;
                 deepgram := deepgram d + amount;
                 agent := agent d; date := date d |}
         else {| usage_user_id := usage_user_id d;
                 deepgram := deepgram d;
                 agent := agent d + amount; date := date d |}) :: rest
      else d :: incUsage id today tokenType amount rest
  end.

(** [updateOne({_id}, {$inc: ...})] on the profiles. *)
Fixpoint incProfile (id : ObjectId) (tokenType : string) (amount : Z)
    (docs : list ProfileDoc) : list ProfileDoc :=
  match docs with
  | [] => []
  | p :: rest =>
      if ObjectId_eqb id (profile_id p) then
        (if String.eqb tokenType "deepgram"
         then {| profile_id := profile_id p;
                 total_deepgram := total_deepgram p + amount;
                 total_agent := total_agent p |}
         else {| profile_id := profile_id p;
                 total_deepgram := total_deepgram p;
                 total_agent := total_agent p + amount |}) :: rest
      else p :: incProfile id tokenType amount rest
  end.

(** [incrementTokenUsage(userId, tokenType, amount)]: the database
    afterwards; the boolean it resolves to is left out, its caller
    drops it. *)
Definition incrementTokenUsage (db : t) (userId : UserId)
    (tokenType : string) (amount : Z) : Outcome t :=
  getCollection db (withObjectId userId (fun id =>
    driver db
      {| isConnected := isConnected db; responding := responding db;
         access := access db; limit := limit db;
         token_usage := token_usage db;
         profile := incProfile id tokenType amount (profile db);
         log := log db |})).

(** [recordTokenUsage(userId, tokenType, amount)] on the day [today]. *)
Definition recordTokenUsage (db : t) (userId : UserId) (tokenType : string)
    (amount : Z) (today : Z) : Outcome t :=
  getCollection db (withObjectId userId (fun id =>
    match driver db (find (usageOf id today) (token_usage db)) with
    | Rejected message => Rejected message
    | Resolved existingRecord =>
        let usage :=
          match existingRecord with
          | Some _ => incUsage id today tokenType amount (token_usage db)
          | None =>
              token_usage db ++
              [{| usage_user_id := id;
                  deepgram := if String.eqb tokenType "deepgram"
                              then amount else 0;
                  agent := if String.eqb tokenType "agent"
                           then amount else 0;
                  date := today |}]
          end in
        incrementTokenUsage
          {| isConnected := isConnected db; responding := responding db;
             access := access db; limit := limit db;
             token_usage := usage;
             profile := profile db;
             log := log db |}
          userId tokenType amount
    end)).

(** [createLog(userId, logMessage)] *)
Definition createLog (db : t) (userId : UserId) (logMessage : string)
  : Outcome t :=
  getCollection db (withObjectId userId (fun id =>
    driver db
      {| isConnected := isConnected db; responding := responding db;
         access := access db; limit := limit db;
         token_usage := token_usage db; profile := profile db;
         log := log db ++ [(id, logMessage)] |})).

(** The answer of [checkTokenLimit]; a field the object literal leaves
    out is [None]. *)
Record LimitResult := mkResult {
  allowed : bool;
  reason : option string;
  used : option Z;
  dailyLimit : option Z;         (* the field [limit] *)
  remaining : option Z
}.

(** [limitList[dayOfMonth] || limitList[0]] on a list that is not
    empty, for [dayOfMonth = getDate() - 1]. *)
Definition limitOfDay (limitList : list Z) (getDate : nat) : Z :=
  let first := nth 0 limitList 0 in
  match nth_error limitList (getDate - 1) with
  | Some l => if l =? 0 then first else l
  | None => first
  end.

(** [checkTokenLimit(userId, tokenType)] on the day [today], whose day
    of the month is [getDate]. *)
Definition checkTokenLimit (db : t) (userId : UserId) (tokenType : string)
    (today : Z) (getDate : nat) : LimitResult :=
  let failed :=
    {| allowed := true; reason := Some "Error checking limit";
       used := None; dailyLimit := None; remaining := None |} in
  match getLimitByUserId db userId with
  | Rejected _ => failed
  | Resolved None =>
      {| allowed := true; reason := Some "No limits set";
         used := None; dailyLimit := None; remaining := None |}
  | Resolved (Some limit) =>
      match getTodayTokenUsage db userId today with
      | Rejected _ => failed
      | Resolved todayUsage =>
          let usedToday :=
            match todayUsage with
            | Some u => if String.eqb tokenType "deepgram"
                        then deepgram u else agent u
            | None => 0
            end in
          let limitList :=
            if String.eqb tokenType "deepgram"
            then deepgram_token_list limit else agent_token_list limit in
          match limitList with
          | [] =>
              {| allowed := true; reason := Some "No limits configured";
                 used := None; dailyLimit := None; remaining := None |}
          | _ =>
              let daily := limitOfDay limitList getDate in
              if daily <=? usedToday then
                {| allowed := false;
                   reason := Some ("Daily limit reached: "
                                   ++ JSValue.show usedToday ++ "/"
                                   ++ JSValue.show daily)%string;
                   used := Some usedToday; dailyLimit := Some daily;
                   remaining := None |}
              else
                {| allowed := true; reason := None;
                   used := Some usedToday; dailyLimit := Some daily;
                   remaining := Some (daily - usedToday) |}
          end
      end
  end.

End MongoDBService.

(* ================================================================== *)
(** ** AuthService: the session and the permission check *)
(* ================================================================== *)

Module AuthService.

Record t := mk {
  currentUser : option MongoDBService.UserId;   (* currentUser.user_id *)
  isAuthenticated : bool
}.

(** [isUserAuthenticated()] *)
Definition isUserAuthenticated (auth : t) : bool := isAuthenticated auth.

(** [getUserAccess()] *)
Definition getUserAccess (auth : t) (db : MongoDBService.t)
  : option MongoDBService.AccessDoc :=
  match currentUser auth with
  | None => None
  | Some user_id =>
      if negb (MongoDBService.isConnected db) then None
      else
        match MongoDBService.getAccessByUserId db user_id with
        | MongoDBService.Resolved access => access
        | MongoDBService.Rejected _ => None        (* catch *)
        end
  end.

(** [checkPermission(feature)] *)
Definition checkPermission (auth : t) (db : MongoDBService.t)
    (feature : string) : bool :=
  match currentUser auth with
  | None => false
  | Some _ =>
      match getUserAccess auth db with
      | None => false
      | Some access =>
          let hasPermission :=
            JSValue.grants (MongoDBService.permission access) in
          if negb hasPermission then false
          else if String.eqb feature "stt"
          then JSValue.isTrue (MongoDBService.stt_enabled access)
          else if String.eqb feature "tts"
          then JSValue.isTrue (MongoDBService.tts_enabled access)
          else false
      end
  end.

End AuthService.

(* ================================================================== *)
(** ** TokenTracker *)
(* ================================================================== *)

Module TokenTracker.

Local Open Scope list_scope.

Record t := mk { enabled : bool }.

Inductive Event :=
| limit_exceeded (type : string) (userId : MongoDBService.UserId)
    (limitCheck : MongoDBService.LimitResult)
| tokens_recorded (type : string) (userId : MongoDBService.UserId)
    (tokens : Z).

Definition allow : MongoDBService.LimitResult :=
  {| MongoDBService.allowed := true; MongoDBService.reason := None;
     MongoDBService.used := None; MongoDBService.dailyLimit := None;
     MongoDBService.remaining := None |}.

(** What [trackDeepgramUsage] and [trackAgentUsage] share; they differ
    in the type of token. Nothing inside their [try] throws
    ([checkTokenLimit] catches its own errors), so the [catch] is not
    reached. *)
Definition trackUsage (type : string) (tracker : t) (auth : AuthService.t)
    (db : MongoDBService.t) (today : Z) (getDate : nat)
  : MongoDBService.LimitResult * list Event :=
  if negb (enabled tracker) then (allow, [])
  else
    match AuthService.currentUser auth with
    | None =>
        ({| MongoDBService.allowed := false;
            MongoDBService.reason := Some "Not authenticated";
            MongoDBService.used := None; MongoDBService.dailyLimit := None;
            MongoDBService.remaining := None |}, [])
    | Some user_id =>
        let limitCheck :=
          MongoDBService.checkTokenLimit db user_id type today getDate in
        if negb (MongoDBService.allowed limitCheck)
        then (limitCheck, [limit_exceeded type user_id limitCheck])
        else (allow, [])
    end.

(** [trackDeepgramUsage()] *)
Definition trackDeepgramUsage := trackUsage "deepgram".

(** [trackAgentUsage()] *)
Definition trackAgentUsage := trackUsage "agent".

(** [recordAgentUsage(tokensUsed, metadata)]: the database afterwards,
    the events, and whether the returned promise resolves. A failure of
    [recordTokenUsage] is written to the log collection, and that write
    is awaited inside the [catch]: when it fails too, the promise
    rejects. The [catch] is entered with a user logged in only, so its
    [getCurrentUser()?.user_id] is the id of the [try] block. *)
Definition recordAgentUsage (tracker : t) (auth : AuthService.t)
    (db : MongoDBService.t) (tokensUsed : Z) (today : Z)
  : MongoDBService.t * list Event * MongoDBService.Outcome unit :=
  if negb (enabled tracker) then (db, [], MongoDBService.Resolved tt)
  else
    match AuthService.currentUser auth with
    | None => (db, [], MongoDBService.Resolved tt)
    | Some user_id =>
        match MongoDBService.recordTokenUsage db user_id "agent"
                tokensUsed today with
        | MongoDBService.Resolved db' =>
            (db', [tokens_recorded "agent" user_id tokensUsed],
             MongoDBService.Resolved tt)
        | MongoDBService.Rejected message =>
            match MongoDBService.createLog db user_id
                    ("Error recording Agent usage: " ++ message)%string with
            | MongoDBService.Resolved db' =>
                (db', [], MongoDBService.Resolved tt)
            | MongoDBService.Rejected message' =>
                (db, [], MongoDBService.Rejected message')
            end
        end
    end.

End TokenTracker.

(* ================================================================== *)
(** ** The checks of [start()], answered by the services *)
(* ================================================================== *)

Module AccessObservations.

Local Open Scope list_scope.

(** The usage of the day that [checkTokenLimit] reads. *)
Definition usedOn (db : MongoDBService.t) (id : MongoDBService.ObjectId)
    (tokenType : string) (today : Z) : Z :=
  match find (MongoDBService.usageOf id today)
          (MongoDBService.token_usage db) with
  | Some u => if String.eqb tokenType "deepgram"
              then MongoDBService.deepgram u else MongoDBService.agent u
  | None => 0
  end.

(** The list of daily limits of a user for a type of token; [None]
    without a limit document. *)
Definition limitsOf (db : MongoDBService.t) (id : MongoDBService.ObjectId)
    (tokenType : string) : option (list Z) :=
  match find (fun d => MongoDBService.sameUser id
                         (MongoDBService.limit_user_id d))
          (MongoDBService.limit db) with
  | Some l => Some (if String.eqb tokenType "deepgram"
                    then MongoDBService.deepgram_token_list l
                    else MongoDBService.agent_token_list l)
  | None => None
  end.

Definition available (db : MongoDBService.t) : bool :=
  MongoDBService.isConnected db && MongoDBService.responding db.

Definition resolves {A} (o : MongoDBService.Outcome A) : bool :=
  match o with MongoDBService.Resolved _ => true | _ => false end.

(** The collaborators of the controller, with the three checks of
    [start()] answered by the authentication service and the token
    tracker; [rest] answers for the others. *)
Definition servicesOf (auth : AuthService.t) (db : MongoDBService.t)
    (tracker : TokenTracker.t) (today : Z) (getDate : nat)
    (rest : SpeechRecognitionController.Services)
  : SpeechRecognitionController.Services :=
  let limitCheck :=
    fst (TokenTracker.trackDeepgramUsage tracker auth db today getDate) in
  {| SpeechRecognitionController.isUserAuthenticated :=
       AuthService.isUserAuthenticated auth;
     SpeechRecognitionController.checkPermission :=
       AuthService.checkPermission auth db;
     SpeechRecognitionController.trackDeepgramUsage :=
       {| SpeechRecognitionController.allowed :=
            MongoDBService.allowed limitCheck;
          SpeechRecognitionController.reason :=
            match MongoDBService.reason limitCheck with
            | Some r => r
            | None => "undefined"
            end |};
     SpeechRecognitionController.startSession :=
       SpeechRecognitionController.startSession rest;
     SpeechRecognitionController.microphoneStart :=
       SpeechRecognitionController.microphoneStart rest;
     SpeechRecognitionController.translateToEnglish :=
       SpeechRecognitionController.translateToEnglish rest;
     SpeechRecognitionController.analyze :=
       SpeechRecognitionController.analyze rest;
     SpeechRecognitionController.parse :=
       SpeechRecognitionController.parse rest |}.

End AccessObservations.

(* ================================================================== *)
(** ** TextInjector: the commands for xdotool and ydotool *)
(* ================================================================== *)

Module TextInjector.

Local Open Scope list_scope.

Definition backslash : ascii := "092"%char.
Definition dquote : ascii := "034"%char.
Definition dollar : ascii := "$"%char.
Definition backtick : ascii := "`"%char.

(** [s.replace(/c/g, by)] for a pattern that is one character. *)
Fixpoint replaceAll (c : ascii) (by_ : string) (s : string) : string :=
  match s with
  | EmptyString => EmptyString
  | String x r =>
      if Ascii.eqb x c then (by_ ++ replaceAll c by_ r)%string
      else String x (replaceAll c by_ r)
  end.

(** The four replacements of [typeTextLinux], in its order. *)
Definition escapeText (text : string) : string :=
  replaceAll backtick (String backslash (String backtick ""))
    (replaceAll dollar (String backslash (String dollar ""))
       (replaceAll dquote (String backslash (String dquote ""))
          (replaceAll backslash (String backslash (String backslash ""))
             text))).

(** The quoting of one character. *)
Definition escapeChar (c : ascii) : string :=
  if Ascii.eqb c backslash || Ascii.eqb c dquote
     || Ascii.eqb c dollar || Ascii.eqb c backtick
  then String backslash (String c "") else String c "".

Fixpoint escapeChars (s : string) : string :=
  match s with
  | EmptyString => EmptyString
  | String c r => (escapeChar c ++ escapeChars r)%string
  end.

(** [typeTextLinux(text)]: the command line handed to
    [executeLinuxCommand], on Wayland and on X11. *)
Definition typeTextLinux (isWayland : bool) (text : string) : string :=
  let escapedText := escapeText text in
  ((if isWayland then "ydotool type "
    else "xdotool type --clearmodifiers -- ")
   ++ String dquote (escapedText ++ String dquote ""))%string.

(** [s.split(sep)] for a separator that is one character. *)
Fixpoint split (sep : ascii) (s : string) : list string :=
  match s with
  | EmptyString => [EmptyString]
  | String c r =>
      if Ascii.eqb c sep then EmptyString :: split sep r
      else match split sep r with
           | h :: t => String c h :: t
           | [] => [String c EmptyString]
           end
  end.

(** [list.join(sep)] *)
Fixpoint join (sep : string) (l : list string) : string :=
  match l with
  | [] => EmptyString
  | [x] => x
  | x :: rest => (x ++ sep ++ join sep rest)%string
  end.

(** The key map of [getXdotoolKey]. *)
Definition xdotoolKeyMap : list (string * string) :=
  [("enter", "Return"); ("backspace", "BackSpace"); ("tab", "Tab");
   ("space", "space"); ("ctrl", "ctrl"); ("control", "ctrl");
   ("shift", "shift"); ("alt", "alt"); ("delete", "Delete");
   ("home", "Home"); ("end", "End"); ("pageup", "Page_Up");
   ("pagedown", "Page_Down"); ("escape", "Escape"); ("esc", "Escape");
   ("up", "Up"); ("down", "Down"); ("left", "Left"); ("right", "Right")].

(** What a template string prints for the two lower-case names every
    object literal inherits, [constructor] and [__proto__]. *)
Definition inherited (name : string) : option string :=
  if String.eqb name "constructor"
  then Some "function Object() { [native code] }"
  else if String.eqb name "__proto__" then Some "[object Object]"
  else None.

(** [getXdotoolKey(keyName)], as the command line shows it:
    [keyMap[keyName.toLowerCase()] || keyName]. *)
Definition getXdotoolKey (keyName : string) : string :=
  let name := JS.toLowerCase keyName in
  match CrewAIAgent.assoc name xdotoolKeyMap with
  | Some key => key
  | None =>
      match inherited name with
      | Some printed => printed
      | None => keyName
      end
  end.

(** [executeShortcutLinux(shortcut)] on X11: the command line. *)
Definition executeShortcutX11 (shortcut : string) : string :=
  let xdotoolShortcut :=
    join "+" (map (fun k => getXdotoolKey (JS.trim k))
                (split "+" shortcut)) in
  ("xdotool key " ++ xdotoolShortcut)%string.

(** [pressKeyLinux(keyName)] on X11: the command line. *)
Definition pressKeyX11 (keyName : string) : string :=
  ("xdotool key " ++ getXdotoolKey keyName)%string.

(** [executeCommand(command)] on Linux under X11. *)
Definition executeCommandX11 (command : string) : string :=
  if JS.includes command "+" then executeShortcutX11 command
  else pressKeyX11 command.

End TextInjector.

(* ================================================================== *)
(** ** The shell that runs the commands *)
(* ================================================================== *)

Module Sh.

(** How [/bin/sh] reads the inside of a double-quoted word (Shell
    Command Language, 2.2.3): a backslash quotes a following [$],
    backtick, double quote or backslash, and with a following newline is
    removed with it; before any other character it stands for itself.
    [None] when the text holds a character that ends the word or starts
    an expansion: a bare double quote, [$] or backtick, or a backslash
    that would quote the closing double quote. *)
Fixpoint unquote (s : string) : option string :=
  match s with
  | EmptyString => Some EmptyString
  | String c r =>
      if Ascii.eqb c TextInjector.backslash then
        match r with
        | EmptyString => None
        | String d r' =>
            if Ascii.eqb d TextInjector.dollar
               || Ascii.eqb d TextInjector.backtick
               || Ascii.eqb d TextInjector.dquote
               || Ascii.eqb d TextInjector.backslash
            then option_map (String d) (unquote r')
            else if Ascii.eqb d "010"%char then unquote r'
            else option_map (String c) (unquote r)
        end
      else if Ascii.eqb c TextInjector.dquote
              || Ascii.eqb c TextInjector.dollar
              || Ascii.eqb c TextInjector.backtick
      then None
      else option_map (String c) (unquote r)
  end.

End Sh.

(* ################################################################## *)
(** * Part II: properties *)
(* ################################################################## *)

(* ================================================================== *)
(** ** TriggerWordDetector: substrings and words *)
(* ================================================================== *)

Module TriggerWordDetectorFacts.

Import TriggerWordDetector.

(** *** Facts about the string primitives the detector relies on *)

Lemma prefix_app (p s : string) :
  prefix p s = true <-> exists r, s = (p ++ r)%string.
Proof.
  revert s; induction p as [|a p IH]; intros s; simpl.
  - split; [intros _; now exists s | intros _; now destruct s].
  - destruct s as [|b s]; simpl.
    + split; [discriminate | intros [r H]; discriminate].
    + destruct (Ascii.ascii_dec a b) as [->|Hab].
      * rewrite IH. split; intros [r H]; exists r; [now subst | now inversion H].
      * split; [discriminate | intros [r H]; inversion H; congruence].
Qed.

(** [includes] is substring containment. *)
Lemma includes_substring (s p : string) :
  JS.includes s p = true <-> exists a b, s = (a ++ p ++ b)%string.
Proof.
  induction s as [|c s IH]; cbn [JS.includes].
  - rewrite orb_false_r, prefix_app. split.
    + intros [r H]. now exists EmptyString, r.
    + intros [a [b H]]. destruct a; [now exists b | discriminate].
  - rewrite orb_true_iff, prefix_app, IH. split.
    + intros [[r H] | [a [b H]]].
      * now exists EmptyString, r.
      * exists (String c a), b. simpl. now rewrite H.
    + intros [a [b H]]. destruct a as [|c' a].
      * left. now exists b.
      * right. inversion H. now exists a, b.
Qed.

(** [\b] never holds between two word characters, so a word that starts
    with a word character is not found inside a longer word. *)
Lemma wordAt_inside_word (word text : string) :
  JS.headIsWord text = true -> wordAt true word text = false.
Proof.
  intros H. unfold wordAt, JS.wordBoundary. now rewrite H.
Qed.

(** The activate word is matched as a word, not as a substring. *)
Example detect_sanatorium :
  JS.includes "sanatorium" "sana" = true /\
  detect defaults "sanatorium" = None.
Proof. split; reflexivity. Qed.

End TriggerWordDetectorFacts.

(* ================================================================== *)
(** ** Node buffers: writing and reading fields *)
(* ================================================================== *)

Module BufferFacts.

Import Buffer.
Local Open Scope list_scope.


Lemma fill_at_length (buf : t) (off : nat) (data : list Byte.byte) :
  (off <= List.length buf)%nat ->
  List.length (fill_at buf off data) = List.length buf.
Proof.
  intros H. unfold fill_at.
  rewrite !length_app, length_firstn, length_firstn, length_skipn. lia.
Qed.

Lemma skipn_repeat (x : Byte.byte) (m k : nat) :
  skipn m (repeat x k) = repeat x (k - m).
Proof.
  revert m; induction k as [|k IH]; intros [|m]; simpl; auto.
Qed.

(** Writing the next field of a buffer filled front to back: [done] is
    what was written so far, [k] zero bytes of the allocation are left
    before [rest]. *)
Lemma fill_at_next (done rest data : t) (k off : nat) :
  off = List.length done ->
  (List.length data <=? k)%nat = true ->
  fill_at (done ++ repeat Byte.x00 k ++ rest) off data
    = (done ++ data) ++ repeat Byte.x00 (k - List.length data) ++ rest.
Proof.
  intros -> H. apply Nat.leb_le in H. unfold fill_at.
  rewrite firstn_app, Nat.sub_diag, firstn_all, firstn_O, app_nil_r.
  rewrite !length_app, repeat_length, firstn_all2 by lia.
  rewrite skipn_app, skipn_all2 by lia.
  replace (List.length done + List.length data - List.length done)%nat
    with (List.length data) by lia.
  rewrite skipn_app, skipn_repeat, repeat_length.
  replace (List.length data - k)%nat with 0%nat by lia.
  simpl. now rewrite <- app_assoc.
Qed.

Lemma fill_at_app_r (a b : t) (data : list Byte.byte) :
  List.length data = List.length b ->
  fill_at (a ++ b) (List.length a) data = a ++ data.
Proof.
  intros H. unfold fill_at.
  rewrite firstn_app, Nat.sub_diag, firstn_all, firstn_O, app_nil_r.
  rewrite length_app, firstn_all2 by lia.
  rewrite skipn_all2 by (rewrite length_app; lia).
  now rewrite app_nil_r.
Qed.

Lemma le_bytes_length (width : nat) (v : Z) :
  List.length (le_bytes width v) = width.
Proof. revert v; induction width; intros; simpl; auto. Qed.

Lemma toZ_byteOf (z : Z) : 0 <= z < 256 -> toZ (byteOf z) = z.
Proof.
  intros H. unfold toZ, byteOf.
  rewrite Z.mod_small by lia.
  destruct (Byte.of_N (Z.to_N z)) as [b|] eqn:E.
  - apply Byte.to_of_N in E. rewrite E. lia.
  - apply Byte.of_N_None_iff in E. lia.
Qed.

(** Reading back what [le_bytes] wrote. *)
Lemma le_value_le_bytes (width : nat) (v : Z) :
  0 <= v < 256 ^ Z.of_nat width -> le_value (le_bytes width v) = v.
Proof.
  revert v; induction width as [|k IH]; intros v H.
  - simpl in *. lia.
  - cbn [le_bytes le_value].
    rewrite Nat2Z.inj_succ, Z.pow_succ_r in H by lia.
    rewrite toZ_byteOf by (apply Z.mod_pos_bound; lia).
    rewrite IH.
    + symmetry. rewrite Z.add_comm. apply Z.div_mod. lia.
    + split; [apply Z.div_pos; lia | apply Z.div_lt_upper_bound; lia].
Qed.

Lemma le_value_le_bytes_32 (v : Z) :
  0 <= v < 4294967296 -> le_value (le_bytes 4 v) = v.
Proof. intros H. now apply le_value_le_bytes. Qed.

Lemma le_value_le_bytes_16 (v : Z) :
  0 <= v < 65536 -> le_value (le_bytes 2 v) = v.
Proof. intros H. now apply le_value_le_bytes. Qed.

Lemma write_next (done rest : t) (s : string) (k off : nat) :
  off = List.length done ->
  (List.length (list_byte_of_string s) <=? k)%nat = true ->
  write (done ++ repeat Byte.x00 k ++ rest) s off
    = Some ((done ++ list_byte_of_string s)
            ++ repeat Byte.x00 (k - List.length (list_byte_of_string s))
            ++ rest).
Proof.
  intros Hoff H. unfold write.
  replace (off <=? _)%nat with true
    by (symmetry; apply Nat.leb_le; rewrite length_app; lia).
  now rewrite fill_at_next.
Qed.

Lemma writeUIntLE_next (width : nat) (done rest : t) (v : Z) (k off : nat) :
  0 <= v < 256 ^ Z.of_nat width ->
  off = List.length done ->
  (width <=? k)%nat = true ->
  writeUIntLE width (done ++ repeat Byte.x00 k ++ rest) v off
    = Some ((done ++ le_bytes width v)
            ++ repeat Byte.x00 (k - width) ++ rest).
Proof.
  intros Hv Hoff H. unfold writeUIntLE.
  replace (0 <=? v) with true by (symmetry; apply Z.leb_le; lia).
  replace (v <? 256 ^ Z.of_nat width) with true
    by (symmetry; apply Z.ltb_lt; lia).
  replace (off + width <=? _)%nat with true.
  - simpl. rewrite fill_at_next; rewrite ?le_bytes_length; auto.
  - symmetry; apply Nat.leb_le. apply Nat.leb_le in H.
    rewrite !length_app, repeat_length. lia.
Qed.

Lemma writeUInt32LE_next (done rest : t) (v : Z) (k off : nat) :
  0 <= v < 4294967296 ->
  off = List.length done ->
  (4 <=? k)%nat = true ->
  writeUInt32LE (done ++ repeat Byte.x00 k ++ rest) v off
    = Some ((done ++ le_bytes 4 v) ++ repeat Byte.x00 (k - 4) ++ rest).
Proof. intros Hv Hoff H. now apply writeUIntLE_next. Qed.

Lemma writeUInt16LE_next (done rest : t) (v : Z) (k off : nat) :
  0 <= v < 65536 ->
  off = List.length done ->
  (2 <=? k)%nat = true ->
  writeUInt16LE (done ++ repeat Byte.x00 k ++ rest) v off
    = Some ((done ++ le_bytes 2 v) ++ repeat Byte.x00 (k - 2) ++ rest).
Proof. intros Hv Hoff H. now apply writeUIntLE_next. Qed.

Lemma readUIntLE_app_l (width : nat) (a b : t) (off : nat) :
  (off + width <= List.length a)%nat ->
  readUIntLE width (a ++ b) off
    = Some (le_value (firstn width (skipn off a))).
Proof.
  intros H. unfold readUIntLE.
  replace (off + width <=? List.length (a ++ b))%nat with true
    by (symmetry; apply Nat.leb_le; rewrite length_app; lia).
  rewrite skipn_app, firstn_app, length_skipn.
  replace (width - (List.length a - off))%nat with 0%nat by lia.
  now rewrite firstn_O, app_nil_r.
Qed.

End BufferFacts.

(* ================================================================== *)
(** ** The WAV container *)
(* ================================================================== *)

Module WavFacts.

Import Wav.
Local Open Scope list_scope.

Lemma headerBytes_length (n : Z) : List.length (headerBytes n) = 44%nat.
Proof. reflexivity. Qed.

(** Below 4 GiB of samples no write throws, and the result is the header
    followed by the samples. *)
Lemma createWavBuffer_layout (pcmData : Buffer.t) :
  Z.of_nat (List.length pcmData) + 36 < 2 ^ 32 ->
  createWavBuffer pcmData
    = Some (headerBytes (Z.of_nat (List.length pcmData)) ++ pcmData).
Proof.
  intros Hsize. change (2 ^ 32) with 4294967296 in Hsize.
  assert (Hn : 0 <= Z.of_nat (List.length pcmData)) by lia.
  unfold createWavBuffer, Buffer.alloc. cbv zeta.
  rewrite repeat_app. rewrite <- (app_nil_l (repeat _ 44 ++ _)).
  rewrite BufferFacts.write_next by reflexivity.
  rewrite BufferFacts.writeUInt32LE_next by first [lia | reflexivity].
  rewrite BufferFacts.write_next by reflexivity.
  rewrite BufferFacts.write_next by reflexivity.
  rewrite BufferFacts.writeUInt32LE_next by first [lia | reflexivity].
  rewrite BufferFacts.writeUInt16LE_next by first [lia | reflexivity].
  rewrite BufferFacts.writeUInt16LE_next by first [lia | reflexivity].
  rewrite BufferFacts.writeUInt32LE_next by first [lia | reflexivity].
  rewrite BufferFacts.writeUInt32LE_next by first [simpl; lia | reflexivity].
  rewrite BufferFacts.writeUInt16LE_next by first [simpl; lia | reflexivity].
  rewrite BufferFacts.writeUInt16LE_next by first [lia | reflexivity].
  rewrite BufferFacts.write_next by reflexivity.
  rewrite BufferFacts.writeUInt32LE_next by first [lia | reflexivity].
  f_equal. unfold Buffer.copy.
  match goal with
  | |- context [repeat Byte.x00 ?k ++ repeat Byte.x00 ?n] =>
      change (repeat Byte.x00 k ++ repeat Byte.x00 n)
        with (repeat Byte.x00 n)
  end.
  match goal with
  | |- context [Buffer.fill_at (?h ++ _) ?off _] =>
      replace h with (headerBytes (Z.of_nat (List.length pcmData)))
        by (unfold headerBytes; rewrite <- !app_assoc; reflexivity);
      change off with
        (List.length (headerBytes (Z.of_nat (List.length pcmData))))
  end.
  rewrite length_app, repeat_length.
  replace (_ <=? _)%nat with true
    by (symmetry; apply Nat.leb_le; lia).
  apply BufferFacts.fill_at_app_r. now rewrite repeat_length.
Qed.

Ltac read_field v :=
  match goal with
  | |- context [Buffer.le_value ?bs] =>
      change bs with v;
      first [rewrite BufferFacts.le_value_le_bytes_32 by lia
            |rewrite BufferFacts.le_value_le_bytes_16 by lia]
  end.

(** C10. For a PCM buffer whose RIFF size field fits 32 bits,
    [createWavBuffer] returns a buffer of 44 more bytes than its input:
    a RIFF/WAVE header that declares PCM (format 1), one channel,
    16000 Hz, 16 bits per sample and a data chunk of the input's length,
    followed by the input bytes unchanged. *)
Theorem createWavBuffer_spec (pcmData : Buffer.t) :
  Z.of_nat (List.length pcmData) + 36 < 2 ^ 32 ->
  exists wav,
    createWavBuffer pcmData = Some wav /\
    List.length wav = (List.length pcmData + 44)%nat /\
    readHeader wav = Some
      {| chunkId := list_byte_of_string "RIFF";
         chunkSize := 36 + Z.of_nat (List.length pcmData);
         waveId := list_byte_of_string "WAVE";
         fmtId := list_byte_of_string "fmt ";
         fmtSize := 16;
         audioFormat := 1;
         channels := 1;
         sampleRateHz := 16000;
         bytesPerSecond := 32000;
         frameBytes := 2;
         sampleBits := 16;
         dataId := list_byte_of_string "data";
         dataBytes := Z.of_nat (List.length pcmData) |} /\
    skipn 44 wav = pcmData.
Proof.
  intros Hsize.
  exists (headerBytes (Z.of_nat (List.length pcmData)) ++ pcmData).
  split; [now apply createWavBuffer_layout|].
  change (2 ^ 32) with 4294967296 in Hsize.
  split; [rewrite length_app, headerBytes_length; lia|].
  assert (Hn : 0 <= Z.of_nat (List.length pcmData)) by lia.
  revert Hsize Hn. generalize (Z.of_nat (List.length pcmData)) as n.
  intros n Hsize Hn.
  split; [|reflexivity].
  unfold readHeader, Buffer.readUInt32LE, Buffer.readUInt16LE.
  rewrite !BufferFacts.readUIntLE_app_l by (rewrite headerBytes_length; lia).
  read_field (Buffer.le_bytes 4 (36 + n)).
  read_field (Buffer.le_bytes 4 16).
  read_field (Buffer.le_bytes 2 1).
  read_field (Buffer.le_bytes 2 1).
  read_field (Buffer.le_bytes 4 16000).
  read_field (Buffer.le_bytes 4 32000).
  read_field (Buffer.le_bytes 2 2).
  read_field (Buffer.le_bytes 2 16).
  read_field (Buffer.le_bytes 4 n).
  reflexivity.
Qed.

(** The theorem at a buffer of one 16-bit sample. *)
Lemma createWavBuffer_spec_two_bytes :
  Z.of_nat (List.length [Byte.x01; Byte.xff]) + 36 < 2 ^ 32 /\
  exists wav,
    createWavBuffer [Byte.x01; Byte.xff] = Some wav /\
    List.length wav = 46%nat /\
    skipn 44 wav = [Byte.x01; Byte.xff].
Proof.
  split; [reflexivity|].
  destruct (createWavBuffer_spec [Byte.x01; Byte.xff] eq_refl)
    as (wav & Hwav & Hlen & _ & Hdata).
  exists wav. auto.
Defined.

End WavFacts.

(* ================================================================== *)
(** ** GroqSTTClient: flushes, failures, stopping *)
(* ================================================================== *)

Module GroqSTTClientFacts.

Import GroqSTTClient.
Local Open Scope list_scope.

(** *** Traces *)

Lemma blobs_app (e1 e2 : list Effect) :
  blobs (e1 ++ e2) = blobs e1 ++ blobs e2.
Proof.
  induction e1 as [|x e1 IH]; simpl; [reflexivity|].
  destruct x; simpl; now rewrite IH.
Qed.

Lemma emitted_app (e1 e2 : list Effect) :
  emitted (e1 ++ e2) = emitted e1 ++ emitted e2.
Proof.
  induction e1 as [|x e1 IH]; simpl; [reflexivity|].
  destruct x; simpl; now rewrite IH.
Qed.

Lemma run_app (a1 a2 : list Action) (s : State) :
  run (a1 ++ a2) s =
    let '(s1, e1) := run a1 s in
    let '(s2, e2) := run a2 s1 in (s2, e1 ++ e2).
Proof.
  revert s; induction a1 as [|a a1 IH]; intros s; simpl.
  - now destruct (run a2 s).
  - destruct (step a s) as [s1 e1]. rewrite IH.
    destruct (run a1 s1) as [s2 e2]. destruct (run a2 s2) as [s3 e3].
    now rewrite app_assoc.
Qed.

Lemma deliver_no_blob (f : Z) (a : Answer) : blobs (deliver f a) = [].
Proof.
  destruct a as [[j|]|m]; simpl; try reflexivity.
  destruct (nonBlank (text j)); simpl; [|reflexivity].
  destruct (truthy (language j)); [|reflexivity].
  now destruct (language j).
Qed.

(** *** The flush *)

(** Where [processBuffer] starts a request, the blob is the
    concatenation of the buffered chunks in arrival order, and the state
    it suspends in already has the emptied buffer and the new window
    start: both assignments come before the request in the trace. *)
Lemma processBuffer_begins (now : Z) (s : State) :
  audioBuffer s <> [] -> isProcessing s = false ->
  let '(s1, e1) := processBuffer now s in
  blobs e1 = [Buffer.concat (audioBuffer s)] /\
  audioBuffer s1 = [] /\
  bufferStartTime s1 = Some now /\
  isConnected s1 = isConnected s /\
  (isProcessing s1 = true ->
     exists wav,
       e1 = [Concat (Buffer.concat (audioBuffer s));
             WriteFileSync now wav; CreateTranscription now]
       /\ awaitingAnswer s1 = Some now).
Proof.
  intros Hbuf Hproc. unfold processBuffer.
  destruct (audioBuffer s) as [|c cs] eqn:E; [contradiction|].
  rewrite Hproc. simpl.
  destruct (Wav.createWavBuffer _) as [wav|]; simpl.
  - repeat split; auto. intros _. now exists wav.
  - repeat split; auto. discriminate.
Qed.

(** While a request is in flight [sendAudio] only buffers. *)
Lemma sendAudio_in_flight (d : Buffer.t) (now : Z) (s : State) :
  isConnected s = true -> isProcessing s = true ->
  sendAudio d now s =
    if isNil d then (s, [], false)
    else (with_buffer s (audioBuffer s ++ [d]) (bufferStartTime s), [], true).
Proof.
  intros Hc Hp. unfold sendAudio. rewrite Hc. simpl.
  destruct (isNil d); [reflexivity|].
  simpl. rewrite Hp, andb_false_r. reflexivity.
Qed.

Lemma run_sends_in_flight (cs : list (Buffer.t * Z)) (s : State) :
  isConnected s = true -> isProcessing s = true ->
  run (sends cs) s =
    (with_buffer s (audioBuffer s ++ accepted cs) (bufferStartTime s), []).
Proof.
  revert s; induction cs as [|[d now] cs IH]; intros s Hc Hp.
  - simpl. rewrite app_nil_r. now destruct s.
  - cbn [sends map run step fst snd].
    rewrite sendAudio_in_flight by assumption.
    unfold accepted. cbn [map fst filter].
    destruct (isNil d) eqn:Ed; cbn [negb].
    + fold (sends cs). fold (accepted cs). rewrite IH by assumption.
      reflexivity.
    + fold (sends cs). fold (accepted cs). rewrite IH by assumption.
      cbn. now rewrite <- app_assoc.
Qed.

Lemma accepted_app (c1 c2 : list (Buffer.t * Z)) :
  accepted (c1 ++ c2) = accepted c1 ++ accepted c2.
Proof. unfold accepted. now rewrite map_app, filter_app. Qed.

(** Outside a flush, a series of [sendAudio] calls either leaves every
    accepted chunk in the buffer, or starts a flush whose blob is the
    buffer followed by the chunks accepted up to that call. *)
Lemma run_sends_idle (cs : list (Buffer.t * Z)) (s : State) :
  isConnected s = true -> isProcessing s = false ->
  let '(s1, e1) := run (sends cs) s in
  (blobs e1 = [] /\ audioBuffer s1 = audioBuffer s ++ accepted cs
   /\ isConnected s1 = true /\ isProcessing s1 = false)
  \/ (exists k rest,
        blobs e1 =
          Buffer.concat (audioBuffer s ++ accepted (firstn k cs)) :: rest).
Proof.
  revert s; induction cs as [|[d now] cs IH]; intros s Hc Hp.
  - simpl. left. rewrite app_nil_r. auto.
  - cbn [sends map run step fst snd]. fold (sends cs).
    unfold sendAudio. rewrite Hc. cbn [negb].
    destruct (isNil d) eqn:Ed.
    + specialize (IH s Hc Hp). destruct (run (sends cs) s) as [s1 e1].
      assert (Hacc : forall l, accepted ((d, now) :: l) = accepted l)
        by (intros l; unfold accepted; cbn [map fst filter];
            now rewrite Ed).
      destruct IH as [IH | (k & rest & IH)].
      * left. now rewrite Hacc.
      * right. exists (S k), rest. cbn [firstn]. now rewrite Hacc.
    + assert (Hacc : forall l, accepted ((d, now) :: l) = d :: accepted l)
        by (intros l; unfold accepted; cbn [map fst filter];
            now rewrite Ed).
      set (s1 := with_buffer s (audioBuffer s ++ [d]) (bufferStartTime s)).
      cbn zeta.
      destruct ((bufferDuration s1 <=? _) && negb (isProcessing s1)) eqn:Et.
      * pose proof (processBuffer_begins now s1) as Hb.
        destruct (processBuffer now s1) as [s2 e2].
        destruct Hb as (Hblob & _); [subst s1; simpl; now destruct (audioBuffer s) | exact Hp |].
        destruct (run (sends cs) s2) as [s3 e3].
        right. exists 1%nat, (blobs e3).
        rewrite blobs_app, Hblob. cbn [firstn]. rewrite Hacc.
        reflexivity.
      * specialize (IH s1 Hc Hp).
        destruct (run (sends cs) s1) as [s3 e3]. simpl.
        destruct IH as [(H1 & H2 & H3) | (k & rest & IH)].
        -- left. rewrite Hacc. split; [assumption|].
           subst s1. simpl in H2. now rewrite <- app_assoc in H2.
        -- right. exists (S k), rest. cbn [firstn]. rewrite Hacc.
           subst s1. simpl in IH. now rewrite <- app_assoc in IH.
Qed.

(** No audio is lost across a flush while the session stays open: the
    chunks [sendAudio] accepts between the start of a request and its
    settlement are no part of a blob before the settlement, wait in the
    buffer after it, and lead the blob of the next flush, whether a later
    [sendAudio] or [stopSession] starts it. *)
Theorem sendAudio_during_flush_is_kept
  (s : State) (during after : list (Buffer.t * Z)) (a : Answer) (now : Z) :
  isConnected s = true -> isProcessing s = true ->
  awaitingAnswer s <> None -> stopAwaitingFlush s = false ->
  audioBuffer s = [] ->
  let '(s1, e1) := run (sends during ++ [Settle a]) s in
  blobs e1 = [] /\
  audioBuffer s1 = accepted during /\
  let '(s2, e2) := run (sends after) s1 in
  (blobs e2 = []
   /\ audioBuffer s2 = accepted during ++ accepted after
   /\ (audioBuffer s2 <> [] ->
       blobs (snd (stopSession now s2))
         = [Buffer.concat (accepted during ++ accepted after)]))
  \/ (exists k rest,
        blobs e2 =
          Buffer.concat (accepted during ++ accepted (firstn k after))
            :: rest).
Proof.
  intros Hc Hp Hw Hs Hb.
  rewrite run_app, run_sends_in_flight by assumption.
  rewrite Hb. cbn [app run step].
  unfold transcriptionSettled. cbn [awaitingAnswer with_buffer stopAwaitingFlush].
  destruct (awaitingAnswer s) as [f|] eqn:Ef; [|contradiction].
  rewrite Hs. cbn [app].
  set (s1 := with_processing _ false None).
  rewrite app_nil_r.
  split; [apply deliver_no_blob|]. split; [reflexivity|].
  pose proof (run_sends_idle after s1 Hc eq_refl) as H.
  destruct (run (sends after) s1) as [s2 e2].
  destruct H as [(H1 & H2 & H3 & H4) | H]; [left | right; exact H].
  change (audioBuffer s1) with (accepted during) in H2.
  repeat split; try assumption.
  intros Hne. unfold stopSession. rewrite H3. cbn [negb].
  destruct (audioBuffer s2) as [|c cs] eqn:E; [contradiction|].
  cbn [isNil negb].
  pose proof (processBuffer_begins now s2) as Hpb.
  destruct (processBuffer now s2) as [s3 e3].
  destruct Hpb as (Hblob & _); [rewrite E; discriminate | assumption |].
  rewrite E in Hblob. rewrite <- H2.
  destruct (negb (isProcessing s2) && isProcessing s3); cbn [snd].
  - rewrite blobs_app. exact Hblob.
  - cbn. rewrite blobs_app, Hblob. reflexivity.
Qed.

(** C1, at the run that breaks it. A chunk accepted while a request is
    in flight is lost when [stopSession] is called before the request
    settles: [stopSession] sees the non-empty buffer and calls
    [processBuffer], which returns at once because [isProcessing] is
    set, and the buffer is then cleared. The chunk is in no blob, neither
    the one in flight nor the next one the client flushes. *)
Theorem stopSession_in_flight_drops_audio :
  let c1 := [Byte.x01; Byte.x02] in
  let c2 := [Byte.x03; Byte.x04] in
  let c3 := [Byte.x05; Byte.x06] in
  let c4 := [Byte.x07; Byte.x08] in
  let answer := Resolved (Some {| text := Some "hello"; language := None |}) in
  let s0 := create "key" 3000 in
  let flushing := fst (run [StartSession 0; SendAudio c1 3000] s0) in
  let stopped :=
    run [StartSession 0; SendAudio c1 3000; SendAudio c2 3100;
         StopSession 3200] s0 in
  let restarted :=
    run [StartSession 0; SendAudio c1 3000; SendAudio c2 3100;
         StopSession 3200; StartSession 3300; SendAudio c3 3400;
         Settle answer; SendAudio c4 6500] s0 in
  isProcessing flushing = true /\
  snd (sendAudio c2 3100 flushing) = true /\
  blobs (snd stopped) = [c1] /\
  audioBuffer (fst stopped) = [] /\
  blobs (snd restarted) = [c1; c3 ++ c4].
Proof. vm_compute. repeat split; reflexivity. Qed.

(** *** A rejected transcription request *)

(** What the client does when the request of a flush is rejected: one
    console line and the removal of the temporary file. The blob is not
    put back and no request is started, the session stays connected and
    idle, and the chunks buffered meanwhile are untouched. *)
Lemma rejected_flush_is_dropped (s : State) (f : Z) (message : string) :
  awaitingAnswer s = Some f -> stopAwaitingFlush s = false ->
  let '(s1, e1) := transcriptionSettled (Rejected message) s in
  e1 = [Console Error "Transcription error"; UnlinkSync f] /\
  emitted e1 = [] /\
  audioBuffer s1 = audioBuffer s /\
  isConnected s1 = isConnected s /\
  isProcessing s1 = false /\
  awaitingAnswer s1 = None.
Proof.
  intros Hf Hs. unfold transcriptionSettled. rewrite Hf, Hs. simpl.
  repeat split; reflexivity.
Qed.

(** C7, at a rejected request. The failure is reported on the console
    only: no [error] event reaches the listeners. The rest of the
    statement holds: the window's audio is gone and not retried, the
    session stays connected and takes the next chunk. *)
Theorem rejected_flush_emits_no_error :
  let s0 := create "key" 3000 in
  let flushing :=
    fst (run [StartSession 0; SendAudio [Byte.x01; Byte.x02] 3000] s0) in
  let settled := transcriptionSettled (Rejected "503") flushing in
  awaitingAnswer flushing = Some 3000 /\
  snd settled = [Console Error "Transcription error"; UnlinkSync 3000] /\
  filter isErrorEvent (emitted (snd settled)) = [] /\
  audioBuffer (fst settled) = [] /\
  isConnected (fst settled) = true /\
  snd (sendAudio [Byte.x03] 3100 (fst settled)) = true.
Proof. vm_compute. repeat split; reflexivity. Qed.

(** *** Stopping *)

Lemma deliver_no_close (f : Z) (a : Answer) :
  filter isClose (emitted (deliver f a)) = [].
Proof.
  destruct a as [[j|]|m]; simpl; try reflexivity.
  destruct (nonBlank (text j)); simpl; [|reflexivity].
  destruct (truthy (language j)); [|reflexivity].
  now destruct (language j).
Qed.

(** C8. On a connected session with no other stop pending, two
    [stopSession] calls made one after the other, each awaited, emit one
    [close] between them and flush at most once; the second call finds
    the session stopped, changes nothing and only writes a console
    line. *)
Theorem stopSession_twice_in_a_row
  (s : State) (now1 now2 : Z) (a1 a2 : Answer) :
  isConnected s = true -> stopAwaitingFlush s = false ->
  let '(s1, e1) := stopSession_awaited now1 a1 s in
  let '(s2, e2) := stopSession_awaited now2 a2 s1 in
  List.length (filter isClose (emitted (e1 ++ e2))) = 1%nat /\
  (List.length (blobs (e1 ++ e2)) <= 1)%nat /\
  (List.length (filter isRequest (e1 ++ e2)) <= 1)%nat /\
  isConnected s1 = false /\
  s2 = s1 /\
  e2 = [Console Log "Session already stopped"].
Proof.
  intros Hc Hs.
  assert (Hsecond : forall s1 : State, isConnected s1 = false ->
            stopSession_awaited now2 a2 s1
              = (s1, [Console Log "Session already stopped"])).
  { intros s1 H1. unfold stopSession_awaited, stopSession. rewrite H1.
    cbn [negb]. now destruct (stopAwaitingFlush s1). }
  unfold stopSession_awaited at 1. unfold stopSession. rewrite Hc.
  cbn [negb]. rewrite Hs. cbn [negb andb].
  destruct (audioBuffer s) as [|c cs] eqn:Eb; cbn [isNil negb].
  - (* nothing buffered: no flush *)
    cbn -[stopSession_awaited]. rewrite Hs.
    rewrite Hsecond by reflexivity.
    repeat split; auto.
  - unfold processBuffer. rewrite Eb. cbn [isNil orb].
    destruct (isProcessing s) eqn:Ep; cbn [negb andb].
    + (* a request is in flight: processBuffer returns at once *)
      cbn -[stopSession_awaited]. rewrite Hs.
      rewrite Hsecond by reflexivity.
      repeat split; auto.
    + destruct (Wav.createWavBuffer _) as [wav|];
        cbn -[stopSession_awaited deliver].
      * (* the final flush; the call resumes when it settles *)
        rewrite Hsecond by reflexivity.
        assert (Hd : filter isRequest (deliver now1 a1) = []).
        { destruct a1 as [[j|]|m]; simpl; try reflexivity.
          destruct (nonBlank (text j)); simpl; [|reflexivity].
          destruct (truthy (language j)); [|reflexivity].
          now destruct (language j). }
        rewrite !emitted_app, !blobs_app, !filter_app, !length_app.
        rewrite deliver_no_close, deliver_no_blob, Hd.
        cbn. repeat split; auto.
      * rewrite Hs. rewrite Hsecond by reflexivity.
        repeat split; auto.
Qed.

(** The theorem at a session holding one buffered chunk: the first call
    flushes it, and the request is rejected. *)
Lemma stopSession_twice_in_a_row_buffered :
  let s := fst (run [StartSession 0; SendAudio [Byte.x01; Byte.x02] 100]
                  (create "key" 3000)) in
  isConnected s = true /\ stopAwaitingFlush s = false /\
  let '(s1, e1) := stopSession_awaited 200 (Rejected "503") s in
  let '(s2, e2) := stopSession_awaited 300 (Rejected "503") s1 in
  List.length (filter isClose (emitted (e1 ++ e2))) = 1%nat /\
  (List.length (blobs (e1 ++ e2)) <= 1)%nat /\
  (List.length (filter isRequest (e1 ++ e2)) <= 1)%nat /\
  isConnected s1 = false /\
  s2 = s1 /\
  e2 = [Console Log "Session already stopped"].
Proof.
  split; [reflexivity|]. split; [reflexivity|].
  exact (stopSession_twice_in_a_row
    (fst (run [StartSession 0; SendAudio [Byte.x01; Byte.x02] 100]
            (create "key" 3000)))
    200 300 (Rejected "503") (Rejected "503") eq_refl eq_refl).
Defined.

(** A second call made before the first one has resumed is outside the
    theorem: the first call is suspended on its final flush, the session
    still counts as connected, and each call emits its own [close]. *)
Remark stopSession_reentered :
  let tr := snd (run [StartSession 0; SendAudio [Byte.x01; Byte.x02] 100;
                      StopSession 200; StopSession 300;
                      Settle (Rejected "503")] (create "key" 3000)) in
  filter isClose (emitted tr) = [Close; Close] /\
  blobs tr = [[Byte.x01; Byte.x02]].
Proof. vm_compute. split; reflexivity. Qed.

End GroqSTTClientFacts.

(* ================================================================== *)
(** ** ElevenLabsSTTClient: a rejected request *)
(* ================================================================== *)

Module ElevenLabsSTTClientFacts.

Import GroqSTTClient.
Import ElevenLabsSTTClient.
Local Open Scope list_scope.

(** The sibling backend emits the [error] event the design asks for,
    and likewise keeps the session connected. *)
Lemma rejected_flush_emits_error (s : State) (message : string) :
  let '(s1, e1) := transcriptionSettled (Rejected message) s in
  filter isErrorEvent (emitted e1) = [ErrorEvent message] /\
  isConnected s1 = isConnected s /\
  audioBuffer s1 = audioBuffer s.
Proof. simpl. repeat split; reflexivity. Qed.

End ElevenLabsSTTClientFacts.

(* ================================================================== *)
(** ** CrewAIAgent: totality and the fallback *)
(* ================================================================== *)

Module CrewAIAgentFacts.

Import CrewAIAgent.
Local Open Scope list_scope.

(** *** Totality and the fallback *)

Section Fallback.

Variable JSON_parse : string -> option Json.
Variable usageRecorded : bool.
Variable agent : Agent.
Variable transcribedText : string.
Variable answer : Completion.

Let original : IntentResult :=
  {| text := transcribedText; commands := [] |}.

Lemma analyze_returns :
  exists r,
    analyze JSON_parse usageRecorded agent transcribedText answer = Return r.
Proof.
  unfold analyze.
  destruct (negb (enabled agent) || negb (groqClient agent)); [eauto|].
  destruct (JS.isEmpty transcribedText || _); [eauto|].
  destruct (analyze_try _ _ _ _); eauto.
Qed.

Lemma analyze_try_failure :
  backendOrParseFailure JSON_parse answer = true ->
  exists m,
    analyze_try JSON_parse usageRecorded transcribedText answer = Throw m.
Proof.
  unfold backendOrParseFailure, analyze_try.
  destruct answer as [m | content usage]; simpl; [eauto|].
  destruct usage as [u|]; simpl.
  - destruct usageRecorded; simpl; [|eauto].
    destruct (extractJsonObject _) as [j|m]; simpl; [|eauto].
    destruct (JSON_parse j); simpl; [discriminate | eauto].
  - destruct (extractJsonObject _) as [j|m]; simpl; [|eauto].
    destruct (JSON_parse j); simpl; [discriminate | eauto].
Qed.

(** C3. [analyze] returns for every transcript and every behaviour of
    its collaborators, it never throws; and when the agent is in use on
    a non-blank transcript and the request is rejected or its answer
    does not parse, what it returns is the original transcript with an
    empty command list. *)
Theorem analyze_never_blocks_typing :
  (exists r,
     analyze JSON_parse usageRecorded agent transcribedText answer
       = Return r) /\
  (isEnabled agent = true ->
   JS.isEmpty (JS.trim transcribedText) = false ->
   backendOrParseFailure JSON_parse answer = true ->
   analyze JSON_parse usageRecorded agent transcribedText answer
     = Return original).
Proof.
  split; [apply analyze_returns|].
  intros He Hb Hf. unfold analyze, isEnabled in *.
  apply andb_true_iff in He. destruct He as [-> ->]. cbn [negb orb].
  rewrite Hb, orb_false_r.
  destruct transcribedText as [|c t] eqn:E; [discriminate Hb|].
  cbn [JS.isEmpty]. rewrite <- E.
  destruct (analyze_try_failure Hf) as [m ->]. subst original.
  now rewrite E.
Qed.

End Fallback.

(** The theorem on an answer that holds no JSON object. *)
Lemma analyze_never_blocks_typing_prose_answer :
  let agent := {| enabled := true; groqClient := true |} in
  let answer := Answered (Some "Sorry, I cannot help with that.") None in
  let parse := fun _ : string => @None Json in
  isEnabled agent = true /\
  JS.isEmpty (JS.trim "hello world send it") = false /\
  backendOrParseFailure parse answer = true /\
  analyze parse true agent "hello world send it" answer
    = Return {| text := "hello world send it"; commands := [] |}.
Proof.
  split; [reflexivity|]. split; [reflexivity|]. split; [reflexivity|].
  exact (proj2 (analyze_never_blocks_typing (fun _ => None) true
                  {| enabled := true; groqClient := true |}
                  "hello world send it"
                  (Answered (Some "Sorry, I cannot help with that.") None))
               eq_refl eq_refl eq_refl).
Defined.

(** A rejected request. *)
Example analyze_rejected :
  analyze (fun _ => None) true {| enabled := true; groqClient := true |}
    "note this down" (Rejected "429")
  = Return {| text := "note this down"; commands := [] |}.
Proof. reflexivity. Qed.

End CrewAIAgentFacts.

(* ================================================================== *)
(** ** SpeechRecognitionController: state machine, grammar, accumulator *)
(* ================================================================== *)

Module SpeechRecognitionControllerFacts.

Import SpeechRecognitionController.
Local Open Scope list_scope.

(** *** The no-op edges of the state machine *)

(** C9. [stop()] in state [idle] returns with the controller unchanged
    and a trace of two console lines, the second one the warning; no
    event is emitted and no collaborator is called. [start()] in state
    [listening] does the same: the controller is unchanged, nothing is
    emitted, no precondition is checked and neither the session nor the
    microphone is started again. *)
Theorem stop_idle_start_listening_are_noops
  (w : Services) (c1 c2 : Controller) :
  state c1 = idle -> state c2 = listening ->
  (stop c1 =
     (c1, [Console Log "Stop requested";
           Console Warn "Not currently listening, ignoring stop request"],
      Done tt)
   /\ emitted (snd (fst (stop c1))) = [])
  /\
  (start w c2 =
     (c2, [Console Log "Start requested";
           Console Warn "Already listening, ignoring start request"],
      Done tt)
   /\ emitted (snd (fst (start w c2))) = []
   /\ checks (snd (fst (start w c2))) = []
   /\ startsNothing (snd (fst (start w c2))) = true).
Proof.
  intros H1 H2.
  assert (Hstop : stop c1 =
     (c1, [Console Log "Stop requested";
           Console Warn "Not currently listening, ignoring stop request"],
      Done tt)).
  { unfold stop, stopBegin, bind, get, console, tell. rewrite H1.
    reflexivity. }
  assert (Hstart : start w c2 =
     (c2, [Console Log "Start requested";
           Console Warn "Already listening, ignoring start request"],
      Done tt)).
  { unfold start, bind, get, console, tell. rewrite H2. reflexivity. }
  rewrite Hstop, Hstart. repeat split; reflexivity.
Qed.

(** The theorem at a controller that was never started and at one that
    is listening. *)
Lemma stop_idle_start_listening_are_noops_example :
  let c2 := with_buffers (with_state fresh listening) "" "Hello" in
  state fresh = idle /\ state c2 = listening /\
  emitted (snd (fst (stop fresh))) = [] /\
  fst (fst (stop fresh)) = fresh /\
  fst (fst (start granting c2)) = c2 /\
  startsNothing (snd (fst (start granting c2))) = true.
Proof.
  intros c2.
  destruct (stop_idle_start_listening_are_noops granting fresh c2
              eq_refl eq_refl)
    as [[Hstop He] [Hstart [_ [_ Hs]]]].
  split; [reflexivity|]. split; [reflexivity|].
  split; [exact He|]. split; [now rewrite Hstop|].
  split; [now rewrite Hstart | exact Hs].
Defined.

(** *** The preconditions of [start] *)

(** C6. Outside state [listening], [start()] checks authentication, then
    the STT entitlement, then the usage quota. The first check that
    fails ends the call: the later checks are not made, exactly one
    signal is emitted ([authenticationRequired], [activationRequired] or
    [tokenLimitExceeded], in that order of precedence), the call throws,
    and neither the transcription session nor the microphone is started
    anywhere in the trace. When all three pass they were made in that
    order and no signal is emitted. *)
Theorem start_checks_preconditions_in_order (w : Services) (c : Controller) :
  state c <> listening ->
  let tr := snd (fst (start w c)) in
  let outcome := snd (start w c) in
  (isUserAuthenticated w = false ->
     checks tr = [IsUserAuthenticated] /\
     signals tr = [authenticationRequired] /\
     startsNothing tr = true /\
     outcome = Raised
       "User not authenticated. Please login to use speech recognition.")
  /\
  (isUserAuthenticated w = true -> checkPermission w "stt" = false ->
     checks tr = [IsUserAuthenticated; CheckPermission "stt"] /\
     signals tr = [activationRequired "stt"] /\
     startsNothing tr = true /\
     outcome = Raised
       "STT feature not activated. Please activate STT in the dashboard.")
  /\
  (isUserAuthenticated w = true -> checkPermission w "stt" = true ->
   allowed (trackDeepgramUsage w) = false ->
     checks tr = [IsUserAuthenticated; CheckPermission "stt";
                  TrackDeepgramUsage] /\
     signals tr = [tokenLimitExceeded (trackDeepgramUsage w)] /\
     startsNothing tr = true /\
     outcome = Raised ("Token limit exceeded: "
                       ++ reason (trackDeepgramUsage w))%string)
  /\
  (isUserAuthenticated w = true -> checkPermission w "stt" = true ->
   allowed (trackDeepgramUsage w) = true ->
     checks tr = [IsUserAuthenticated; CheckPermission "stt";
                  TrackDeepgramUsage] /\
     signals tr = [] /\
     startsNothing tr = false).
Proof.
  intros Hs tr outcome. subst tr outcome.
  destruct c as [st bg li fb vc te ag tw]. simpl in Hs.
  unfold start, bind, get, console, emit, tell.
  cbn [state].
  destruct st; try contradiction; cbn [Phase_eqb];
    (split; [|split; [|split]]).
  all: try (intros ->; vm_compute; repeat split; reflexivity).
  all: try (intros -> ->; vm_compute; repeat split; reflexivity).
  all: try (intros -> -> ->; vm_compute; repeat split; reflexivity).
  all: intros -> -> ->;
    destruct bg, (startSession w) as [m1|], (microphoneStart w) as [m2|];
    unfold onMicrophoneError;
    try destruct (JS.includes m2 "device not found");
    vm_compute; repeat split; reflexivity.
Qed.

(** The theorem at a user who is not logged in, with entitlement and
    quota in order: only the first check is made. *)
Lemma start_checks_preconditions_logged_out :
  state fresh <> listening /\
  isUserAuthenticated loggedOut = false /\
  checks (snd (fst (start loggedOut fresh))) = [IsUserAuthenticated] /\
  signals (snd (fst (start loggedOut fresh))) = [authenticationRequired] /\
  startsNothing (snd (fst (start loggedOut fresh))) = true.
Proof.
  assert (Hs : state fresh <> listening) by discriminate.
  destruct (start_checks_preconditions_in_order loggedOut fresh Hs)
    as [H _].
  destruct (H eq_refl) as (H1 & H2 & H3 & _).
  repeat split; assumption.
Defined.

(** *** The text accumulator *)

Lemma bind_Done {A B} (m : M A) (k : A -> M B) (c c1 c2 : Controller)
  (e1 e2 : list Effect) (a : A) (r : Completion B) :
  m c = (c1, e1, Done a) -> k a c1 = (c2, e2, r) ->
  bind m k c = (c2, e1 ++ e2, r).
Proof. intros H1 H2. unfold bind. now rewrite H1, H2. Qed.

Lemma typeFragment_run (fragment : string) (c : Controller) :
  typeFragment fragment c =
    (with_buffers c (lastInterimText c)
       (finalTextBuffer c ++ separator (finalTextBuffer c) ++ fragment)%string,
     [TypeText (separator (finalTextBuffer c) ++ fragment)%string],
     Done tt).
Proof.
  unfold typeFragment, bind, get, tell, modify, separator.
  destruct (JS.isEmpty (finalTextBuffer c)); reflexivity.
Qed.

Lemma typedTexts_app (e1 e2 : list Effect) :
  typedTexts (e1 ++ e2) = typedTexts e1 ++ typedTexts e2.
Proof.
  induction e1 as [|x e1 IH]; simpl; [reflexivity|].
  destruct x; simpl; now rewrite IH.
Qed.

Lemma executedCommands_app (e1 e2 : list Effect) :
  executedCommands (e1 ++ e2) = executedCommands e1 ++ executedCommands e2.
Proof.
  induction e1 as [|x e1 IH]; simpl; [reflexivity|].
  destruct x; simpl; now rewrite IH.
Qed.

Lemma runCommand_run (token originalText : string) (c : Controller) :
  exists c' tr,
    runCommand token originalText c = (c', tr, Done tt) /\
    typedTexts tr = [] /\ executedCommands tr = [token] /\
    finalTextBuffer c' =
      (if String.eqb token "enter" then "" else finalTextBuffer c).
Proof.
  unfold runCommand, resetFinalTextBuffer, bind, tell, emit, modify, ret.
  destruct (String.eqb token "enter"); cbn; eauto 10.
Qed.

Lemma tryCommandWords_run (w : Services) (transcript : string)
  (words : list string) (c : Controller) :
  let normalizedText := JS.trim (JS.toLowerCase transcript) in
  tryCommandWords w transcript normalizedText words c = (c, [], Done false)
  \/ exists commandWord,
       In commandWord words /\
       endsWithCommand normalizedText commandWord = true /\
       CommandParser.type (parse w commandWord) = CommandParser.command /\
       commandPass c (textBefore transcript commandWord)
         (CommandParser.value (parse w commandWord))
         (tryCommandWords w transcript normalizedText words c).
Proof.
  intros normalizedText.
  induction words as [|commandWord rest IH]; [left; reflexivity|].
  cbn [tryCommandWords].
  assert (Hrest :
    tryCommandWords w transcript normalizedText rest c = (c, [], Done false)
    \/ exists commandWord0,
         In commandWord0 (commandWord :: rest) /\
         endsWithCommand normalizedText commandWord0 = true /\
         CommandParser.type (parse w commandWord0) = CommandParser.command /\
         commandPass c (textBefore transcript commandWord0)
           (CommandParser.value (parse w commandWord0))
           (tryCommandWords w transcript normalizedText rest c)).
  { destruct IH as [IH | (cw & Hin & Hrest)]; [now left|].
    right. exists cw. split; [now right | exact Hrest]. }
  destruct (endsWithCommand normalizedText commandWord) eqn:Ere;
    [|exact Hrest].
  destruct (JS.lastIndexOf normalizedText (JS.toLowerCase commandWord) =? -1);
    [exact Hrest|].
  destruct (CommandParser.type (parse w commandWord)) eqn:Ety;
    [exact Hrest|].
  right. exists commandWord.
  split; [now left|]. split; [exact Ere|]. split; [exact Ety|].
  change (JS.trim (JS.substring transcript 0
            (JS.lastIndexOf normalizedText (JS.toLowerCase commandWord))))
    with (textBefore transcript commandWord).
  set (before := textBefore transcript commandWord).
  set (token := CommandParser.value (parse w commandWord)).
  unfold commandPass.
  destruct (JS.isEmpty before) eqn:Eb.
  - destruct (runCommand_run token transcript c)
      as (c' & tr & Hrun & Ht & He & Hf).
    erewrite bind_Done; [| reflexivity |].
    2:{ erewrite bind_Done; [reflexivity | exact Hrun | reflexivity]. }
    cbn [app]. rewrite app_nil_r, Ht, He, Hf. cbn. auto.
  - pose (c1 := with_buffers c (lastInterimText c)
                  (finalTextBuffer c ++ separator (finalTextBuffer c)
                     ++ before)%string).
    destruct (runCommand_run token transcript c1)
      as (c' & tr & Hrun & Ht & He & Hf).
    erewrite bind_Done; [| apply typeFragment_run |].
    2:{ erewrite bind_Done; [reflexivity | exact Hrun | reflexivity]. }
    rewrite app_nil_r, typedTexts_app, executedCommands_app, Ht, He, Hf.
    cbn. auto.
Qed.

(** *** A pass through the standard processing *)

Lemma standardProcessing_run (w : Services) (transcript : string)
  (c : Controller) :
  voiceCommands c = true ->
  let '(c', tr, r) := standardProcessing w transcript c in
  r = Done tt /\
  ((CommandParser.type (parse w transcript) = CommandParser.command /\
    typedTexts tr = [] /\
    executedCommands tr = [CommandParser.value (parse w transcript)] /\
    finalTextBuffer c' =
      (if String.eqb (CommandParser.value (parse w transcript)) "enter"
       then "" else finalTextBuffer c))
   \/ (CommandParser.type (parse w transcript) = CommandParser.text /\
       exists commandWord,
         In commandWord commandWords /\
         endsWithCommand (JS.trim (JS.toLowerCase transcript)) commandWord
           = true /\
         CommandParser.type (parse w commandWord) = CommandParser.command /\
         commandPass c (textBefore transcript commandWord)
           (CommandParser.value (parse w commandWord))
           (c', tr, Done true))
   \/ (typedTexts tr =
         [(separator (finalTextBuffer c) ++ transcript)%string] /\
       executedCommands tr = [] /\
       finalTextBuffer c' =
         (finalTextBuffer c ++ separator (finalTextBuffer c)
            ++ transcript)%string)).
Proof.
  intros Hvc. unfold standardProcessing.
  unfold bind at 1. unfold get at 1. cbn [app]. rewrite Hvc.
  destruct (CommandParser.type (parse w transcript)) eqn:Ety.
  - (* the transcript is no command as a whole *)
    destruct (tryCommandWords_run w transcript commandWords c)
      as [Hno | (cw & Hin & Hre & Hty & Hpass)].
    + erewrite bind_Done; [| exact Hno |].
      2:{ cbv beta iota.
          erewrite bind_Done; [reflexivity | apply typeFragment_run
                              | reflexivity]. }
      cbn. split; [reflexivity|]. right; right. auto.
    + unfold bind at 1.
      destruct (tryCommandWords w transcript _ commandWords c)
        as [[c' tr] r].
      unfold commandPass in Hpass. destruct Hpass as (-> & Ht & He & Hf).
      cbn. rewrite app_nil_r.
      split; [reflexivity|]. right; left. split; [reflexivity|].
      exists cw. unfold commandPass. auto 10.
  - (* the whole transcript is a command *)
    destruct (runCommand_run (CommandParser.value (parse w transcript))
                (CommandParser.originalText (parse w transcript)) c)
      as (c' & tr & Hrun & Ht & He & Hf).
    unfold bind at 1. erewrite bind_Done; [| exact Hrun | reflexivity].
    cbn. rewrite !app_nil_r.
    split; [reflexivity|]. left. auto.
Qed.

Lemma tryCommandWords_hit (w : Services) (transcript normalizedText : string)
  (commandWord : string) (rest : list string) :
  endsWithCommand normalizedText commandWord = true ->
  JS.lastIndexOf normalizedText (JS.toLowerCase commandWord) <> -1 ->
  CommandParser.type (parse w commandWord) = CommandParser.command ->
  tryCommandWords w transcript normalizedText (commandWord :: rest)
    = let before :=
        JS.trim (JS.substring transcript 0
          (JS.lastIndexOf normalizedText (JS.toLowerCase commandWord))) in
      (if JS.isEmpty before then ret tt else typeFragment before) >>
      runCommand (CommandParser.value (parse w commandWord)) transcript >>
      ret true.
Proof.
  intros H1 H2 H3. cbn [tryCommandWords]. rewrite H1, H3.
  apply Z.eqb_neq in H2. now rewrite H2.
Qed.

(** *** The accumulator across a pass *)

Lemma translate_run (w : Services) (transcript : string) (c : Controller) :
  exists tr,
    translate w transcript c = (c, tr, Done (processedText w c transcript))
    /\ typedTexts tr = [] /\ executedCommands tr = [].
Proof.
  unfold translate, processedText, bind, get, tell, emit, ret.
  destruct (translationEnabled c); [|eauto].
  destruct (translateToEnglish w transcript) as [t|]; [|cbn; eauto].
  destruct (isEnglish t); cbn; eauto.
Qed.

Lemma executeCommands_run (keys : list string) (c : Controller) :
  exists c' tr,
    executeCommands (map CrewAIAgent.Key keys) c = (c', tr, Done tt) /\
    typedTexts tr = [] /\
    executedCommands tr = keys /\
    finalTextBuffer c' =
      (if existsb isEnter keys then "" else finalTextBuffer c).
Proof.
  revert c; induction keys as [|k keys IH]; intros c.
  - exists c, []. cbn. auto.
  - cbn [map executeCommands existsb].
    set (c1 := if isEnter k then with_buffers c (lastInterimText c) ""
               else c).
    destruct (IH c1) as (c' & tr & Hrun & Ht & He & Hf).
    exists c', (ExecuteCommand k :: Delay 100 :: tr).
    split.
    + unfold bind, tell, resetFinalTextBuffer, modify, ret.
      subst c1. destruct (isEnter k); cbn; fold executeCommands;
        rewrite Hrun; reflexivity.
    + cbn. rewrite Ht, He, Hf. subst c1.
      destruct (isEnter k); cbn; auto.
      destruct (existsb isEnter keys); auto.
Qed.

(** A pass through the agent whose answer holds strings only. *)
Lemma agentProcessing_run (w : Services) (transcript : string)
  (keys : list string) (c : Controller) :
  CrewAIAgent.commands (analyze w transcript) = map CrewAIAgent.Key keys ->
  exists c' tr,
    agentProcessing w transcript c = (c', tr, Done true) /\
    typedTexts tr =
      (if blank (CrewAIAgent.text (analyze w transcript)) then []
       else [(separator (finalTextBuffer c)
                ++ CrewAIAgent.text (analyze w transcript))%string]) /\
    executedCommands tr = keys /\
    finalTextBuffer c' =
      (if existsb isEnter keys then ""
       else fold_left String.append (typedTexts tr) (finalTextBuffer c)).
Proof.
  intros Hkeys. unfold agentProcessing, try_catch.
  set (a := analyze w transcript) in *.
  (* the typing step *)
  assert (Htype : exists c1 tr1,
    (if negb (blank (CrewAIAgent.text a))
     then typeFragment (CrewAIAgent.text a) else ret tt) c
      = (c1, tr1, Done tt) /\
    typedTexts tr1 =
      (if blank (CrewAIAgent.text a) then []
       else [(separator (finalTextBuffer c) ++ CrewAIAgent.text a)%string]) /\
    executedCommands tr1 = [] /\
    finalTextBuffer c1 =
      fold_left String.append (typedTexts tr1) (finalTextBuffer c)).
  { destruct (blank (CrewAIAgent.text a)); cbn [negb].
    - exists c, []. cbn. auto.
    - rewrite typeFragment_run. eexists _, _. cbn. auto. }
  destruct Htype as (c1 & tr1 & Hrun1 & Ht1 & He1 & Hf1).
  (* the command loop *)
  assert (Hcmds : exists c2 tr2,
    (match CrewAIAgent.commands a with
     | [] => ret tt
     | cmds =>
         tell (Indicator "processing command") >>
         tell (WriteCommandToLog transcript) >>
         executeCommands cmds >>
         emit (commandsEvent cmds transcript)
     end) c1 = (c2, tr2, Done tt) /\
    typedTexts tr2 = [] /\ executedCommands tr2 = keys /\
    finalTextBuffer c2 =
      (if existsb isEnter keys then "" else finalTextBuffer c1)).
  { rewrite Hkeys. destruct keys as [|k keys'].
    - exists c1, []. cbn. auto.
    - destruct (executeCommands_run (k :: keys') c1)
        as (c2 & tr2 & Hrun2 & Ht2 & He2 & Hf2).
      exists c2, (Indicator "processing command"
                  :: WriteCommandToLog transcript
                  :: tr2 ++ [Emit (commandsEvent
                                     (map CrewAIAgent.Key (k :: keys'))
                                     transcript)]).
      split.
      + cbn [map]. cbn [map] in Hrun2.
        unfold bind at 1 2 3. unfold tell at 1 2. unfold emit, tell.
        rewrite Hrun2. reflexivity.
      + cbn [typedTexts executedCommands].
        rewrite typedTexts_app, executedCommands_app, Ht2, He2.
        cbn. rewrite app_nil_r. auto. }
  destruct Hcmds as (c2 & tr2 & Hrun2 & Ht2 & He2 & Hf2).
  match goal with
  | |- context [match ?m c with _ => _ end] =>
      assert (Hbody : exists tr,
        m c = (c2, tr, Done true) /\
        typedTexts tr = typedTexts tr1 /\ executedCommands tr = keys)
  end.
  { eexists. split.
    - eapply bind_Done; [reflexivity|].
      eapply bind_Done; [reflexivity|].
      eapply bind_Done; [exact Hrun1|].
      eapply bind_Done; [exact Hrun2|].
      reflexivity.
    - rewrite !typedTexts_app, !executedCommands_app, Ht2, He1, He2.
      cbn. rewrite !app_nil_r. auto. }
  destruct Hbody as (tr & Hbody & Ht & He).
  exists c2, tr. rewrite Hbody.
  split; [reflexivity|]. rewrite Ht, Ht1. split; [reflexivity|].
  split; [exact He|]. rewrite Hf2, Hf1, Ht1. reflexivity.
Qed.

Lemma bind_get_run {B} (k : Controller -> M B) (c : Controller) :
  bind get k c = k c c.
Proof. unfold bind, get. now destruct (k c c) as [[? ?] ?]. Qed.

Lemma processFinalTranscription_listening (w : Services) (c : Controller)
  (transcript : string) :
  blank transcript = false ->
  state c = listening ->
  TriggerWordDetector.isDeactivate
    (TriggerWordDetector.detect (triggerWordDetector c) transcript) = false ->
  processFinalTranscription w transcript true c =
    (tell (Indicator "processing text") >>
     let! processedText := translate w transcript in
     let! returned :=
       if CrewAIAgent.isEnabled (crewAIAgent c)
       then agentProcessing w processedText
       else ret false in
     if (returned : bool) then ret tt
     else standardProcessing w processedText) c.
Proof.
  intros Hb Hs Hd. unfold processFinalTranscription.
  rewrite Hb. cbn [negb]. rewrite bind_get_run.
  rewrite Hs. cbn [Phase_eqb andb].
  destruct (TriggerWordDetector.enabled (triggerWordDetector c));
    [|reflexivity].
  destruct (TriggerWordDetector.detect (triggerWordDetector c) transcript)
    as [[ph o | wd o]|]; [discriminate Hd | reflexivity | reflexivity].
Qed.

Lemma standardProcessing_plain (w : Services) (transcript : string)
  (c : Controller) :
  voiceCommands c = false ->
  exists c' tr,
    standardProcessing w transcript c = (c', tr, Done tt) /\
    typedTexts tr = [(separator (finalTextBuffer c) ++ transcript)%string] /\
    executedCommands tr = [] /\
    finalTextBuffer c' =
      (finalTextBuffer c ++ separator (finalTextBuffer c) ++ transcript)%string.
Proof.
  intros Hvc. unfold standardProcessing.
  unfold bind at 1. unfold get at 1. rewrite Hvc.
  unfold bind at 1. unfold ret at 1. cbv iota beta.
  eexists _, _. split.
  - erewrite bind_Done; [reflexivity | apply typeFragment_run | reflexivity].
  - cbn. auto.
Qed.




(** One episode with the example parser: the second fragment gets its
    space, the fragment after "new line" does not. *)
Example dictation_episode :
  let started := fst (fst (start granting fresh)) in
  let result := dictate granting ["hello"; "world"; "new line"; "again"]
                  started in
  typedTexts (snd (fst result)) = ["hello"; " world"; "again"] /\
  executedCommands (snd (fst result)) = ["enter"] /\
  finalTextBuffer (fst (fst result)) = "again".
Proof. vm_compute. repeat split; reflexivity. Qed.

End SpeechRecognitionControllerFacts.

(* ================================================================== *)
(** ** JavaScript strings *)
(* ================================================================== *)

Module JSFacts.

Import Words.

(** *** Characters *)

Lemma toLowerChar_idem (c : ascii) :
  JS.toLowerChar (JS.toLowerChar c) = JS.toLowerChar c.
Proof.
  destruct c as [[] [] [] [] [] [] [] []]; vm_compute; reflexivity.
Qed.

Lemma isWordChar_toLowerChar (c : ascii) :
  JS.isWordChar (JS.toLowerChar c) = JS.isWordChar c.
Proof.
  destruct c as [[] [] [] [] [] [] [] []]; vm_compute; reflexivity.
Qed.

(** *** Trimming *)

Lemma trimStart_head (s : string) :
  match JS.trimStart s with
  | EmptyString => True
  | String c _ => JS.isSpace c = false
  end.
Proof.
  induction s as [|c s IH]; simpl; [exact I|].
  destruct (JS.isSpace c) eqn:E; [exact IH | exact E].
Qed.

Lemma trimStart_fixed (c : ascii) (r : string) :
  JS.trimStart (String c r) = String c r -> JS.isSpace c = false.
Proof.
  intros H. pose proof (trimStart_head (String c r)) as Hh.
  rewrite H in Hh. exact Hh.
Qed.

Lemma trimStart_spaces (ws s : string) :
  allSpaces ws = true -> JS.trimStart (ws ++ s) = JS.trimStart s.
Proof.
  induction ws as [|c ws IH]; intros H; [reflexivity|].
  cbn [allSpaces] in H. apply andb_prop in H as [Hc H].
  cbn [append JS.trimStart]. rewrite Hc. now apply IH.
Qed.

Lemma trimEnd_spaces (ws : string) :
  allSpaces ws = true -> JS.trimEnd ws = "".
Proof.
  induction ws as [|c ws IH]; intros H; [reflexivity|].
  cbn [allSpaces] in H. apply andb_prop in H as [Hc H].
  cbn [JS.trimEnd]. now rewrite (IH H), Hc.
Qed.

Lemma trimEnd_app_spaces (s ws : string) :
  allSpaces ws = true -> JS.trimEnd (s ++ ws) = JS.trimEnd s.
Proof.
  intros H. induction s as [|c s IH]; [now apply trimEnd_spaces|].
  cbn [append JS.trimEnd]. now rewrite IH.
Qed.

Lemma trimEnd_app_fixed (a b : string) :
  b <> "" -> JS.trimEnd b = b -> JS.trimEnd (a ++ b) = a ++ b.
Proof.
  intros Hne Hb. induction a as [|c a IH]; [exact Hb|].
  cbn [append JS.trimEnd]. rewrite IH.
  destruct (a ++ b) eqn:E; [|reflexivity].
  destruct a; [contradiction | discriminate].
Qed.

Lemma trimEnd_cons (c : ascii) (r : string) :
  JS.trimEnd (String c r) =
    match JS.trimEnd r with
    | EmptyString => if JS.isSpace c then EmptyString else String c EmptyString
    | r' => String c r'
    end.
Proof. reflexivity. Qed.

Lemma trimEnd_idem (s : string) : JS.trimEnd (JS.trimEnd s) = JS.trimEnd s.
Proof.
  induction s as [|c s IH]; [reflexivity|].
  rewrite trimEnd_cons. destruct (JS.trimEnd s) as [|c' r'] eqn:E.
  - destruct (JS.isSpace c) eqn:Ec; [reflexivity|].
    cbn [JS.trimEnd]. now rewrite Ec.
  - rewrite trimEnd_cons, IH. reflexivity.
Qed.

Lemma trimEnd_keeps_head (c : ascii) (r : string) :
  JS.isSpace c = false ->
  exists r', JS.trimEnd (String c r) = String c r'.
Proof.
  intros Hc. cbn [JS.trimEnd]. destruct (JS.trimEnd r); rewrite ?Hc; eauto.
Qed.

Lemma trim_idem (s : string) : JS.trim (JS.trim s) = JS.trim s.
Proof.
  unfold JS.trim. pose proof (trimStart_head s) as Hh.
  destruct (JS.trimStart s) as [|c r]; [reflexivity|].
  destruct (trimEnd_keeps_head c r Hh) as [r' Hr].
  rewrite Hr. cbn [JS.trimStart]. rewrite Hh, <- Hr. apply trimEnd_idem.
Qed.

(** *** Lower case *)

Lemma isSpace_toLowerChar (c : ascii) :
  JS.isSpace (JS.toLowerChar c) = JS.isSpace c.
Proof.
  destruct c as [[] [] [] [] [] [] [] []]; vm_compute; reflexivity.
Qed.

Lemma toLowerCase_idem (s : string) :
  JS.toLowerCase (JS.toLowerCase s) = JS.toLowerCase s.
Proof.
  induction s as [|c s IH]; [reflexivity|].
  cbn [JS.toLowerCase].
  now rewrite toLowerChar_idem, IH.
Qed.

Lemma toLowerCase_trimStart (s : string) :
  JS.toLowerCase (JS.trimStart s) = JS.trimStart (JS.toLowerCase s).
Proof.
  induction s as [|c s IH]; [reflexivity|].
  cbn [JS.toLowerCase JS.trimStart]. rewrite isSpace_toLowerChar.
  destruct (JS.isSpace c); [exact IH | reflexivity].
Qed.

Lemma toLowerCase_trimEnd (s : string) :
  JS.toLowerCase (JS.trimEnd s) = JS.trimEnd (JS.toLowerCase s).
Proof.
  induction s as [|c s IH]; [reflexivity|].
  cbn [JS.toLowerCase JS.trimEnd]. rewrite <- IH, isSpace_toLowerChar.
  destruct (JS.trimEnd s); cbn [JS.toLowerCase];
    [destruct (JS.isSpace c)|]; reflexivity.
Qed.

Lemma toLowerCase_trim (s : string) :
  JS.toLowerCase (JS.trim s) = JS.trim (JS.toLowerCase s).
Proof.
  unfold JS.trim. now rewrite toLowerCase_trimEnd, toLowerCase_trimStart.
Qed.

(** *** Pieces of a string *)

Lemma string_length_app (a b : string) :
  String.length (a ++ b) = (String.length a + String.length b)%nat.
Proof. induction a; simpl; congruence. Qed.

Lemma string_app_assoc (a b c : string) : (a ++ b) ++ c = a ++ b ++ c.
Proof. induction a; simpl; congruence. Qed.

Lemma string_app_nil_r (a : string) : a ++ "" = a.
Proof. induction a; simpl; congruence. Qed.

Lemma drop_app (a b : string) : JS.drop (String.length a) (a ++ b) = b.
Proof. induction a; simpl; [now destruct b | assumption]. Qed.

Lemma take_app (a b : string) : JS.take (String.length a) (a ++ b) = a.
Proof.
  induction a; simpl; [now destruct b | congruence].
Qed.

Lemma prefix_app_self (p s : string) : prefix p (p ++ s) = true.
Proof.
  induction p as [|c p IH]; [now destruct s|].
  simpl. destruct (ascii_dec c c); [exact IH | contradiction].
Qed.

Lemma prefix_char (c b : ascii) (r : string) :
  prefix (String c "") (String b r) = Ascii.eqb c b.
Proof.
  simpl. destruct (ascii_dec c b) as [->|n].
  - rewrite Ascii.eqb_refl. now destruct r.
  - symmetry. now apply Ascii.eqb_neq.
Qed.

(** *** Searching for one character *)

Lemma includes_char_cons (c b : ascii) (r : string) :
  JS.includes (String b r) (String c "")
  = Ascii.eqb c b || JS.includes r (String c "").
Proof. cbn [JS.includes]. now rewrite prefix_char. Qed.

Lemma indexOf_from_char (c : ascii) (pre r : string) :
  forall i : Z,
    JS.includes pre (String c "") = false ->
    JS.indexOf_from (pre ++ String c r) (String c "") i
    = i + Z.of_nat (String.length pre).
Proof.
  induction pre as [|b pre IH]; intros i H.
  - cbn [append JS.indexOf_from]. rewrite prefix_char, Ascii.eqb_refl.
    cbn. lia.
  - rewrite includes_char_cons in H. apply orb_false_elim in H as [Hb H].
    cbn [append JS.indexOf_from]. rewrite prefix_char, Hb.
    rewrite IH by assumption. cbn [String.length]. lia.
Qed.

Lemma lastIndexOf_from_none (c : ascii) (s : string) :
  forall i : Z,
    JS.includes s (String c "") = false ->
    JS.lastIndexOf_from s (String c "") i = -1.
Proof.
  induction s as [|b s IH]; intros i H; [reflexivity|].
  rewrite includes_char_cons in H. apply orb_false_elim in H as [Hb H].
  cbn [JS.lastIndexOf_from]. rewrite (IH _ H), prefix_char, Hb.
  reflexivity.
Qed.

Lemma lastIndexOf_from_char (c : ascii) (a post : string) :
  forall i : Z,
    0 <= i ->
    JS.includes post (String c "") = false ->
    JS.lastIndexOf_from (a ++ String c post) (String c "") i
    = i + Z.of_nat (String.length a).
Proof.
  induction a as [|b a IH]; intros i Hi H.
  - cbn [append JS.lastIndexOf_from].
    rewrite (lastIndexOf_from_none _ _ _ H), prefix_char, Ascii.eqb_refl.
    cbn. lia.
  - cbn [append JS.lastIndexOf_from]. rewrite IH by (assumption || lia).
    cbn [String.length].
    destruct (0 <=? i + 1 + Z.of_nat (String.length a)) eqn:E; [lia|].
    apply Z.leb_gt in E. lia.
Qed.

(** What a search that succeeds says about the subject. *)
Lemma indexOf_from_found (c : ascii) (s : string) :
  forall i k : Z,
    JS.indexOf_from s (String c "") i = k -> k <> -1 -> 0 <= i ->
    exists pre r,
      s = pre ++ String c r /\
      JS.includes pre (String c "") = false /\
      k = i + Z.of_nat (String.length pre).
Proof.
  induction s as [|b s IH]; intros i k H Hk Hi.
  - cbn in H. congruence.
  - cbn [JS.indexOf_from] in H. rewrite prefix_char in H.
    destruct (Ascii.eqb c b) eqn:E.
    + apply Ascii.eqb_eq in E as <-. exists "", s. cbn. split; [reflexivity|].
      split; [reflexivity | lia].
    + destruct (IH _ _ H Hk ltac:(lia)) as (pre & r & -> & Hpre & ->).
      exists (String b pre), r. split; [reflexivity|].
      rewrite includes_char_cons, E, Hpre. split; [reflexivity|].
      cbn [String.length]. lia.
Qed.

Lemma lastIndexOf_from_found (c : ascii) (s : string) :
  forall i k : Z,
    JS.lastIndexOf_from s (String c "") i = k -> k <> -1 -> 0 <= i ->
    exists a post,
      s = a ++ String c post /\
      JS.includes post (String c "") = false /\
      k = i + Z.of_nat (String.length a).
Proof.
  induction s as [|b s IH]; intros i k H Hk Hi.
  - cbn in H. congruence.
  - cbn [JS.lastIndexOf_from] in H.
    destruct (0 <=? JS.lastIndexOf_from s (String c "") (i + 1)) eqn:E.
    + destruct (IH _ _ H Hk ltac:(lia)) as (a & post & -> & Hpost & ->).
      exists (String b a), post. split; [reflexivity|].
      split; [assumption|]. cbn [String.length]. lia.
    + rewrite prefix_char in H. destruct (Ascii.eqb c b) eqn:Eb;
        [|congruence].
      apply Ascii.eqb_eq in Eb as <-.
      assert (Hnone : JS.includes s (String c "") = false).
      { destruct (JS.includes s (String c "")) eqn:Ei; [|reflexivity].
        exfalso. clear IH H.
        revert i Hi E. induction s as [|b s IHs]; intros i Hi E;
          [discriminate|].
        rewrite includes_char_cons in Ei.
        cbn [JS.lastIndexOf_from] in E.
        destruct (0 <=? JS.lastIndexOf_from s (String c "") (i + 1 + 1))
          eqn:E2.
        - apply Z.leb_le in E2. apply Z.leb_gt in E. lia.
        - rewrite prefix_char in E.
          destruct (Ascii.eqb c b).
          + apply Z.leb_gt in E. lia.
          + cbn [orb] in Ei. apply (IHs Ei (i + 1)); [lia | exact E2]. }
      exists "", s. split; [reflexivity|]. split; [assumption|].
      cbn. lia.
Qed.

Lemma app_split (a b c d : string) :
  a ++ b = c ++ d -> (String.length a < String.length c)%nat ->
  exists m, c = a ++ m /\ b = m ++ d /\ m <> "".
Proof.
  revert c. induction a as [|x a IH]; intros c H Hl.
  - exists c. cbn in *. split; [reflexivity|]. split; [assumption|].
    destruct c; [cbn in Hl; lia | discriminate].
  - destruct c as [|y c]; [cbn in Hl; lia|].
    cbn in H. injection H as -> H. cbn in Hl.
    destruct (IH c H ltac:(lia)) as (m & -> & -> & Hm).
    exists m. auto.
Qed.

End JSFacts.

(* ================================================================== *)
(** ** TriggerWordDetector: whole words, any case *)
(* ================================================================== *)

Module TriggerWordDetectorMatching.

Import TriggerWordDetector Words JSFacts.

Lemma ciEq_toLowerChar (a b : ascii) :
  JS.ciEq (JS.toLowerChar a) (JS.toLowerChar b) = JS.ciEq a b.
Proof. unfold JS.ciEq. now rewrite !toLowerChar_idem. Qed.

Lemma headIsWord_toLowerCase (s : string) :
  JS.headIsWord (JS.toLowerCase s) = JS.headIsWord s.
Proof. destruct s; simpl; [reflexivity | apply isWordChar_toLowerChar]. Qed.

Lemma matchLiteral_toLowerCase (word : string) :
  forall (prevW : bool) (text : string),
    JS.matchLiteral prevW (JS.toLowerCase word) (JS.toLowerCase text) =
    match JS.matchLiteral prevW word text with
    | Some (lastW, rest) => Some (lastW, JS.toLowerCase rest)
    | None => None
    end.
Proof.
  induction word as [|a word IH]; intros prevW text; simpl; [reflexivity|].
  destruct text as [|b text]; simpl; [reflexivity|].
  rewrite ciEq_toLowerChar, isWordChar_toLowerChar.
  destruct (JS.ciEq a b); [apply IH | reflexivity].
Qed.

Lemma wordAt_toLowerCase (prevW : bool) (word text : string) :
  wordAt prevW (JS.toLowerCase word) (JS.toLowerCase text) =
  wordAt prevW word text.
Proof.
  unfold wordAt, JS.wordBoundary.
  rewrite headIsWord_toLowerCase, matchLiteral_toLowerCase.
  destruct (JS.matchLiteral prevW word text) as [[lastW rest]|];
    [|reflexivity].
  now rewrite headIsWord_toLowerCase.
Qed.

Lemma searchWord_toLowerCase (word text : string) :
  forall prevW : bool,
    searchWord prevW (JS.toLowerCase word) (JS.toLowerCase text) =
    searchWord prevW word text.
Proof.
  induction text as [|c text IH]; intros prevW.
  - cbn [JS.toLowerCase searchWord].
    now rewrite <- (wordAt_toLowerCase prevW word "").
  - cbn [JS.toLowerCase searchWord].
    change (String (JS.toLowerChar c) (JS.toLowerCase text))
      with (JS.toLowerCase (String c text)).
    rewrite wordAt_toLowerCase, isWordChar_toLowerChar, IH. reflexivity.
Qed.

Lemma containsWord_toLowerCase (text word : string) :
  containsWord (JS.toLowerCase text) (JS.toLowerCase word) =
  containsWord text word.
Proof. apply searchWord_toLowerCase. Qed.

(** X1. The activate word is looked for under the [i] flag whatever
    [triggerWordCaseSensitive] says: when the deactivate phrase is not
    found, the detector activates exactly when the lower-cased text holds
    the lower-cased trigger word as a word. *)
Theorem activation_ignores_case_setting (d : t) (text : string) :
  enabled d = true ->
  text <> "" ->
  containsPhrase (normalize d (JS.trim text))
    (normalize d (deactivatePhrase d)) = false ->
  isActivate (detect d text) =
    containsWord (JS.toLowerCase (JS.trim text))
      (JS.toLowerCase (triggerWord d)).
Proof.
  intros He Ht Hd. unfold detect. rewrite He.
  destruct text as [|c text]; [contradiction|].
  cbn [negb orb JS.isEmpty]. rewrite Hd.
  assert (Hw : containsWord (normalize d (JS.trim (String c text)))
                 (normalize d (triggerWord d))
               = containsWord (JS.toLowerCase (JS.trim (String c text)))
                   (JS.toLowerCase (triggerWord d))).
  { unfold normalize. destruct (caseSensitive d); [|reflexivity].
    symmetry. apply containsWord_toLowerCase. }
  rewrite <- Hw.
  now destruct (containsWord _ _).
Qed.

(** The theorem at a case-sensitive detector that hears its trigger word in
    capitals. *)
Lemma activation_ignores_case_setting_shouted :
  let d := {| triggerWord := "sana"; deactivatePhrase := "sana close";
              enabled := true; caseSensitive := true |} in
  isActivate (detect d "SANA open the editor") =
    containsWord (JS.toLowerCase (JS.trim "SANA open the editor"))
      (JS.toLowerCase (triggerWord d))
  /\ detect d "SANA open the editor"
     = Some (Activate "sana" "SANA open the editor").
Proof.
  split.
  - apply activation_ignores_case_setting;
      [reflexivity | discriminate | reflexivity].
  - reflexivity.
Defined.

(** *** Whole words only *)

Lemma matched_word_ends (word : string) :
  forall (prevW : bool) (text : string),
    word <> "" -> allWordChars text = true ->
    match JS.matchLiteral prevW word text with
    | Some (lastW, rest) => JS.wordBoundary lastW rest
    | None => false
    end = ciEqString text word.
Proof.
  unfold ciEqString.
  induction word as [|a word IH]; intros prevW text Hne Hall;
    [contradiction|].
  destruct text as [|b text]; [reflexivity|].
  cbn [allWordChars] in Hall. apply andb_prop in Hall as [Hb Hall].
  cbn [JS.matchLiteral JS.toLowerCase String.eqb].
  unfold JS.ciEq. rewrite (Ascii.eqb_sym (JS.toLowerChar a)).
  destruct (Ascii.eqb (JS.toLowerChar b) (JS.toLowerChar a));
    [|reflexivity].
  destruct word as [|a' word].
  - cbn [JS.matchLiteral JS.toLowerCase]. rewrite Hb.
    unfold JS.wordBoundary. destruct text as [|b' text]; [reflexivity|].
    cbn [allWordChars] in Hall. apply andb_prop in Hall as [Hb' _].
    cbn. now rewrite Hb'.
  - apply IH; [discriminate | assumption].
Qed.

Lemma searchWord_inside_word (word text : string) :
  word <> "" -> allWordChars text = true ->
  searchWord true word text = false.
Proof.
  intros Hne. induction text as [|c text IH]; intros Hall.
  - cbn. destruct word; [contradiction | reflexivity].
  - cbn [allWordChars] in Hall. apply andb_prop in Hall as [Hc Hall].
    cbn [searchWord]. rewrite Hc, (IH Hall), orb_false_r.
    unfold wordAt, JS.wordBoundary. cbn [JS.headIsWord]. now rewrite Hc.
Qed.

(** X2. A text that is one run of word characters holds the trigger word
    only when it is the trigger word, letter case apart: the word is
    never found inside a longer word. *)
Theorem containsWord_single_word (text word : string) :
  word <> "" ->
  allWordChars text = true ->
  containsWord text word = ciEqString text word.
Proof.
  intros Hne Hall. unfold containsWord.
  destruct text as [|c text].
  - cbn. destruct word; [contradiction | reflexivity].
  - pose proof (matched_word_ends word false (String c text) Hne Hall) as H.
    cbn [allWordChars] in Hall. apply andb_prop in Hall as [Hc Hall].
    cbn [searchWord]. rewrite Hc, (searchWord_inside_word _ _ Hne Hall).
    rewrite orb_false_r. unfold wordAt, JS.wordBoundary at 1.
    cbn [JS.headIsWord]. rewrite Hc. cbn [xorb andb]. exact H.
Qed.

(** The theorem at a longer word that begins with the trigger word. *)
Lemma containsWord_single_word_sanatorium :
  containsWord "sanatorium" "sana" = ciEqString "sanatorium" "sana"
  /\ containsWord "sanatorium" "sana" = false
  /\ containsWord "Sana" "sana" = true.
Proof.
  split; [apply containsWord_single_word; [discriminate | reflexivity]|].
  split; reflexivity.
Defined.

(** *** A word between separators is found *)

Lemma matchLiteral_self (word : string) :
  forall (prevW : bool) (post : string),
    JS.matchLiteral prevW word (word ++ post)
    = Some (endsInWord prevW word, post).
Proof.
  induction word as [|a word IH]; intros prevW post; [reflexivity|].
  cbn [append JS.matchLiteral endsInWord].
  unfold JS.ciEq. rewrite Ascii.eqb_refl. apply IH.
Qed.

Lemma searchWord_skip (word pre rest : string) :
  forall prevW : bool,
    searchWord (endsInWord prevW pre) word rest = true ->
    searchWord prevW word (pre ++ rest) = true.
Proof.
  induction pre as [|c pre IH]; intros prevW H; [exact H|].
  cbn [append searchWord]. rewrite (IH _ H). apply orb_true_r.
Qed.

Lemma headIsWord_app (a b : string) :
  JS.headIsWord a = true -> JS.headIsWord (a ++ b) = true.
Proof. destruct a; [discriminate | trivial]. Qed.

(** X3. The trigger word is found wherever it stands between separators: a
    word that begins and ends with a word character is found in
    [pre ++ word ++ post] when [pre] is empty or ends with a character
    that is none, and [post] is empty or begins with one. *)
Theorem containsWord_between_separators (pre word post : string) :
  JS.headIsWord word = true ->
  endsInWord false word = true ->
  endsInWord false pre = false ->
  JS.headIsWord post = false ->
  containsWord (pre ++ word ++ post) word = true.
Proof.
  intros Hhead Hlast Hpre Hpost. unfold containsWord.
  apply searchWord_skip. rewrite Hpre.
  destruct (word ++ post) as [|c r] eqn:E;
    [destruct word; discriminate|].
  rewrite <- E. 
  assert (Hat : wordAt false word (word ++ post) = true).
  { unfold wordAt. rewrite matchLiteral_self, Hlast.
    unfold JS.wordBoundary. rewrite (headIsWord_app _ _ Hhead), Hpost.
    reflexivity. }
  rewrite E in *. cbn [searchWord]. now rewrite Hat.
Qed.

(** The theorem at a trigger word between a comma and an exclamation mark. *)
Lemma containsWord_between_separators_hey_sana :
  containsWord ("Hey, " ++ "Sana" ++ "!") "Sana" = true.
Proof.
  apply containsWord_between_separators; reflexivity.
Defined.

End TriggerWordDetectorMatching.

(* ================================================================== *)
(** ** TriggerWordDetector: the order of checks *)
(* ================================================================== *)

Module TriggerWordDetectorOrder.

Import TriggerWordDetector Words JSFacts TriggerWordDetectorFacts.

(** *** What the pattern finds *)

(** The literal of a pattern, read at the head of [text] under the [i]
    flag, takes a piece that equals the word, letter case apart. *)
Lemma matchLiteral_spec (word : string) :
  forall (prevW lastW : bool) (text rest : string),
    JS.matchLiteral prevW word text = Some (lastW, rest) <->
    exists m, text = m ++ rest /\ ciEqString m word = true /\
              lastW = endsInWord prevW m.
Proof.
  unfold ciEqString.
  induction word as [|a word IH]; intros prevW lastW text rest.
  - cbn [JS.matchLiteral JS.toLowerCase]. split.
    + intros [= <- <-]. now exists "".
    + intros (m & -> & Hm & ->). destruct m; [reflexivity | discriminate].
  - cbn [JS.matchLiteral JS.toLowerCase]. destruct text as [|b text].
    + split; [discriminate|].
      intros (m & Ht & Hm & _). destruct m; discriminate.
    + unfold JS.ciEq.
      destruct (Ascii.eqb (JS.toLowerChar a) (JS.toLowerChar b)) eqn:Eab.
      * rewrite IH. apply Ascii.eqb_eq in Eab. split.
        -- intros (m & -> & Hm & ->). exists (String b m).
           cbn [append JS.toLowerCase String.eqb endsInWord].
           rewrite Eab, Ascii.eqb_refl. auto.
        -- intros (m & Ht & Hm & ->). destruct m as [|b' m]; [discriminate|].
           cbn [append] in Ht. injection Ht as <- ->.
           cbn [JS.toLowerCase String.eqb] in Hm.
           destruct (Ascii.eqb (JS.toLowerChar b) (JS.toLowerChar a));
             [|discriminate].
           exists m. auto.
      * split; [discriminate|].
        intros (m & Ht & Hm & _). destruct m as [|b' m]; [discriminate|].
        cbn [append] in Ht. injection Ht as <- ->.
        cbn [JS.toLowerCase String.eqb] in Hm.
        rewrite Ascii.eqb_sym, Eab in Hm. discriminate.
Qed.

Lemma endsInWord_app (a b : string) :
  forall prevW, endsInWord prevW (a ++ b) = endsInWord (endsInWord prevW a) b.
Proof. induction a as [|c a IH]; intros prevW; [reflexivity | apply IH]. Qed.

Lemma wordAt_spec (prevW : bool) (word text : string) :
  wordAt prevW word text = true <->
  exists m post,
    text = m ++ post /\ ciEqString m word = true /\
    JS.wordBoundary prevW (m ++ post) = true /\
    JS.wordBoundary (endsInWord prevW m) post = true.
Proof.
  unfold wordAt. rewrite andb_true_iff. split.
  - intros [Hb Hm].
    destruct (JS.matchLiteral prevW word text) as [[lastW rest]|] eqn:E;
      [|discriminate].
    apply matchLiteral_spec in E as (m & -> & Hci & ->).
    exists m, rest. auto.
  - intros (m & post & -> & Hci & Hb1 & Hb2). split; [exact Hb1|].
    assert (E : JS.matchLiteral prevW word (m ++ post)
                = Some (endsInWord prevW m, post))
      by (apply matchLiteral_spec; exists m; auto).
    now rewrite E.
Qed.

(** The search for [/\bWORD\b/i] succeeds exactly when the word stands
    somewhere in the text with a word boundary on each side. *)
Lemma searchWord_spec (word : string) :
  forall (text : string) (prevW : bool),
    searchWord prevW word text = true <->
    exists pre m post,
      text = pre ++ m ++ post /\ ciEqString m word = true /\
      JS.wordBoundary (endsInWord prevW pre) (m ++ post) = true /\
      JS.wordBoundary (endsInWord prevW (pre ++ m)) post = true.
Proof.
  induction text as [|c text IH]; intros prevW.
  - cbn [searchWord]. rewrite orb_false_r, wordAt_spec. split.
    + intros (m & post & Ht & H). exists "", m, post. auto.
    + intros (pre & m & post & Ht & H).
      destruct pre; [|discriminate]. exists m, post. auto.
  - cbn [searchWord]. rewrite orb_true_iff, wordAt_spec, IH. split.
    + intros [(m & post & Ht & H) | (pre & m & post & Ht & Hci & Hb1 & Hb2)].
      * exists "", m, post. auto.
      * exists (String c pre), m, post. cbn [append endsInWord].
        rewrite Ht. auto.
    + intros (pre & m & post & Ht & Hci & Hb1 & Hb2).
      destruct pre as [|c' pre].
      * left. exists m, post. auto.
      * right. cbn [append] in Ht. injection Ht as <- ->.
        exists pre, m, post. auto.
Qed.

Lemma containsWord_standsAsWord (text word : string) :
  containsWord text word = true <-> standsAsWord text word.
Proof.
  unfold containsWord, standsAsWord, boundary. rewrite searchWord_spec.
  reflexivity.
Qed.

Lemma standsAsWord_toLowerCase (text word : string) :
  standsAsWord text (JS.toLowerCase word) <-> standsAsWord text word.
Proof.
  unfold standsAsWord, ciEqString. now setoid_rewrite toLowerCase_idem.
Qed.

(** *** The order of the two checks *)

(** A detector that is switched off, or an empty text: [detect] answers
    [null] before any check. *)
Lemma detect_off (d : t) (text : string) :
  enabled d = false \/ text = "" -> detect d text = None.
Proof.
  unfold detect. intros [-> | ->]; [reflexivity|].
  now rewrite orb_true_r.
Qed.

Lemma detect_running (d : t) (text : string) :
  enabled d = true -> text <> "" ->
  detect d text =
    if containsPhrase (normalize d (JS.trim text))
         (normalize d (deactivatePhrase d)) then
      Some (Deactivate (deactivatePhrase d) text)
    else if containsWord (normalize d (JS.trim text))
              (normalize d (triggerWord d)) then
      Some (Activate (triggerWord d) text)
    else None.
Proof.
  intros He Hne. unfold detect. rewrite He.
  destruct text; [contradiction | reflexivity].
Qed.

(** C4. With detection enabled and a text that is not empty, [detect]
    looks at the trimmed text, lower-cased unless the detector is case
    sensitive. It answers [deactivate] exactly when that text holds the
    deactivate phrase, folded the same way, as a substring, whatever
    else it holds. It answers [activate] exactly when the text does not
    hold the phrase and holds the activate word as a word, with a word
    boundary on each side, letter case apart; and nothing in all other
    cases. *)
Theorem detect_deactivate_first (d : t) (text : string) :
  enabled d = true ->
  text <> "" ->
  let folded := fun s => if caseSensitive d then s else JS.toLowerCase s in
  let subject := folded (JS.trim text) in
  let holdsPhrase :=
    exists a b, subject = a ++ folded (deactivatePhrase d) ++ b in
  (detect d text = Some (Deactivate (deactivatePhrase d) text)
     <-> holdsPhrase) /\
  (detect d text = Some (Activate (triggerWord d) text)
     <-> ~ holdsPhrase /\ standsAsWord subject (triggerWord d)) /\
  (detect d text = None
     <-> ~ holdsPhrase /\ ~ standsAsWord subject (triggerWord d)).
Proof.
  intros He Hne folded subject holdsPhrase.
  rewrite (detect_running d text He Hne).
  change (normalize d (JS.trim text)) with subject.
  change (normalize d (deactivatePhrase d))
    with (folded (deactivatePhrase d)).
  assert (Hphrase : containsPhrase subject (folded (deactivatePhrase d))
                    = true <-> holdsPhrase)
    by apply includes_substring.
  assert (Hword : containsWord subject (normalize d (triggerWord d)) = true
                  <-> standsAsWord subject (triggerWord d)).
  { rewrite containsWord_standsAsWord. unfold normalize.
    destruct (caseSensitive d); [reflexivity|].
    apply standsAsWord_toLowerCase. }
  destruct (containsPhrase subject (folded (deactivatePhrase d))).
  - assert (Hp : holdsPhrase) by now apply Hphrase.
    split; [tauto|]. split; (split; [discriminate | tauto]).
  - assert (Hp : ~ holdsPhrase)
      by (intros H; apply Hphrase in H; discriminate).
    destruct (containsWord subject (normalize d (triggerWord d))).
    + assert (Hw : standsAsWord subject (triggerWord d)) by now apply Hword.
      split; [split; [discriminate | tauto]|].
      split; [tauto|]. split; [discriminate | tauto].
    + assert (Hw : ~ standsAsWord subject (triggerWord d))
        by (intros H; apply Hword in H; discriminate).
      split; [split; [discriminate | tauto]|].
      split; [split; [discriminate | tauto]|]. tauto.
Qed.

(** The specificity example of the design document: the phrase "sana
    close" holds the activate word "sana", which stands as a word in
    the text, and the text is classified as a deactivation. *)
Lemma detect_sana_close_the_app :
  standsAsWord "sana close the app" "sana" /\
  detect defaults "sana close the app"
    = Some (Deactivate "sana close" "sana close the app").
Proof.
  split.
  - exists "", "sana", " close the app". repeat split.
  - apply (proj1 (detect_deactivate_first defaults "sana close the app"
                    eq_refl ltac:(discriminate))).
    exists "", " the app". reflexivity.
Defined.

End TriggerWordDetectorOrder.

(* ================================================================== *)
(** ** SpeechRecognitionController: the fallback grammar *)
(* ================================================================== *)

Module SpeechRecognitionControllerGrammar.

Import SpeechRecognitionController SpeechRecognitionControllerFacts.
Import Words JSFacts TriggerWordDetectorFacts TriggerWordDetectorOrder.
Local Open Scope list_scope.

(** *** The end of a transcript *)

Lemma isPunct_not_space (c : ascii) :
  JS.isPunct c = true -> JS.isSpace c = false.
Proof.
  destruct c as [[] [] [] [] [] [] [] []]; vm_compute;
    first [reflexivity | discriminate].
Qed.

Lemma allPunct_trimStart (s : string) :
  JS.allPunct s = true -> JS.trimStart s = s.
Proof.
  destruct s as [|c s]; [reflexivity|]. cbn [JS.allPunct JS.trimStart].
  intros H. apply andb_prop in H as [H _].
  now rewrite (isPunct_not_space c H).
Qed.

Lemma trimStart_split (s : string) :
  exists spaces, s = (spaces ++ JS.trimStart s)%string /\
                 allSpaces spaces = true.
Proof.
  induction s as [|c s (sp & IH1 & IH2)]; [now exists ""|].
  cbn [JS.trimStart]. destruct (JS.isSpace c) eqn:E.
  - exists (String c sp). cbn [append allSpaces]. rewrite E, IH2.
    now rewrite <- IH1.
  - now exists "".
Qed.

(** [\s*[.!?,;:]*$] takes white space and then marks, and nothing may
    be left. *)
Lemma onlyPunctuationLeft_spec (rest : string) :
  JS.onlyPunctuationLeft rest = true <->
  exists spaces marks,
    rest = (spaces ++ marks)%string /\
    allSpaces spaces = true /\ JS.allPunct marks = true.
Proof.
  unfold JS.onlyPunctuationLeft. split.
  - intros H. destruct (trimStart_split rest) as (sp & H1 & H2).
    exists sp, (JS.trimStart rest). auto.
  - intros (sp & marks & -> & H1 & H2).
    now rewrite (trimStart_spaces _ _ H1), (allPunct_trimStart _ H2).
Qed.

(** One attempt of the pattern of a command word, and the search. *)
Lemma commandAt_spec (single prevW : bool) (word subject : string) :
  commandAt single prevW word subject = true <->
  exists m rest,
    subject = (m ++ rest)%string /\ ciEqString m word = true /\
    (single = true -> JS.wordBoundary prevW (m ++ rest) = true) /\
    JS.onlyPunctuationLeft rest = true.
Proof.
  unfold commandAt. rewrite andb_true_iff. split.
  - intros [Hb Hm].
    destruct (JS.matchLiteral prevW word subject) as [[lastW rest]|] eqn:E;
      [|discriminate].
    apply matchLiteral_spec in E as (m & -> & Hci & _).
    exists m, rest. repeat split; auto.
    intros ->. exact Hb.
  - intros (m & rest & -> & Hci & Hb & Hp). split.
    + destruct single; [now apply Hb | reflexivity].
    + assert (E : JS.matchLiteral prevW word (m ++ rest)
                  = Some (endsInWord prevW m, rest))
        by (apply matchLiteral_spec; exists m; auto).
      now rewrite E.
Qed.

Lemma searchCommand_spec (single : bool) (word : string) :
  forall (subject : string) (prevW : bool),
    searchCommand single prevW word subject = true <->
    exists pre m rest,
      subject = (pre ++ m ++ rest)%string /\ ciEqString m word = true /\
      (single = true ->
       JS.wordBoundary (endsInWord prevW pre) (m ++ rest) = true) /\
      JS.onlyPunctuationLeft rest = true.
Proof.
  induction subject as [|c subject IH]; intros prevW.
  - cbn [searchCommand]. rewrite orb_false_r, commandAt_spec. split.
    + intros (m & rest & Ht & H). exists "", m, rest. auto.
    + intros (pre & m & rest & Ht & H).
      destruct pre; [|discriminate]. exists m, rest. auto.
  - cbn [searchCommand]. rewrite orb_true_iff, commandAt_spec, IH. split.
    + intros [(m & rest & Ht & H) | (pre & m & rest & Ht & Hci & Hb & Hp)].
      * exists "", m, rest. auto.
      * exists (String c pre), m, rest. cbn [append endsInWord].
        rewrite Ht. auto.
    + intros (pre & m & rest & Ht & Hci & Hb & Hp).
      destruct pre as [|c' pre].
      * left. exists m, rest. auto.
      * right. cbn [append] in Ht. injection Ht as <- ->.
        exists pre, m, rest. auto.
Qed.

(** The pattern built from a command word matches exactly the texts
    that the word ends. *)
Lemma endsWithCommand_endsText (text word : string) :
  endsWithCommand text word = true <-> endsText text word.
Proof.
  unfold endsWithCommand, endsText, boundary.
  rewrite searchCommand_spec. split.
  - intros (pre & m & rest & -> & Hci & Hb & Hp).
    apply onlyPunctuationLeft_spec in Hp as (sp & marks & -> & Hs & Hm).
    exists pre, m, sp, marks. repeat split; auto.
    intros Hw. apply Hb. now rewrite Hw.
  - intros (pre & m & sp & marks & -> & Hci & Hs & Hm & Hb).
    exists pre, m, (sp ++ marks)%string. repeat split; auto.
    + intros Hw. apply Hb. now destruct (JS.includes word " ").
    + apply onlyPunctuationLeft_spec. now exists sp, marks.
Qed.

(** *** Where the word is cut off *)

Lemma toLowerCase_app (a b : string) :
  JS.toLowerCase (a ++ b) = (JS.toLowerCase a ++ JS.toLowerCase b)%string.
Proof. induction a as [|c a IH]; cbn; [reflexivity | now rewrite IH]. Qed.

Lemma toLowerCase_length (s : string) :
  String.length (JS.toLowerCase s) = String.length s.
Proof. induction s as [|c s IH]; cbn; [reflexivity | now rewrite IH]. Qed.

Lemma app_inj_length (a a' b b' : string) :
  (a ++ b = a' ++ b')%string -> String.length a = String.length a' ->
  a = a' /\ b = b'.
Proof.
  revert a'. induction a as [|c a IH]; intros [|c' a'] H Hl;
    try discriminate; [now split|].
  cbn in H, Hl. injection H as -> H. injection Hl as Hl.
  destruct (IH a' H Hl) as [-> ->]. now split.
Qed.

Lemma toLowerCase_piece (pre m rest : string) :
  JS.toLowerCase (pre ++ m ++ rest) = (pre ++ m ++ rest)%string ->
  JS.toLowerCase m = m.
Proof.
  rewrite !toLowerCase_app. intros H.
  apply app_inj_length in H as [_ H]; [|apply toLowerCase_length].
  apply app_inj_length in H as [H _]; [exact H | apply toLowerCase_length].
Qed.

Lemma lastIndexOf_from_includes (p : string) :
  forall (s : string) (i : Z),
    0 <= i -> JS.includes s p = true -> 0 <= JS.lastIndexOf_from s p i.
Proof.
  induction s as [|c s IH]; intros i Hi H.
  - cbn [JS.includes] in H. rewrite orb_false_r in H.
    cbn [JS.lastIndexOf_from]. now rewrite H.
  - cbn [JS.includes] in H. cbn [JS.lastIndexOf_from]. cbv zeta.
    destruct (0 <=? JS.lastIndexOf_from s p (i + 1)) eqn:E;
      [now apply Z.leb_le in E|].
    destruct (prefix p (String c s)) eqn:Ep; [exact Hi|].
    cbn [orb] in H. apply (IH (i + 1)) in H; [|lia].
    apply Z.leb_gt in E. lia.
Qed.

(** The safety check of the loop never fires: a command word that ends
    the lower-cased text occurs in it, in lower case. *)
Lemma endsText_lastIndexOf (text word : string) :
  JS.toLowerCase text = text -> endsText text word ->
  JS.lastIndexOf text (JS.toLowerCase word) <> -1.
Proof.
  intros Hlow (pre & m & sp & marks & Ht & Hci & _).
  assert (Hm : JS.toLowerCase m = m).
  { rewrite Ht in Hlow. now apply toLowerCase_piece in Hlow. }
  unfold ciEqString in Hci. apply String.eqb_eq in Hci. rewrite Hm in Hci.
  assert (Hin : JS.includes text (JS.toLowerCase word) = true).
  { apply includes_substring. exists pre, (sp ++ marks)%string.
    now rewrite <- Hci. }
  pose proof (lastIndexOf_from_includes _ text 0 (Z.le_refl 0) Hin) as H.
  unfold JS.lastIndexOf. lia.
Qed.

Lemma normalizedText_lower (transcript : string) :
  JS.toLowerCase (JS.trim (JS.toLowerCase transcript))
  = JS.trim (JS.toLowerCase transcript).
Proof. now rewrite toLowerCase_trim, toLowerCase_idem. Qed.

(** *** The loop over the command words *)

Section Loop.

Variable w : Services.
Variable transcript : string.

Let normalizedText := JS.trim (JS.toLowerCase transcript).

Let recognised (word : string) : Prop :=
  endsText normalizedText word /\
  CommandParser.type (parse w word) = CommandParser.command.

Lemma tryCommandWords_miss (word : string) (rest : list string) :
  ~ recognised word ->
  tryCommandWords w transcript normalizedText (word :: rest)
  = tryCommandWords w transcript normalizedText rest.
Proof.
  intros Hno. cbn [tryCommandWords].
  destruct (endsWithCommand normalizedText word) eqn:E; [|reflexivity].
  apply endsWithCommand_endsText in E.
  destruct (CommandParser.type (parse w word)) eqn:Ety.
  - now destruct (_ =? -1).
  - exfalso. apply Hno. now split.
Qed.

Lemma tryCommandWords_first (earlier : list string) (word : string)
  (later : list string) :
  (forall v, In v earlier -> ~ recognised v) ->
  recognised word ->
  tryCommandWords w transcript normalizedText (earlier ++ word :: later)
  = let before := textBefore transcript word in
    (if JS.isEmpty before then ret tt else typeFragment before) >>
    runCommand (CommandParser.value (parse w word)) transcript >>
    ret true.
Proof.
  intros Hearlier [Hends Hty].
  induction earlier as [|v earlier IH].
  - cbn [app]. apply tryCommandWords_hit.
    + now apply endsWithCommand_endsText.
    + apply endsText_lastIndexOf; [apply normalizedText_lower | exact Hends].
    + exact Hty.
  - cbn [app]. rewrite tryCommandWords_miss by (apply Hearlier; now left).
    apply IH. intros v' Hv'. apply Hearlier. now right.
Qed.

Lemma tryCommandWords_none (words : list string) (c : Controller) :
  (forall v, In v words -> ~ recognised v) ->
  tryCommandWords w transcript normalizedText words c = (c, [], Done false).
Proof.
  induction words as [|v words IH]; intros Hno; [reflexivity|].
  rewrite tryCommandWords_miss by (apply Hno; now left).
  apply IH. intros v' Hv'. apply Hno. now right.
Qed.

End Loop.

(** What the loop does at the word it recognises. *)
Lemma command_run (before token transcript : string) (c : Controller) :
  exists c' tr,
    ((if JS.isEmpty before then ret tt else typeFragment before) >>
     runCommand token transcript >> ret true) c = (c', tr, Done true) /\
    typedTexts tr =
      (if JS.isEmpty before then []
       else [(separator (finalTextBuffer c) ++ before)%string]) /\
    executedCommands tr = [token].
Proof.
  destruct (JS.isEmpty before).
  - destruct (runCommand_run token transcript c)
      as (c' & tr & Hrun & Ht & He & _).
    eexists _, _. split.
    + eapply bind_Done; [reflexivity|].
      eapply bind_Done; [exact Hrun | reflexivity].
    + cbn [app]. rewrite app_nil_r. auto.
  - destruct (runCommand_run token transcript
                (with_buffers c (lastInterimText c)
                   (finalTextBuffer c ++ separator (finalTextBuffer c)
                      ++ before)%string))
      as (c' & tr & Hrun & Ht & He & _).
    eexists _, _. split.
    + eapply bind_Done; [apply typeFragment_run|].
      eapply bind_Done; [exact Hrun | reflexivity].
    + rewrite app_nil_r, typedTexts_app, executedCommands_app, Ht, He.
      cbn. auto.
Qed.

(** *** The three ways through the fallback grammar *)

Lemma standardProcessing_unfold (w : Services) (t : string) (c : Controller) :
  voiceCommands c = true ->
  standardProcessing w t c =
    (let! returned :=
       match CommandParser.type (parse w t) with
       | CommandParser.command =>
           runCommand (CommandParser.value (parse w t))
             (CommandParser.originalText (parse w t)) >>
           ret true
       | CommandParser.text =>
           tryCommandWords w t (JS.trim (JS.toLowerCase t)) commandWords
       end in
     if (returned : bool) then ret tt
     else
       typeFragment t >>
       tell (Indicator "success") >>
       emit (textEvent t)) c.
Proof.
  intros Hvc. unfold standardProcessing. rewrite bind_get_run.
  now rewrite Hvc.
Qed.

Lemma standardProcessing_whole (w : Services) (t : string) (c : Controller) :
  voiceCommands c = true ->
  CommandParser.type (parse w t) = CommandParser.command ->
  exists c' tr,
    standardProcessing w t c = (c', tr, Done tt) /\
    typedTexts tr = [] /\
    executedCommands tr = [CommandParser.value (parse w t)].
Proof.
  intros Hvc Hty. rewrite (standardProcessing_unfold w t c Hvc), Hty.
  destruct (runCommand_run (CommandParser.value (parse w t))
              (CommandParser.originalText (parse w t)) c)
    as (c' & tr & Hcmd & Ht & He & _).
  eexists _, _. split.
  - eapply bind_Done;
      [eapply bind_Done; [exact Hcmd | reflexivity] | reflexivity].
  - rewrite !app_nil_r. auto.
Qed.

Lemma standardProcessing_trailing (w : Services) (t : string)
  (c : Controller) (earlier : list string) (word : string)
  (later : list string) :
  voiceCommands c = true ->
  CommandParser.type (parse w t) = CommandParser.text ->
  commandWords = earlier ++ word :: later ->
  (forall v, In v earlier ->
     ~ (endsText (JS.trim (JS.toLowerCase t)) v /\
        CommandParser.type (parse w v) = CommandParser.command)) ->
  endsText (JS.trim (JS.toLowerCase t)) word /\
  CommandParser.type (parse w word) = CommandParser.command ->
  exists c' tr,
    standardProcessing w t c = (c', tr, Done tt) /\
    typedTexts tr =
      (if JS.isEmpty (textBefore t word) then []
       else [(separator (finalTextBuffer c) ++ textBefore t word)%string]) /\
    executedCommands tr = [CommandParser.value (parse w word)].
Proof.
  intros Hvc Hty Hsplit Hearlier Hword.
  rewrite (standardProcessing_unfold w t c Hvc), Hty, Hsplit.
  rewrite (tryCommandWords_first w t earlier word later Hearlier Hword).
  cbv zeta.
  destruct (command_run (textBefore t word)
              (CommandParser.value (parse w word)) t c)
    as (c' & tr & Hcmd & Ht & He).
  eexists _, _. split.
  - eapply bind_Done; [exact Hcmd | reflexivity].
  - rewrite app_nil_r. auto.
Qed.

Lemma standardProcessing_text (w : Services) (t : string) (c : Controller) :
  voiceCommands c = true ->
  CommandParser.type (parse w t) = CommandParser.text ->
  (forall v, In v commandWords ->
     ~ (endsText (JS.trim (JS.toLowerCase t)) v /\
        CommandParser.type (parse w v) = CommandParser.command)) ->
  exists c' tr,
    standardProcessing w t c = (c', tr, Done tt) /\
    typedTexts tr = [(separator (finalTextBuffer c) ++ t)%string] /\
    executedCommands tr = [].
Proof.
  intros Hvc Hty Hno.
  rewrite (standardProcessing_unfold w t c Hvc), Hty.
  eexists _, _. split.
  - eapply bind_Done;
      [exact (tryCommandWords_none w t commandWords c Hno)|].
    cbv beta iota.
    eapply bind_Done; [apply typeFragment_run | reflexivity].
  - cbn. auto.
Qed.

(** C2, as the code has it. With voice commands enabled the fallback
    grammar does one of three things with a transcript.
    - When the parser takes the whole transcript for a command, that
      command is executed and nothing is typed.
    - Otherwise the command words of the list are tried in order on the
      lower-cased, trimmed transcript. The first word that ends it,
      with only white space and then marks of [.!?,;:] behind it and,
      for a single word, a word boundary before it, and that the parser
      takes for a command, is recognised: that one command is executed,
      after the text before it is typed. That text is the transcript
      cut at the index at which the word last occurs in the lower-cased,
      trimmed transcript, then trimmed; it is typed when it is not
      empty.
    - When no word of the list is recognised, the whole transcript is
      typed and no command is executed.
    Command phrases further up stay in the typed text: for "Hello
    world. send it. tab", with a parser that takes "tab" for the command
    [tab] and does not take the whole sentence for a command, the typed
    text is "Hello world. send it." and the commands are [tab] alone. *)
Theorem fallback_grammar_recognises_one_trailing_command
  (w : Services) (transcript : string) (c : Controller) :
  voiceCommands c = true ->
  let normalizedText := JS.trim (JS.toLowerCase transcript) in
  let recognised := fun word =>
    endsText normalizedText word /\
    CommandParser.type (parse w word) = CommandParser.command in
  let typed := fun fragment =>
    [(separator (finalTextBuffer c) ++ fragment)%string] in
  let tr := snd (fst (standardProcessing w transcript c)) in
  snd (standardProcessing w transcript c) = Done tt /\
  (CommandParser.type (parse w transcript) = CommandParser.command ->
     typedTexts tr = [] /\
     executedCommands tr = [CommandParser.value (parse w transcript)]) /\
  (CommandParser.type (parse w transcript) = CommandParser.text ->
   forall earlier word later,
     commandWords = earlier ++ word :: later ->
     (forall v, In v earlier -> ~ recognised v) ->
     recognised word ->
     let before :=
       JS.trim (JS.substring transcript 0
                  (JS.lastIndexOf normalizedText (JS.toLowerCase word))) in
     typedTexts tr = (if JS.isEmpty before then [] else typed before) /\
     executedCommands tr = [CommandParser.value (parse w word)]) /\
  (CommandParser.type (parse w transcript) = CommandParser.text ->
   (forall v, In v commandWords -> ~ recognised v) ->
     typedTexts tr = typed transcript /\ executedCommands tr = []) /\
  (CommandParser.type (parse w "Hello world. send it. tab")
     = CommandParser.text ->
   CommandParser.type (parse w "tab") = CommandParser.command ->
   CommandParser.value (parse w "tab") = "tab" ->
   let tr := snd (fst (standardProcessing w "Hello world. send it. tab" c)) in
   typedTexts tr = typed "Hello world. send it." /\
   executedCommands tr = ["tab"]).
Proof.
  intros Hvc normalizedText recognised typed tr.
  split; [|split; [|split; [|split]]].
  - (* the call returns *)
    pose proof (standardProcessing_run w transcript c Hvc) as H.
    destruct (standardProcessing w transcript c) as [[c' tr'] r].
    now destruct H as [-> _].
  - (* the whole transcript is a command *)
    intros Hty.
    destruct (standardProcessing_whole w transcript c Hvc Hty)
      as (c' & tr' & Hrun & H).
    subst tr. rewrite Hrun. exact H.
  - (* a command word ends it *)
    intros Hty earlier word later Hsplit Hearlier Hword before.
    destruct (standardProcessing_trailing w transcript c earlier word later
                Hvc Hty Hsplit Hearlier Hword)
      as (c' & tr' & Hrun & H).
    subst tr. rewrite Hrun. exact H.
  - (* no command *)
    intros Hty Hno.
    destruct (standardProcessing_text w transcript c Hvc Hty Hno)
      as (c' & tr' & Hrun & H).
    subst tr. rewrite Hrun. exact H.
  - (* the example *)
    intros Hwhole Htab Hval tr0. subst tr0.
    assert (Hends : forall word,
      endsText (JS.trim (JS.toLowerCase "Hello world. send it. tab")) word ->
      endsWithCommand "hello world. send it. tab" word = true)
      by (intros word H; now apply endsWithCommand_endsText).
    destruct (standardProcessing_trailing w "Hello world. send it. tab" c
                ["new line"; "select all"; "question mark";
                 "exclamation mark"; "exclamation point";
                 "open parenthesis"; "close parenthesis";
                 "open bracket"; "close bracket";
                 "sent"; "send"; "enter"; "return"]
                "tab" ["backspace"; "delete"] Hvc Hwhole eq_refl)
      as (c' & tr' & Hrun & Ht & He).
    + intros v Hv [Hv1 _]. apply Hends in Hv1.
      repeat (destruct Hv as [<- | Hv]; [discriminate Hv1|]).
      contradiction.
    + split; [|exact Htab].
      apply endsWithCommand_endsText. reflexivity.
    + rewrite Hrun. cbn [fst snd]. rewrite Ht, He, Hval.
      split; reflexivity.
Qed.

(** The theorem with the parser of the examples and an empty
    accumulator. *)
Lemma fallback_grammar_hello_world_send_it_tab :
  let c := with_state fresh listening in
  let tr := snd (fst (standardProcessing granting
                        "Hello world. send it. tab" c)) in
  voiceCommands c = true /\
  typedTexts tr = ["Hello world. send it."] /\
  executedCommands tr = ["tab"].
Proof.
  intros c tr. split; [reflexivity|].
  destruct (fallback_grammar_recognises_one_trailing_command
              granting "Hello world. send it. tab" c eq_refl)
    as (_ & _ & _ & _ & H).
  exact (H eq_refl eq_refl eq_refl).
Defined.

(** C2 as stated fails on its own example: the fallback grammar types
    "Hello world. send it." and presses [tab] only, so the typed text
    contains the command phrase "send it", and [enter] is not among the
    commands. *)
Lemma fallback_grammar_leaves_send_it_in_text :
  let tr := snd (fst (processFinalTranscription granting
                        "Hello world. send it. tab" true
                        (with_state fresh listening))) in
  typedTexts tr = ["Hello world. send it."] /\
  executedCommands tr = ["tab"] /\
  JS.includes "Hello world. send it." "send it" = true /\
  typedTexts tr <> ["Hello world."] /\
  executedCommands tr <> ["enter"; "tab"].
Proof.
  vm_compute. repeat split; try reflexivity; discriminate.
Qed.

(** The cut is made in the transcript at an index of its lower-cased,
    trimmed form: white space in front of the transcript moves it to
    the left. *)
Example fallback_grammar_cut_after_leading_space :
  let tr := snd (fst (standardProcessing granting "  hello send"
                        (with_state fresh listening))) in
  typedTexts tr = ["hell"] /\ executedCommands tr = ["enter"].
Proof. vm_compute. split; reflexivity. Qed.

End SpeechRecognitionControllerGrammar.

(* ================================================================== *)
(** ** CrewAIAgent: the answer of the model *)
(* ================================================================== *)

Module CrewAIAgentParsing.

Import CrewAIAgent Words JSFacts.
Local Open Scope list_scope.

(** *** The JSON object inside the answer *)

Lemma extractJsonObject_framed (pre mid post : string) :
  JS.includes pre "{" = false ->
  JS.includes post "}" = false ->
  extractJsonObject (pre ++ "{" ++ mid ++ "}" ++ post)%string
  = Return ("{" ++ mid ++ "}")%string.
Proof.
  intros Hpre Hpost. unfold extractJsonObject.
  assert (Hne : JS.isEmpty (pre ++ "{" ++ mid ++ "}" ++ post)%string = false)
    by now destruct pre.
  rewrite Hne.
  set (n := String.length pre). set (m := String.length mid).
  assert (Hstart : JS.indexOf (pre ++ "{" ++ mid ++ "}" ++ post)%string "{"
                   = Z.of_nat n).
  { unfold JS.indexOf.
    exact (indexOf_from_char "{" pre (mid ++ String "}" post) 0 Hpre). }
  assert (Hend : JS.lastIndexOf (pre ++ "{" ++ mid ++ "}" ++ post)%string "}"
                 = Z.of_nat (n + S m)).
  { unfold JS.lastIndexOf.
    replace (pre ++ "{" ++ mid ++ "}" ++ post)%string
      with ((pre ++ String "{" mid) ++ String "}" post)%string
      by (rewrite string_app_assoc; reflexivity).
    rewrite (lastIndexOf_from_char "}" _ post 0 ltac:(lia) Hpost).
    rewrite string_length_app. reflexivity. }
  rewrite Hstart, Hend.
  replace (Z.of_nat n =? -1) with false by (symmetry; apply Z.eqb_neq; lia).
  replace (Z.of_nat (n + S m) =? -1) with false
    by (symmetry; apply Z.eqb_neq; lia).
  replace (Z.of_nat (n + S m) <=? Z.of_nat n) with false
    by (symmetry; apply Z.leb_gt; lia).
  cbn [orb]. f_equal. unfold JS.slice.
  replace (Z.to_nat (Z.of_nat n)) with n by lia.
  replace (Z.to_nat (Z.of_nat (n + S m) + 1 - Z.of_nat n))
    with (String.length (String "{" (mid ++ "}"))).
  2:{ cbn [String.length]. rewrite string_length_app.
      cbn [String.length]. subst m. lia. }
  subst n. rewrite drop_app.
  replace ("{" ++ mid ++ "}" ++ post)%string
    with (String "{" (mid ++ "}") ++ post)%string
    by (cbn [append]; now rewrite string_app_assoc).
  apply take_app.
Qed.

(** X4. [extractJsonObject] returns exactly when the text holds an
    opening brace with a closing brace somewhere after it, and what it
    returns is the text from the first opening brace to the last closing
    brace, both included: whatever the model writes before the first
    [{] and after the last [}] is cut off. *)
Theorem extractJsonObject_spec (text j : string) :
  extractJsonObject text = Return j <->
  exists pre mid post,
    text = (pre ++ "{" ++ mid ++ "}" ++ post)%string /\
    j = ("{" ++ mid ++ "}")%string /\
    JS.includes pre "{" = false /\
    JS.includes post "}" = false.
Proof.
  split.
  - intros H.
    assert (Hshape : exists pre mid post,
              text = (pre ++ "{" ++ mid ++ "}" ++ post)%string /\
              JS.includes pre "{" = false /\
              JS.includes post "}" = false).
    { unfold extractJsonObject in H.
      destruct (JS.isEmpty text); [discriminate|].
      destruct (JS.indexOf text "{" =? -1) eqn:E1; [discriminate|].
      destruct (JS.lastIndexOf text "}" =? -1) eqn:E2; [discriminate|].
      destruct (JS.lastIndexOf text "}" <=? JS.indexOf text "{") eqn:E3;
        [discriminate|].
      apply Z.eqb_neq in E1, E2. apply Z.leb_gt in E3.
      destruct (indexOf_from_found "{" text 0 _ eq_refl E1 ltac:(lia))
        as (pre & r & Ht & Hpre & Hi).
      destruct (lastIndexOf_from_found "}" text 0 _ eq_refl E2 ltac:(lia))
        as (a & post & Ht' & Hpost & Hl).
      unfold JS.indexOf, JS.lastIndexOf in E3. rewrite Hi, Hl in E3.
      rewrite Ht in Ht'.
      destruct (app_split pre (String "{" r) a (String "}" post) Ht'
                  ltac:(lia)) as (m & Ha & Hr & Hm).
      destruct m as [|x m]; [contradiction|].
      cbn [append] in Hr. injection Hr as <- ->.
      exists pre, m, post. rewrite Ht. auto. }
    destruct Hshape as (pre & mid & post & -> & Hpre & Hpost).
    rewrite (extractJsonObject_framed _ _ _ Hpre Hpost) in H.
    injection H as <-. exists pre, mid, post. auto.
  - intros (pre & mid & post & -> & -> & Hpre & Hpost).
    now apply extractJsonObject_framed.
Qed.

(** *** The markdown fence *)

Lemma prefix_longer (p q s : string) :
  prefix p s = false -> prefix (p ++ q) s = false.
Proof.
  revert s. induction p as [|a p IH]; intros s H.
  - now destruct s.
  - destruct s as [|b s]; [reflexivity|].
    simpl in H |- *. destruct (ascii_dec a b); [now apply IH | reflexivity].
Qed.

Lemma endsWith_app (a p : string) : endsWith (a ++ p) p = true.
Proof.
  unfold endsWith. rewrite string_length_app.
  replace (String.length a + String.length p - String.length p)%nat
    with (String.length a) by lia.
  rewrite drop_app, String.eqb_refl, andb_true_r.
  apply Nat.leb_le. lia.
Qed.

Lemma stripClosingFence_fenced (body ws : string) :
  allSpaces ws = true -> JS.trimEnd body = body ->
  stripClosingFence (body ++ ws ++ "```") = body.
Proof.
  intros Hws Hbody. unfold stripClosingFence.
  rewrite <- string_app_assoc, endsWith_app, string_length_app.
  replace (String.length (body ++ ws) + String.length "```" - 3)%nat
    with (String.length (body ++ ws)) by (cbn [String.length]; lia).
  rewrite take_app, trimEnd_app_spaces by assumption. exact Hbody.
Qed.

Lemma stripCodeFence_fenced (ws1 body ws2 : string) :
  allSpaces ws1 = true -> allSpaces ws2 = true ->
  JS.trimStart body = body -> JS.trimEnd body = body ->
  stripCodeFence ("```json" ++ ws1 ++ body ++ ws2 ++ "```") = body.
Proof.
  intros H1 H2 Hs He. unfold stripCodeFence, JS.startsWith.
  rewrite prefix_app_self.
  change 7%nat with (String.length "```json"). rewrite drop_app.
  rewrite trimStart_spaces by assumption.
  destruct body as [|c body].
  - cbn [append]. rewrite trimStart_spaces by assumption.
    reflexivity.
  - pose proof (trimStart_fixed _ _ Hs) as Hc.
    cbn [append JS.trimStart]. rewrite Hc.
    now apply (stripClosingFence_fenced (String c body)).
Qed.

Lemma trim_fenced (x : string) :
  JS.trim ("```json" ++ x ++ "```") = ("```json" ++ x ++ "```")%string.
Proof.
  unfold JS.trim.
  change (JS.trimStart ("```json" ++ x ++ "```"))
    with ("```json" ++ x ++ "```")%string.
  rewrite <- string_app_assoc.
  apply trimEnd_app_fixed; [discriminate | reflexivity].
Qed.

Section Fence.

Variable JSON_parse : string -> option Json.
Variable usageRecorded : bool.

(** X5. A markdown fence around the answer changes nothing: an answer
    wrapped in [```json ... ```], with any white space inside the
    fence, is analysed to the same result as the answer itself. *)
Theorem analyze_sees_through_code_fence
  (agent : Agent) (transcribedText ws1 body ws2 : string)
  (usage : option Z) :
  allSpaces ws1 = true -> allSpaces ws2 = true ->
  JS.trimStart body = body -> JS.trimEnd body = body ->
  JS.startsWith body "```" = false ->
  analyze JSON_parse usageRecorded agent transcribedText
    (Answered (Some ("```json" ++ ws1 ++ body ++ ws2 ++ "```")%string) usage)
  = analyze JSON_parse usageRecorded agent transcribedText
      (Answered (Some body) usage).
Proof.
  intros H1 H2 Hs He Hplain.
  assert (Hfenced :
    stripCodeFence (JS.trim ("```json" ++ ws1 ++ body ++ ws2 ++ "```"))
    = stripCodeFence (JS.trim body)).
  { replace ("```json" ++ ws1 ++ body ++ ws2 ++ "```")%string
      with ("```json" ++ (ws1 ++ body ++ ws2) ++ "```")%string
      by (now rewrite !string_app_assoc).
    rewrite trim_fenced.
    replace ("```json" ++ (ws1 ++ body ++ ws2) ++ "```")%string
      with ("```json" ++ ws1 ++ body ++ ws2 ++ "```")%string
      by (now rewrite !string_app_assoc).
    rewrite stripCodeFence_fenced by assumption.
    unfold JS.trim. rewrite Hs, He.
    unfold stripCodeFence.
    assert (Hj : JS.startsWith body "```json" = false)
      by exact (prefix_longer "```" "json" body Hplain).
    now rewrite Hj, Hplain. }
  unfold analyze, analyze_try. cbn [bind fst snd].
  now rewrite Hfenced.
Qed.

End Fence.

(** The theorem at an answer fenced with one line feed on each side. *)
Lemma analyze_sees_through_code_fence_enter :
  let parse := fun _ : string =>
    Some (JObject [("text", JString "Hello."); ("commands", JArray [JString "send it"])]) in
  let agent := {| enabled := true; groqClient := true |} in
  let body := "{}"%string in
  analyze parse true agent "Hello. Send it."
    (Answered (Some ("```json" ++ String "010" "" ++ body ++ String "010" "" ++ "```")%string) None)
  = analyze parse true agent "Hello. Send it." (Answered (Some body) None).
Proof.
  apply analyze_sees_through_code_fence; reflexivity.
Defined.

End CrewAIAgentParsing.

(* ================================================================== *)
(** ** CrewAIAgent: the commands of the answer *)
(* ================================================================== *)

Module CrewAIAgentCommands.

Import CrewAIAgent Words JSFacts.
Local Open Scope list_scope.

Lemma assoc_In {V} (k : string) (table : list (string * V)) (v : V) :
  assoc k table = Some v -> In v (map snd table).
Proof.
  induction table as [|[k' v'] table IH]; [discriminate|].
  cbn [assoc map snd]. destruct (String.eqb k k').
  - intros [= ->]. now left.
  - intros H. right. now apply IH.
Qed.

Lemma table_tokens_are_fixed (v : string) :
  In v (map snd variations) \/ In v (map snd commandMapping) ->
  normalizeCommand (JString v) = Some (Key v).
Proof.
  intros [H|H]; cbn in H;
    repeat (destruct H as [<-|H]; [reflexivity|]); contradiction.
Qed.

Lemma includes_nonempty (s p : string) :
  JS.includes s p = true -> p <> "" -> s <> "".
Proof.
  intros H Hp ->. destruct p; [contradiction | discriminate].
Qed.

(** X6. The normaliser is idempotent: a token it returns for a command
    of the model's answer is a token it returns unchanged. What reaches
    the controller is therefore in the canonical spelling already. *)
Theorem normalizeCommand_idempotent (cmd token : string) :
  normalizeCommand (JString cmd) = Some (Key token) ->
  normalizeCommand (JString token) = Some (Key token).
Proof.
  unfold normalizeCommand at 1.
  destruct (JS.isEmpty cmd); [discriminate|].
  set (normalized := JS.trim (JS.toLowerCase cmd)).
  assert (Hfix : JS.trim (JS.toLowerCase normalized) = normalized).
  { subst normalized.
    now rewrite toLowerCase_trim, toLowerCase_idem, trim_idem. }
  destruct (assoc normalized variations) as [v|] eqn:Ev.
  { intros [= <-]. apply table_tokens_are_fixed. left.
    exact (assoc_In _ _ _ Ev). }
  destruct (member normalized inheritedNames) eqn:Ei; [discriminate|].
  destruct (assoc normalized commandMapping) as [v|] eqn:Em.
  { intros [= <-]. apply table_tokens_are_fixed. right.
    exact (assoc_In _ _ _ Em). }
  destruct (JS.includes normalized "ctrl+" || JS.includes normalized "shift+"
            || JS.includes normalized "alt+") eqn:Emod.
  - intros [= <-]. unfold normalizeCommand.
    assert (Hne : JS.isEmpty normalized = false).
    { destruct normalized; [discriminate Emod | reflexivity]. }
    now rewrite Hne, Hfix, Ev, Ei, Em, Emod.
  - destruct (member normalized validSimpleKeys) eqn:Ek; [|discriminate].
    intros [= <-]. unfold normalizeCommand.
    assert (Hne : JS.isEmpty normalized = false).
    { destruct normalized; [discriminate Ek | reflexivity]. }
    now rewrite Hne, Hfix, Ev, Ei, Em, Emod, Ek.
Qed.

(** The theorem at a command in mixed case with white space around it. *)
Lemma normalizeCommand_idempotent_send_it :
  normalizeCommand (JString " Send It ") = Some (Key "enter")
  /\ normalizeCommand (JString "enter") = Some (Key "enter").
Proof.
  split; [reflexivity|].
  apply (normalizeCommand_idempotent " Send It "). reflexivity.
Defined.

End CrewAIAgentCommands.

(* ================================================================== *)
(** ** GroqSTTClient: what every run keeps true *)
(* ================================================================== *)

Module GroqSTTClientInvariants.

Import GroqSTTClient GroqSTTClientRuns.
Local Open Scope list_scope.

(** *** Audio is conserved while the session stays open *)

Lemma concat_snoc (l : list Buffer.t) (d : Buffer.t) :
  Buffer.concat (l ++ [d]) = Buffer.concat l ++ d.
Proof.
  unfold Buffer.concat. rewrite concat_app. cbn. now rewrite app_nil_r.
Qed.

Lemma isNil_snoc {A} (l : list A) (x : A) : isNil (l ++ [x]) = false.
Proof. now destruct l. Qed.

Lemma sendAudio_conserves (d : Buffer.t) (now : Z) (s : State) :
  open_invariant s ->
  let '(s1, e1, ok) := sendAudio d now s in
  open_invariant s1 /\
  Buffer.concat (blobs e1) ++ Buffer.concat (audioBuffer s1)
  = Buffer.concat (audioBuffer s) ++ (if ok then d else []).
Proof.
  intros (Hbuf & Hcl & Hst). unfold open_invariant, sendAudio.
  destruct (isConnected s) eqn:Ec; cbn [negb];
    [|cbn; rewrite app_nil_r; repeat split; intros; auto; congruence].
  specialize (Hcl eq_refl).
  destruct (isNil d);
    [cbn; rewrite app_nil_r; repeat split; intros; congruence|].
  cbn [with_buffer bufferStartTime bufferDuration isProcessing].
  destruct ((bufferDuration s <=? _) && negb (isProcessing s)) eqn:Et.
  - apply andb_prop in Et as [_ Ep]. apply negb_true_iff in Ep.
    unfold processBuffer. cbn [audioBuffer with_buffer isProcessing].
    rewrite isNil_snoc, Ep. cbn [orb].
    destruct (Wav.createWavBuffer _); cbn; rewrite !app_nil_r;
      rewrite concat_snoc; repeat split; intros; congruence.
  - cbn. rewrite concat_snoc. repeat split; intros; congruence.
Qed.

Lemma step_conserves (a : Action) (s : State) :
  isStop a = false -> open_invariant s ->
  let '(s1, e1) := step a s in
  open_invariant s1 /\
  Buffer.concat (blobs e1) ++ Buffer.concat (audioBuffer s1)
  = Buffer.concat (audioBuffer s) ++ Buffer.concat (acceptedIn [a] s).
Proof.
  intros Ha Hinv.
  destruct a as [now | d now | r | now];
    [| | |discriminate]; cbn [step acceptedIn].
  - (* startSession *)
    destruct Hinv as (Hbuf & Hcl & Hst). unfold open_invariant, startSession.
    destruct (groqClient s) eqn:Eg; cbn [negb andb].
    + destruct (isConnected s) eqn:Ec; cbn; rewrite ?app_nil_r;
        [|rewrite (Hbuf eq_refl)]; repeat split; intros; congruence.
    + assert (Ec : isConnected s = false)
        by (destruct (isConnected s); [specialize (Hcl eq_refl)|]; congruence).
      rewrite Ec. destruct (JS.isEmpty (apiKey s)); cbn;
        rewrite (Hbuf Ec); repeat split; intros; congruence.
  - (* sendAudio *)
    pose proof (sendAudio_conserves d now s Hinv) as H.
    destruct (sendAudio d now s) as [[s1 e1] ok]. cbn [snd].
    destruct H as [H1 H2]. split; [assumption|]. rewrite H2.
    destruct ok; unfold Buffer.concat; cbn; now rewrite ?app_nil_r.
  - (* the request settles *)
    destruct Hinv as (Hbuf & Hcl & Hst).
    unfold open_invariant, transcriptionSettled.
    destruct (awaitingAnswer s) as [f|].
    + rewrite Hst. cbn. rewrite GroqSTTClientFacts.deliver_no_blob.
      cbn. rewrite app_nil_r. repeat split; auto.
    + cbn. rewrite app_nil_r. repeat split; auto.
Qed.

Lemma acceptedIn_cons (a : Action) (acts : list Action) (s : State) :
  acceptedIn (a :: acts) s = acceptedIn [a] s ++ acceptedIn acts (fst (step a s)).
Proof.
  cbn [acceptedIn]. destruct a; try reflexivity.
  now destruct (snd (sendAudio audioData now s)).
Qed.

Lemma run_conserves (acts : list Action) :
  forall s : State,
    forallb (fun a => negb (isStop a)) acts = true ->
    open_invariant s ->
    let '(s1, e1) := run acts s in
    Buffer.concat (blobs e1) ++ Buffer.concat (audioBuffer s1)
    = Buffer.concat (audioBuffer s) ++ Buffer.concat (acceptedIn acts s).
Proof.
  induction acts as [|a acts IH]; intros s Hns Hinv.
  - cbn. now rewrite app_nil_r.
  - cbn [forallb] in Hns. apply andb_prop in Hns as [Ha Hns].
    apply negb_true_iff in Ha.
    pose proof (step_conserves a s Ha Hinv) as Hstep.
    rewrite acceptedIn_cons. cbn [run].
    destruct (step a s) as [s1 e1]. destruct Hstep as [Hinv1 Hstep].
    specialize (IH s1 Hns Hinv1). cbn [fst].
    destruct (run acts s1) as [s2 e2].
    rewrite GroqSTTClientFacts.blobs_app.
    unfold Buffer.concat in *. rewrite !concat_app.
    rewrite <- app_assoc, IH, app_assoc, Hstep, <- app_assoc.
    reflexivity.
Qed.

(** X7. No audio is lost while the session stays open. In a run of a
    new client without [stopSession], the audio handed to the flushes,
    followed by the audio still buffered, is the audio of the chunks
    [sendAudio] accepted, byte for byte and in the order of arrival. *)
Theorem audio_is_conserved (key : string) (duration : Z)
  (acts : list Action) :
  forallb (fun a => negb (isStop a)) acts = true ->
  let '(s, tr) := run acts (create key duration) in
  Buffer.concat (blobs tr) ++ Buffer.concat (audioBuffer s)
  = Buffer.concat (acceptedIn acts (create key duration)).
Proof.
  intros Hns.
  pose proof (run_conserves acts (create key duration) Hns) as H.
  destruct (run acts (create key duration)) as [s tr].
  apply H. repeat split; auto; discriminate.
Qed.

(** The theorem at a run with a flush, a rejected request and an empty
    chunk. *)
Lemma audio_is_conserved_three_chunks :
  let acts := [StartSession 0; SendAudio [Byte.x01] 1000;
               SendAudio [Byte.x02] 3000; SendAudio [Byte.x03] 3500;
               Settle (Rejected "503"); SendAudio [] 3600;
               SendAudio [Byte.x04] 3700] in
  let '(s, tr) := run acts (create "key" 3000) in
  Buffer.concat (blobs tr) ++ Buffer.concat (audioBuffer s)
  = Buffer.concat (acceptedIn acts (create "key" 3000)).
Proof.
  apply (audio_is_conserved "key" 3000). reflexivity.
Defined.

(** *** One request at a time *)

Lemma written_app (e1 e2 : list Effect) :
  written (e1 ++ e2) = written e1 ++ written e2.
Proof.
  induction e1 as [|x e1 IH]; simpl; [reflexivity|].
  destruct x; simpl; now rewrite IH.
Qed.

Lemma unlinked_app (e1 e2 : list Effect) :
  unlinked (e1 ++ e2) = unlinked e1 ++ unlinked e2.
Proof.
  induction e1 as [|x e1 IH]; simpl; [reflexivity|].
  destruct x; simpl; now rewrite IH.
Qed.

Lemma submitted_app (e1 e2 : list Effect) :
  submitted (e1 ++ e2) = submitted e1 ++ submitted e2.
Proof.
  induction e1 as [|x e1 IH]; simpl; [reflexivity|].
  destruct x; simpl; now rewrite IH.
Qed.

Lemma deliver_files (f : Z) (a : Answer) :
  written (deliver f a) = [] /\ unlinked (deliver f a) = [f]
  /\ submitted (deliver f a) = [].
Proof.
  destruct a as [[j|]|m]; cbn; auto.
  destruct (nonBlank (text j)); cbn; auto.
  destruct (truthy (language j)); cbn; auto.
  destruct (language j); cbn; auto.
Qed.

Lemma files_balance_frame (s s1 s2 : State) (e0 e1 e2 : list Effect) :
  files_balance s s1 e1 -> quiet e0 -> quiet e2 ->
  awaitingAnswer s2 = awaitingAnswer s1 ->
  isProcessing s2 = isProcessing s1 ->
  files_balance s s2 (e0 ++ e1 ++ e2).
Proof.
  intros (H1 & H2 & H3) (W0 & U0 & S0) (W2 & U2 & S2) Ha Hp.
  unfold files_balance, flight_invariant, pending in *.
  rewrite !written_app, !unlinked_app, !submitted_app.
  rewrite W0, U0, S0, W2, U2, S2, Ha, Hp, !app_nil_r. cbn. auto.
Qed.

Lemma files_balance_quiet (s s1 : State) (e1 : list Effect) :
  flight_invariant s -> quiet e1 ->
  awaitingAnswer s1 = awaitingAnswer s ->
  isProcessing s1 = isProcessing s ->
  files_balance s s1 e1.
Proof.
  intros Hinv Hq Ha Hp.
  rewrite <- (app_nil_r e1). change (e1 ++ []) with (e1 ++ [] ++ []).
  apply (files_balance_frame s s s1 e1 [] []); auto.
  - unfold files_balance. cbn. rewrite app_nil_r. auto.
  - repeat split.
Qed.

Lemma processBuffer_files (now : Z) (s : State) :
  flight_invariant s ->
  let '(s1, e1) := processBuffer now s in files_balance s s1 e1.
Proof.
  intros Hinv. unfold processBuffer.
  destruct (isNil (audioBuffer s)); cbn [orb];
    [apply files_balance_quiet; repeat split; auto|].
  destruct (isProcessing s) eqn:Ep;
    [apply files_balance_quiet; repeat split; auto|].
  unfold files_balance, pending at 1. rewrite (Hinv Ep).
  destruct (Wav.createWavBuffer _); cbn; repeat split; auto; discriminate.
Qed.

Lemma step_files (a : Action) (s : State) :
  flight_invariant s ->
  let '(s1, e1) := step a s in files_balance s s1 e1.
Proof.
  intros Hinv. destruct a as [now | d now | r | now]; cbn [step].
  - unfold startSession.
    destruct (negb (groqClient s) && JS.isEmpty (apiKey s));
      [apply files_balance_quiet; repeat split; auto|].
    destruct (groqClient s), (isConnected s);
      apply files_balance_quiet; repeat split; auto.
  - unfold sendAudio.
    destruct (isConnected s); cbn [negb];
      [|apply files_balance_quiet; repeat split; auto].
    destruct (isNil d); [apply files_balance_quiet; repeat split; auto|].
    destruct (_ && _); [|apply files_balance_quiet; repeat split; auto].
    pose proof (processBuffer_files now
      (with_buffer s (audioBuffer s ++ [d]) (bufferStartTime s)) Hinv) as H.
    destruct (processBuffer now _) as [s2 e2]. exact H.
  - unfold transcriptionSettled.
    destruct (awaitingAnswer s) as [f|] eqn:Ef;
      [|apply files_balance_quiet; repeat split; auto].
    destruct (deliver_files f r) as (Hw & Hu & Hs).
    destruct (stopAwaitingFlush s); cbn;
      unfold files_balance, flight_invariant, pending;
      rewrite ?written_app, ?unlinked_app, ?submitted_app, Ef, Hw, Hu, Hs;
      cbn; repeat split; auto.
  - unfold stopSession.
    destruct (isConnected s); cbn [negb];
      [|apply files_balance_quiet; repeat split; auto].
    destruct (isNil (audioBuffer s)); cbn [negb].
    + cbn. apply files_balance_quiet; repeat split; auto.
    + pose proof (processBuffer_files now s Hinv) as H.
      destruct (processBuffer now s) as [s1 e1].
      destruct (negb (isProcessing s) && isProcessing s1).
      * rewrite <- (app_nil_r (_ ++ e1)), <- app_assoc.
        apply (files_balance_frame s s1 _ _ e1 _ H); repeat split.
      * cbn [stopSession_finish].
        apply (files_balance_frame s s1 _ _ e1 _ H); repeat split.
Qed.

Lemma run_files (acts : list Action) :
  forall s : State,
    flight_invariant s ->
    let '(s1, e1) := run acts s in files_balance s s1 e1.
Proof.
  induction acts as [|a acts IH]; intros s Hinv.
  - unfold files_balance. cbn. now rewrite app_nil_r.
  - cbn [run]. pose proof (step_files a s Hinv) as Hstep.
    destruct (step a s) as [s1 e1]. destruct Hstep as (H1 & H2 & H3).
    specialize (IH s1 H1). destruct (run acts s1) as [s2 e2].
    destruct IH as (I1 & I2 & I3). unfold files_balance.
    rewrite written_app, unlinked_app, submitted_app.
    split; [assumption|]. split; [|congruence].
    rewrite app_assoc, H2, <- app_assoc, I2, app_assoc. reflexivity.
Qed.

(** X8. Requests never overlap and no temporary file is left behind.
    In every run of a new client, each file written is submitted once,
    and the files removed are the files written, in the same order,
    except for the file of the request in flight at the end of the run;
    so a file is removed before the next one is written, and when no
    request is in flight, every file is gone. *)
Theorem temp_files_are_removed (key : string) (duration : Z)
  (acts : list Action) :
  let '(s, tr) := run acts (create key duration) in
  written tr = unlinked tr ++ pending s /\
  submitted tr = written tr /\
  (isProcessing s = false -> unlinked tr = written tr).
Proof.
  pose proof (run_files acts (create key duration)) as H.
  destruct (run acts (create key duration)) as [s tr].
  destruct H as (Hinv & Hbal & Hsub); [intros _; reflexivity|].
  cbn in Hbal. repeat split; try assumption.
  intros Hp. unfold pending in Hbal. rewrite (Hinv Hp) in Hbal.
  now rewrite app_nil_r in Hbal.
Qed.

(** *** What is uploaded *)








End GroqSTTClientInvariants.

(* ================================================================== *)
(** ** GroqSTTClient: the final flush *)
(* ================================================================== *)

Module GroqSTTClientStopping.

Import GroqSTTClient GroqSTTClientRuns.
Local Open Scope list_scope.

(** X10. Stopping with no request in flight loses nothing. On a
    connected client that buffers audio and is not transcribing,
    [stopSession()] hands the whole buffer to one final flush, and
    [close] is the last event: when the WAV file can be written, the
    events before it are those of the final transcription, so the last
    words arrive before the session closes. The client ends
    disconnected with an empty buffer and no request in flight. *)
Theorem stopSession_flushes_the_rest (s : State) (now : Z) (a : Answer) :
  isConnected s = true ->
  isProcessing s = false ->
  stopAwaitingFlush s = false ->
  audioBuffer s <> [] ->
  let '(s', tr) := stopSession_awaited now a s in
  blobs tr = [Buffer.concat (audioBuffer s)] /\
  (exists before, emitted tr = before ++ [Close] /\
     (Wav.createWavBuffer (Buffer.concat (audioBuffer s)) <> None ->
      before = emitted (deliver now a))) /\
  isConnected s' = false /\ audioBuffer s' = [] /\
  isProcessing s' = false /\ stopAwaitingFlush s' = false.
Proof.
  intros Hc Hp Hs Hb.
  unfold stopSession_awaited, stopSession. rewrite Hc, Hs. cbn [negb andb].
  destruct (audioBuffer s) as [|c cs] eqn:Eb; [contradiction|].
  cbn [isNil negb]. unfold processBuffer. rewrite Eb, Hp. cbn [isNil orb].
  destruct (Wav.createWavBuffer (Buffer.concat (c :: cs))) as [wav|] eqn:Ew.
  - cbn -[deliver Buffer.concat].
    rewrite !GroqSTTClientFacts.blobs_app, !GroqSTTClientFacts.emitted_app,
      GroqSTTClientFacts.deliver_no_blob.
    cbn -[deliver Buffer.concat].
    split; [reflexivity|]. split; [|auto].
    exists (emitted (deliver now a)). split; auto.
  - cbn -[Buffer.concat]. rewrite Hs. cbn -[Buffer.concat].
    split; [reflexivity|]. split; [|auto].
    exists [ErrorEvent "RangeError"]. split; [reflexivity|].
    intros H. now elim H.
Qed.

(** The theorem at a session that holds two chunks when it is stopped. *)
Lemma stopSession_flushes_the_rest_two_chunks :
  let s := fst (run [StartSession 0; SendAudio [Byte.x01] 100;
                     SendAudio [Byte.x02; Byte.x03] 200]
                  (create "key" 3000)) in
  let '(s', tr) :=
    stopSession_awaited 300
      (Resolved (Some {| text := Some "bye"; language := None |})) s in
  blobs tr = [[Byte.x01; Byte.x02; Byte.x03]] /\
  emitted tr = [Transcription "bye" true None; Close].
Proof.
  cbv zeta.
  match goal with
  | |- let '(_, _) := stopSession_awaited ?n ?a ?s in _ =>
      pose proof (stopSession_flushes_the_rest s n a
                    eq_refl eq_refl eq_refl ltac:(discriminate)) as H;
      destruct (stopSession_awaited n a s) as [s' tr]
  end.
  destruct H as (H1 & (before & H2 & H3) & _).
  split; [exact H1|].
  rewrite H2, (H3 ltac:(vm_compute; discriminate)). reflexivity.
Defined.

End GroqSTTClientStopping.

(* ================================================================== *)
(** ** SpeechRecognitionController: starting, stopping, typing *)
(* ================================================================== *)

Module SpeechRecognitionControllerFlows.

Import SpeechRecognitionController SpeechRecognitionControllerFacts.
Import SpeechRecognitionControllerTraces.
Local Open Scope list_scope.

Lemma Phase_eqb_neq (a b : Phase) : a <> b -> Phase_eqb a b = false.
Proof. destruct a, b; intros H; try reflexivity; now elim H. Qed.

Lemma controller_emitted_app (e1 e2 : list Effect) :
  emitted (e1 ++ e2) = emitted e1 ++ emitted e2.
Proof.
  induction e1 as [|x e1 IH]; [reflexivity|].
  destruct x; cbn; now rewrite ?IH.
Qed.

(** *** A start that fails *)

(** The cases of a [start()] that gets past its guard, one after the
    other. *)
Ltac start_cases w bg :=
  unfold start, bind, get, console, emit, tell; cbn [state Phase_eqb];
  destruct (isUserAuthenticated w);
    [destruct (checkPermission w "stt");
       [destruct (allowed (trackDeepgramUsage w));
          [destruct bg;
           (destruct (startSession w) as [msg|];
              [|destruct (microphoneStart w) as [msg|];
                  [unfold onMicrophoneError;
                   destruct (JS.includes msg "device not found")|]])
          |]
       |]
    |];
  vm_compute.

(** X11. A [start()] that throws never leaves the controller in the
    error state. Its [catch] emits the error with the thrown message and
    launches [stop()], which stops the microphone and the session and
    brings the controller back to [idle]; the last two events are a
    change of state to [idle] and [stopped]. Every ['error'] event
    carries the thrown message, and there are two of them when a
    listener of the session or of the microphone has handled the error
    before the [catch] does. *)
Theorem failed_start_ends_idle (w : Services) (c c' : Controller)
  (tr : list Effect) (message : string) :
  start w c = (c', tr, Raised message) ->
  state c' = idle /\
  In MicrophoneStop tr /\ In SttStopSession tr /\
  (exists from earlier,
     rev (emitted tr) = stopped :: stateChange from idle :: earlier) /\
  (errorMessages tr = [message] \/ errorMessages tr = [message; message]).
Proof.
  destruct c as [st bg li fb vc te ag tw].
  destruct st;
    [| unfold start, bind, get, console, tell; cbn; discriminate | | |];
    start_cases w bg; intros [= <- <- <-];
    (split; [reflexivity|]);
    (split; [repeat (first [left; reflexivity | right])|]);
    (split; [repeat (first [left; reflexivity | right])|]);
    (split; [eexists _, _; reflexivity|]);
    first [left; reflexivity | right; reflexivity].
Qed.

(** The theorem at a user who is not logged in. *)
Lemma failed_start_ends_idle_logged_out :
  let result := start loggedOut fresh in
  state (fst (fst result)) = idle /\
  errorMessages (snd (fst result)) =
    ["User not authenticated. Please login to use speech recognition."].
Proof.
  destruct (failed_start_ends_idle loggedOut fresh
              (fst (fst (start loggedOut fresh)))
              (snd (fst (start loggedOut fresh)))
              "User not authenticated. Please login to use speech recognition."
              eq_refl) as (H1 & _ & _ & _ & H2).
  split; [exact H1|].
  destruct H2 as [H2 | H2]; [exact H2 | discriminate H2].
Defined.

(** A microphone that fails to start: its listener and the [catch] of
    [start()] both handle the error before either [stop()] goes on, so
    the second [stop()] finds the controller idle already and reports a
    change from [idle] to [idle]. *)
Example failed_microphone_is_handled_twice :
  let w := {| isUserAuthenticated := true;
              checkPermission := fun _ => true;
              trackDeepgramUsage := trackDeepgramUsage granting;
              startSession := None;
              microphoneStart :=
                Some "Cannot create BrowserWindow before app is ready";
              translateToEnglish := fun _ => None;
              analyze := analyze granting;
              parse := CommandParser.parse |} in
  emitted (snd (fst (start w fresh))) =
    [stateChange idle listening;
     stateChange listening error;
     errorEvent "Cannot create BrowserWindow before app is ready";
     stateChange error error;
     errorEvent "Cannot create BrowserWindow before app is ready";
     stateChange error idle; stopped;
     stateChange idle idle; stopped].
Proof. reflexivity. Qed.

(** *** A start that succeeds *)

(** X12. Outside state [listening], [start()] returns normally exactly
    when the user is authenticated, entitled to STT and within quota
    and both the transcription session and the microphone start. The
    controller is then listening with both text buffers empty and
    background listening off, the session was started before the
    microphone, and [started] is the last event. *)
Theorem start_succeeds_exactly_when (w : Services) (c : Controller) :
  state c <> listening ->
  let c' := fst (fst (start w c)) in
  let tr := snd (fst (start w c)) in
  (snd (start w c) = Done tt <->
     isUserAuthenticated w = true /\ checkPermission w "stt" = true /\
     allowed (trackDeepgramUsage w) = true /\
     startSession w = None /\ microphoneStart w = None)
  /\
  (snd (start w c) = Done tt ->
     state c' = listening /\
     finalTextBuffer c' = "" /\ lastInterimText c' = "" /\
     backgroundListening c' = false /\
     filter isStart tr = [SttStartSession; MicrophoneStart] /\
     hd_error (rev (emitted tr)) = Some started).
Proof.
  intros Hs c' tr. subst c' tr.
  destruct c as [st bg li fb vc te ag tw]. simpl in Hs.
  destruct st; try contradiction;
    start_cases w bg; first [intuition discriminate | repeat split].
Qed.

(** The theorem at collaborators that let everything pass. *)
Lemma start_succeeds_exactly_when_granted :
  snd (start granting fresh) = Done tt /\
  state (fst (fst (start granting fresh))) = listening.
Proof.
  assert (Hs : state fresh <> listening) by discriminate.
  destruct (start_succeeds_exactly_when granting fresh Hs) as [Hiff Hpost].
  assert (Hdone : snd (start granting fresh) = Done tt)
    by (apply Hiff; repeat split).
  split; [exact Hdone | exact (proj1 (Hpost Hdone))].
Defined.

(** *** What is never typed *)

Lemma bind_silent {A B} (m : M A) (k : A -> M B) (c : Controller) :
  silent (m c) -> (forall a c1, silent (k a c1)) -> silent (bind m k c).
Proof.
  unfold silent, bind. intros [Ht He] Hk.
  destruct (m c) as [[c1 e1] [a|message]]; cbn in *; [|auto].
  specialize (Hk a c1). destruct (k a c1) as [[c2 e2] r]. cbn in *.
  destruct Hk as [Ht2 He2].
  now rewrite typedTexts_app, executedCommands_app, Ht, He, Ht2, He2.
Qed.

Lemma stop_silent (c : Controller) : silent (stop c).
Proof.
  destruct c as [st bg li fb vc te ag tw]. destruct st; split; reflexivity.
Qed.

Lemma stopBackgroundListening_silent (c : Controller) :
  silent (stopBackgroundListening c).
Proof.
  destruct c as [st bg li fb vc te ag tw]. destruct bg; split; reflexivity.
Qed.

Lemma start_silent (w : Services) (c : Controller) : silent (start w c).
Proof.
  destruct c as [st bg li fb vc te ag tw]. unfold silent.
  destruct st;
    [| unfold start, bind, get, console, tell; cbn; split; reflexivity | | |];
    start_cases w bg; split; reflexivity.
Qed.

(** X13. Background listening never types. While the controller
    listens in the background for the trigger word, with the detector
    enabled, no transcript reaches the keyboard: whatever is said, and
    whether or not it activates or stops the controller, no text is
    typed and no command is executed. *)
Theorem background_listening_types_nothing
  (w : Services) (c : Controller) (transcript : string) (isFinal : bool) :
  state c = background_listening ->
  TriggerWordDetector.enabled (triggerWordDetector c) = true ->
  let tr := snd (fst (processFinalTranscription w transcript isFinal c)) in
  typedTexts tr = [] /\ executedCommands tr = [].
Proof.
  intros Hs Hen tr. subst tr.
  change (silent (processFinalTranscription w transcript isFinal c)).
  unfold processFinalTranscription.
  destruct isFinal; cbn [negb]; [|split; reflexivity].
  destruct (blank transcript); [split; reflexivity|].
  rewrite bind_get_run, Hs, Hen. cbn [Phase_eqb andb].
  destruct (TriggerWordDetector.detect (triggerWordDetector c) transcript)
    as [[ph o | wd o]|]; [| |split; reflexivity].
  - (* the deactivate phrase *)
    apply bind_silent; [apply stop_silent | split; reflexivity].
  - (* the trigger word *)
    apply bind_silent; [apply stopBackgroundListening_silent|].
    intros _ c1. apply bind_silent; [apply start_silent | split; reflexivity].
Qed.

(** The theorem at a transcript that holds the trigger word. *)
Lemma background_listening_types_nothing_hello :
  let c := with_background (with_state fresh background_listening) true in
  typedTexts (snd (fst (processFinalTranscription granting
                          "hello sana, type this" true c))) = [] /\
  executedCommands (snd (fst (processFinalTranscription granting
                          "hello sana, type this" true c))) = [].
Proof.
  apply background_listening_types_nothing; reflexivity.
Defined.

(** X14. Saying the deactivate phrase while dictating stops the
    controller and types nothing: the microphone and the session are
    stopped, the controller is idle, [stopped] and then
    [triggerDeactivated] are emitted, and the text accumulator is left
    as it was. *)
Theorem deactivate_phrase_stops_dictation
  (w : Services) (c : Controller) (transcript : string) :
  state c = listening ->
  TriggerWordDetector.enabled (triggerWordDetector c) = true ->
  blank transcript = false ->
  TriggerWordDetector.isDeactivate
    (TriggerWordDetector.detect (triggerWordDetector c) transcript) = true ->
  let c' := fst (fst (processFinalTranscription w transcript true c)) in
  let tr := snd (fst (processFinalTranscription w transcript true c)) in
  state c' = idle /\
  finalTextBuffer c' = finalTextBuffer c /\
  typedTexts tr = [] /\ executedCommands tr = [] /\
  In MicrophoneStop tr /\ In SttStopSession tr /\
  emitted tr =
    [stateChange listening idle; stopped;
     triggerDeactivated
       (TriggerWordDetector.Deactivate
          (TriggerWordDetector.deactivatePhrase (triggerWordDetector c))
          transcript)].
Proof.
  intros Hs Hen Hb Hd c' tr. subst c' tr.
  unfold processFinalTranscription. rewrite Hb. cbn [negb].
  rewrite bind_get_run, Hs, Hen. cbn [Phase_eqb andb].
  assert (Hdet : TriggerWordDetector.detect (triggerWordDetector c) transcript
                 = Some (TriggerWordDetector.Deactivate
                     (TriggerWordDetector.deactivatePhrase
                        (triggerWordDetector c)) transcript)).
  { revert Hd. unfold TriggerWordDetector.detect.
    destruct (_ || _); [discriminate|].
    destruct (TriggerWordDetector.containsPhrase _ _); [reflexivity|].
    destruct (TriggerWordDetector.containsWord _ _); discriminate. }
  rewrite Hdet.
  destruct c as [st bg li fb vc te ag tw]. cbn in Hs. subst st.
  cbn. repeat split; repeat (first [left; reflexivity | right]).
Qed.

(** The theorem at the default deactivate phrase inside a sentence. *)
Lemma deactivate_phrase_stops_dictation_sana_close :
  let c := with_state fresh listening in
  state (fst (fst (processFinalTranscription granting
                     "okay sana close now" true c))) = idle /\
  typedTexts (snd (fst (processFinalTranscription granting
                          "okay sana close now" true c))) = [].
Proof.
  destruct (deactivate_phrase_stops_dictation granting
              (with_state fresh listening) "okay sana close now"
              eq_refl eq_refl eq_refl eq_refl) as (H1 & _ & H2 & _).
  split; assumption.
Defined.

(** *** The hotkey *)

(** What [stop()] does outside state [idle]. *)
Lemma stop_run (c : Controller) :
  state c <> idle ->
  exists c' tr,
    stop c = (c', tr, Done tt) /\
    state c' = idle /\
    emitted tr = [stateChange (state c) idle; stopped].
Proof.
  intros Hs. destruct c as [st bg li fb vc te ag tw]. simpl in Hs.
  destruct st; try contradiction; eexists _, _;
    (split; [reflexivity|]); cbn; auto.
Qed.

(** A [start()] that returns normally has passed its three checks. *)
Lemma start_done_checks (w : Services) (c : Controller) :
  state c <> listening ->
  snd (start w c) = Done tt ->
  isUserAuthenticated w = true /\ checkPermission w "stt" = true /\
  allowed (trackDeepgramUsage w) = true.
Proof.
  intros Hs. destruct c as [st bg li fb vc te ag tw]. simpl in Hs.
  destruct st; try contradiction;
    start_cases w bg; first [discriminate | repeat split].
Qed.

(** What [start()] does when every precondition is met. *)
Lemma start_run (w : Services) (c : Controller) :
  state c <> listening ->
  isUserAuthenticated w = true -> checkPermission w "stt" = true ->
  allowed (trackDeepgramUsage w) = true ->
  startSession w = None -> microphoneStart w = None ->
  exists c' tr,
    start w c = (c', tr, Done tt) /\
    state c' = listening /\
    hd_error (rev (emitted tr)) = Some started.
Proof.
  intros Hs Ha Hp Hl Hr Hm.
  destruct c as [st bg li fb vc te ag tw]. simpl in Hs.
  unfold start, bind, get, console, emit, tell.
  cbn [state]. rewrite (Phase_eqb_neq _ _ Hs), Ha, Hp, Hl, Hr, Hm.
  destruct bg; eexists _, _; (split; [vm_compute; reflexivity|]);
    split; reflexivity.
Qed.

(** X15. Two presses of the hotkey are a round trip. From the idle
    state, with the preconditions of [start()] met and a session and a
    microphone that start, [toggle()] starts listening and a second
    [toggle()] stops it again: the controller is back in state [idle],
    the first call ends with the event [started] and the second emits
    [stopped]. *)
Theorem toggle_twice_returns_to_idle (w : Services) (c : Controller) :
  state c = idle ->
  isUserAuthenticated w = true -> checkPermission w "stt" = true ->
  allowed (trackDeepgramUsage w) = true ->
  startSession w = None -> microphoneStart w = None ->
  let first := toggle w c in
  let second := toggle w (fst (fst first)) in
  snd first = Done tt /\
  state (fst (fst first)) = listening /\
  snd second = Done tt /\
  state (fst (fst second)) = idle /\
  hd_error (rev (emitted (snd (fst first)))) = Some started /\
  emitted (snd (fst second)) = [stateChange listening idle; stopped].
Proof.
  intros Hs Ha Hp Hl Hr Hm first second.
  assert (Hne : state c <> listening) by (rewrite Hs; discriminate).
  destruct (start_run w c Hne Ha Hp Hl Hr Hm)
    as (c1 & e1 & Hrun1 & Hs1 & Hev1).
  assert (Hfirst : first = (c1, e1, Done tt)).
  { subst first. unfold toggle. now rewrite bind_get_run, Hs. }
  assert (Hne1 : state c1 <> idle) by (rewrite Hs1; discriminate).
  destruct (stop_run c1 Hne1) as (c2 & e2 & Hrun2 & Hs2 & Hev2).
  assert (Hsecond : second = (c2, e2, Done tt)).
  { subst second. rewrite Hfirst. cbn [fst]. unfold toggle.
    now rewrite bind_get_run, Hs1. }
  rewrite Hfirst, Hsecond. cbn [fst snd].
  rewrite Hs1 in Hev2. auto 10.
Qed.

(** The theorem at a new controller. *)
Lemma toggle_twice_returns_to_idle_fresh :
  state (fst (fst (toggle granting fresh))) = listening /\
  state (fst (fst (toggle granting (fst (fst (toggle granting fresh))))))
  = idle.
Proof.
  destruct (toggle_twice_returns_to_idle granting fresh
              eq_refl eq_refl eq_refl eq_refl eq_refl eq_refl)
    as (_ & H1 & _ & H2 & _).
  split; assumption.
Defined.

(** *** Voice commands switched off *)

(** X16. With voice commands switched off and the agent disabled,
    nothing that is said is taken for a command: a final transcript
    heard while listening is typed as it leaves the translation stage,
    after one space when the accumulator holds text, and no key is
    pressed, also when the transcript is a command phrase. *)
Theorem voice_commands_off_types_everything
  (w : Services) (c : Controller) (transcript : string) :
  state c = listening ->
  voiceCommands c = false ->
  CrewAIAgent.isEnabled (crewAIAgent c) = false ->
  blank transcript = false ->
  TriggerWordDetector.isDeactivate
    (TriggerWordDetector.detect (triggerWordDetector c) transcript) = false ->
  let tr := snd (fst (processFinalTranscription w transcript true c)) in
  typedTexts tr =
    [(separator (finalTextBuffer c) ++ processedText w c transcript)%string]
  /\ executedCommands tr = [].
Proof.
  intros Hs Hvc Hag Hb Hd tr. subst tr.
  rewrite (processFinalTranscription_listening w c transcript Hb Hs Hd).
  rewrite Hag.
  destruct (translate_run w transcript c) as (tr0 & Hrun0 & Ht0 & He0).
  destruct (standardProcessing_plain w (processedText w c transcript) c Hvc)
    as (c1 & tr1 & Hrun1 & Ht1 & He1 & _).
  erewrite bind_Done; [|reflexivity|].
  2:{ eapply bind_Done; [exact Hrun0|].
      eapply bind_Done; [reflexivity|]. exact Hrun1. }
  cbn [fst snd app typedTexts executedCommands].
  rewrite !typedTexts_app, !executedCommands_app, Ht0, He0, Ht1, He1.
  split; reflexivity.
Qed.

(** The theorem at the transcript [enter], heard after some text. *)
Lemma voice_commands_off_types_everything_enter :
  let c := {| state := listening; backgroundListening := false;
              lastInterimText := ""; finalTextBuffer := "Hello";
              voiceCommands := false; translationEnabled := false;
              crewAIAgent := crewAIAgent fresh;
              triggerWordDetector := TriggerWordDetector.defaults |} in
  typedTexts (snd (fst (processFinalTranscription granting "enter" true c)))
  = [" enter"] /\
  executedCommands
    (snd (fst (processFinalTranscription granting "enter" true c))) = [].
Proof.
  apply (voice_commands_off_types_everything granting); reflexivity.
Defined.

(** *** The agent without its backend *)

(** X17. A failed request to the language model does not bring the
    fallback grammar back. With the agent enabled, when the completion
    request is rejected the agent answers with the transcript and no
    commands, and the controller types that answer and returns: the
    transcript is typed as it is, after one space when the accumulator
    holds text, and no key is pressed, also when the transcript is a
    command phrase. *)
Theorem backend_failure_types_the_transcript
  (JSON_parse : string -> option CrewAIAgent.Json) (usageRecorded : bool)
  (w : Services) (c : Controller) (transcript message : string) :
  state c = listening ->
  blank transcript = false ->
  TriggerWordDetector.isDeactivate
    (TriggerWordDetector.detect (triggerWordDetector c) transcript) = false ->
  CrewAIAgent.isEnabled (crewAIAgent c) = true ->
  let fragment := processedText w c transcript in
  blank fragment = false ->
  CrewAIAgent.analyze JSON_parse usageRecorded (crewAIAgent c) fragment
    (CrewAIAgent.Rejected message)
  = CrewAIAgent.Return (analyze w fragment) ->
  let tr := snd (fst (processFinalTranscription w transcript true c)) in
  typedTexts tr = [(separator (finalTextBuffer c) ++ fragment)%string] /\
  executedCommands tr = [].
Proof.
  intros Hs Hb Hd Hag fragment Hbf Hanalyze tr. subst tr.
  assert (Hfallback : analyze w fragment
            = {| CrewAIAgent.text := fragment;
                 CrewAIAgent.commands := [] |}).
  { revert Hanalyze. unfold CrewAIAgent.analyze, CrewAIAgent.analyze_try.
    unfold CrewAIAgent.isEnabled in Hag. apply andb_prop in Hag as [He Hg].
    rewrite He, Hg. unfold blank in Hbf. rewrite Hbf.
    cbn. now intros [= <-]. }
  rewrite (processFinalTranscription_listening w c transcript Hb Hs Hd).
  destruct (translate_run w transcript c) as (tr0 & Hrun0 & Ht0 & He0).
  fold fragment in Hrun0.
  destruct (agentProcessing_run w fragment [] c)
    as (c1 & tr1 & Hrun1 & Ht1 & He1 & _);
    [now rewrite Hfallback|].
  rewrite Hfallback in Ht1. cbn [CrewAIAgent.text] in Ht1.
  rewrite Hbf in Ht1.
  erewrite bind_Done; [|reflexivity|].
  2:{ eapply bind_Done; [exact Hrun0|].
      rewrite Hag. eapply bind_Done; [exact Hrun1|]. reflexivity. }
  cbn [fst snd app typedTexts executedCommands].
  rewrite !typedTexts_app, !executedCommands_app, Ht0, He0, Ht1, He1.
  split; reflexivity.
Qed.

(** The theorem at the transcript [enter] and a backend that answers 503. *)
Lemma backend_failure_types_the_transcript_enter :
  let agent := {| CrewAIAgent.enabled := true;
                  CrewAIAgent.groqClient := true |} in
  let c := {| state := listening; backgroundListening := false;
              lastInterimText := ""; finalTextBuffer := "Hello";
              voiceCommands := true; translationEnabled := false;
              crewAIAgent := agent;
              triggerWordDetector := TriggerWordDetector.defaults |} in
  typedTexts (snd (fst (processFinalTranscription granting "enter" true c)))
  = [" enter"] /\
  executedCommands
    (snd (fst (processFinalTranscription granting "enter" true c))) = [].
Proof.
  intros agent c.
  exact (backend_failure_types_the_transcript (fun _ => None) true
           granting c "enter" "503"
           eq_refl eq_refl eq_refl eq_refl eq_refl eq_refl).
Defined.

End SpeechRecognitionControllerFlows.

(* ================================================================== *)
(** ** Access, quota and usage *)
(* ================================================================== *)

Module AccessFacts.

Import MongoDBService AccessObservations.
Local Open Scope list_scope.

(** *** The limit of the day *)

Lemma limitOfDay_In (limitList : list Z) (getDate : nat) :
  limitList <> [] -> In (limitOfDay limitList getDate) limitList.
Proof.
  intros Hne. unfold limitOfDay.
  assert (Hfirst : In (nth 0 limitList 0) limitList)
    by (destruct limitList; [contradiction | now left]).
  destruct (nth_error limitList (getDate - 1)) as [l|] eqn:E;
    [|exact Hfirst].
  destruct (l =? 0); [exact Hfirst|].
  exact (nth_error_In _ _ E).
Qed.

Lemma ObjectId_eqb_eq (a b : ObjectId) : ObjectId_eqb a b = true <-> a = b.
Proof.
  destruct a as [a], b as [b]. unfold ObjectId_eqb. cbn.
  rewrite String.eqb_eq. split; [now intros -> | now intros [= ->]].
Qed.

Lemma ObjectId_eqb_refl (a : ObjectId) : ObjectId_eqb a a = true.
Proof. now apply ObjectId_eqb_eq. Qed.

Lemma checkTokenLimit_available (db : t) (userId : UserId) (id : ObjectId)
    (tokenType : string) (today : Z) (getDate : nat) (limitList : list Z) :
  available db = true ->
  newObjectId userId = Some id ->
  limitsOf db id tokenType = Some limitList ->
  limitList <> [] ->
  checkTokenLimit db userId tokenType today getDate =
    let usedToday := usedOn db id tokenType today in
    let daily := limitOfDay limitList getDate in
    if daily <=? usedToday then
      {| allowed := false;
         reason := Some ("Daily limit reached: "
                         ++ JSValue.show usedToday ++ "/"
                         ++ JSValue.show daily)%string;
         used := Some usedToday; dailyLimit := Some daily;
         remaining := None |}
    else
      {| allowed := true; reason := None;
         used := Some usedToday; dailyLimit := Some daily;
         remaining := Some (daily - usedToday) |}.
Proof.
  unfold available, limitsOf, usedOn. intros Hav Hid Hl Hne.
  apply andb_prop in Hav as [Hc Hr].
  unfold checkTokenLimit, getLimitByUserId, getTodayTokenUsage,
    getCollection, withObjectId, driver.
  rewrite Hc, Hr, Hid. cbn [negb].
  destruct (find _ (limit db)) as [l|]; [|discriminate].
  injection Hl as Hl. rewrite Hl.
  destruct limitList; [contradiction | reflexivity].
Qed.

(** X18. The quota rule. For a user whose id the driver reads as an
    [ObjectId], in either case of its digits, and who has a list of
    daily limits, the limit of the day is an entry of the list: the
    entry of the day of the month, or the first entry when that one is
    missing or zero. [checkTokenLimit] allows exactly while the usage of
    the day is below it, and then reports what is left, a positive
    amount; at the limit it denies and reports usage and limit. *)
Theorem checkTokenLimit_quota (db : t) (userId : UserId) (id : ObjectId)
    (tokenType : string) (today : Z) (getDate : nat) (limitList : list Z) :
  available db = true ->
  newObjectId userId = Some id ->
  limitsOf db id tokenType = Some limitList ->
  limitList <> [] ->
  let usedToday := usedOn db id tokenType today in
  let daily := limitOfDay limitList getDate in
  let result := checkTokenLimit db userId tokenType today getDate in
  In daily limitList /\
  (nth (getDate - 1) limitList 0 <> 0 ->
     daily = nth (getDate - 1) limitList 0) /\
  (nth (getDate - 1) limitList 0 = 0 -> daily = nth 0 limitList 0) /\
  allowed result = (usedToday <? daily) /\
  used result = Some usedToday /\
  dailyLimit result = Some daily /\
  (allowed result = true ->
     remaining result = Some (daily - usedToday) /\ 0 < daily - usedToday).
Proof.
  intros Hav Hid Hl Hne usedToday daily result.
  subst result.
  rewrite (checkTokenLimit_available _ _ _ _ _ _ _ Hav Hid Hl Hne).
  fold usedToday. fold daily. cbv zeta.
  split; [now apply limitOfDay_In|].
  split; [|split].
  - intros Hnz. subst daily. unfold limitOfDay.
    destruct (nth_error limitList (getDate - 1)) as [l|] eqn:E.
    + rewrite (nth_error_nth _ _ 0 E) in Hnz |- *.
      destruct (l =? 0) eqn:Ez; [apply Z.eqb_eq in Ez; contradiction|].
      reflexivity.
    + apply nth_error_None in E. rewrite nth_overflow in Hnz by assumption.
      contradiction.
  - intros Hz. subst daily. unfold limitOfDay.
    destruct (nth_error limitList (getDate - 1)) as [l|] eqn:E;
      [|reflexivity].
    rewrite (nth_error_nth _ _ 0 E) in Hz. subst l. reflexivity.
  - destruct (daily <=? usedToday) eqn:E; cbn.
    + apply Z.leb_le in E.
      repeat split; try discriminate. symmetry. apply Z.ltb_ge. lia.
    + apply Z.leb_gt in E.
      split; [symmetry; apply Z.ltb_lt; lia|].
      repeat split; try reflexivity; lia.
Qed.

(** The theorem on the third day of a month whose entry is zero, for
    an id written in capitals: the limit of the first day applies. *)
Lemma checkTokenLimit_quota_day_three :
  let id := {| toHexString := "64b7f0c2a1d3e4f5a6b7c8d9" |} in
  let db := {| isConnected := true; responding := true; access := [];
               limit := [{| limit_user_id := Some id;
                            deepgram_token_list := [100; 200; 0; 400];
                            agent_token_list := [] |}];
               token_usage := [{| usage_user_id := id; deepgram := 150;
                                  agent := 0; date := 19000 |}];
               profile := []; log := [] |} in
  let result :=
    checkTokenLimit db "64B7F0C2A1D3E4F5A6B7C8D9" "deepgram" 19000 3 in
  allowed result = false /\ dailyLimit result = Some 100.
Proof.
  intros id db result.
  destruct (checkTokenLimit_quota db "64B7F0C2A1D3E4F5A6B7C8D9" id
              "deepgram" 19000 3 [100; 200; 0; 400]
              eq_refl eq_refl eq_refl ltac:(discriminate))
    as (_ & _ & _ & Ha & _ & Hd & _).
  split; [exact Ha | exact Hd].
Defined.

(** *** When the database fails *)

(** X19. The quota fails open and the permission fails closed. When
    the database is not connected or the driver fails, [checkTokenLimit]
    allows, and so does [trackDeepgramUsage] for a user who is logged
    in; [checkPermission] denies every feature. *)
Theorem database_failure_opens_quota_closes_permission
    (db : t) (auth : AuthService.t) (tracker : TokenTracker.t)
    (userId : UserId) (tokenType feature : string)
    (today : Z) (getDate : nat) :
  available db = false ->
  allowed (checkTokenLimit db userId tokenType today getDate) = true /\
  (AuthService.currentUser auth <> None ->
   allowed (fst (TokenTracker.trackDeepgramUsage tracker auth db
                   today getDate)) = true) /\
  AuthService.checkPermission auth db feature = false.
Proof.
  intros Hav.
  assert (Hcheck : forall u ty,
            allowed (checkTokenLimit db u ty today getDate) = true).
  { intros u ty.
    unfold checkTokenLimit, getLimitByUserId, getCollection, withObjectId,
      driver.
    unfold available in Hav.
    destruct (isConnected db); cbn [negb]; [|reflexivity].
    cbn in Hav. rewrite Hav. destruct (newObjectId u); reflexivity. }
  split; [apply Hcheck|]. split.
  - intros Hu. unfold TokenTracker.trackDeepgramUsage, TokenTracker.trackUsage.
    destruct (TokenTracker.enabled tracker); cbn [negb]; [|reflexivity].
    destruct (AuthService.currentUser auth) as [u|]; [|contradiction].
    rewrite Hcheck. reflexivity.
  - unfold AuthService.checkPermission, AuthService.getUserAccess,
      getAccessByUserId, getCollection, withObjectId, driver.
    destruct (AuthService.currentUser auth) as [u|]; [|reflexivity].
    unfold available in Hav.
    destruct (isConnected db); cbn [negb]; [|reflexivity].
    cbn in Hav. rewrite Hav. destruct (newObjectId u); reflexivity.
Qed.

(** The theorem at a database that is not connected. *)
Lemma database_failure_opens_quota_closes_permission_offline :
  let db := {| isConnected := false; responding := true; access := [];
               limit := []; token_usage := []; profile := []; log := [] |} in
  let auth := {| AuthService.currentUser := Some "u1";
                 AuthService.isAuthenticated := true |} in
  allowed (checkTokenLimit db "u1" "deepgram" 19000 3) = true /\
  AuthService.checkPermission auth db "stt" = false.
Proof.
  cbv zeta.
  match goal with
  | |- allowed (checkTokenLimit ?db _ _ _ _) = _ /\
       AuthService.checkPermission ?auth _ _ = _ =>
      destruct (database_failure_opens_quota_closes_permission db auth
                  {| TokenTracker.enabled := true |} "u1" "deepgram" "stt"
                  19000 3 eq_refl) as (H1 & _ & H3)
  end.
  split; [exact H1 | exact H3].
Defined.

(** *** Usage is counted *)

Lemma find_incUsage_same (userId : ObjectId) (today : Z) (tokenType : string)
    (amount : Z) (docs : list UsageDoc) (u : UsageDoc) :
  find (usageOf userId today) docs = Some u ->
  find (usageOf userId today) (incUsage userId today tokenType amount docs)
  = Some (if String.eqb tokenType "deepgram"
          then {| usage_user_id := usage_user_id u;
                  deepgram := deepgram u + amount;
                  agent := agent u; date := date u |}
          else {| usage_user_id := usage_user_id u;
                  deepgram := deepgram u;
                  agent := agent u + amount; date := date u |}).
Proof.
  induction docs as [|d docs IH]; [discriminate|].
  cbn [find incUsage]. destruct (usageOf userId today d) eqn:E.
  - intros [= ->].
    destruct (String.eqb tokenType "deepgram"); cbn [find];
      unfold usageOf in E |- *; cbn; now rewrite E.
  - intros H. cbn [find]. rewrite E. now apply IH.
Qed.

Lemma find_incUsage_other (userId userId' : ObjectId) (today today' : Z)
    (tokenType : string) (amount : Z) (docs : list UsageDoc) :
  (userId', today') <> (userId, today) ->
  find (usageOf userId' today')
    (incUsage userId today tokenType amount docs)
  = find (usageOf userId' today') docs.
Proof.
  intros Hne. induction docs as [|d docs IH]; [reflexivity|].
  cbn [find incUsage]. destruct (usageOf userId today d) eqn:E.
  - assert (Hd : usageOf userId' today' d = false).
    { unfold usageOf in *. apply andb_prop in E as [E1 E2].
      apply ObjectId_eqb_eq in E1. apply Z.eqb_eq in E2.
      destruct (ObjectId_eqb userId' (usage_user_id d)) eqn:E3;
        [|reflexivity].
      destruct (date d =? today') eqn:E4; [|reflexivity].
      apply ObjectId_eqb_eq in E3. apply Z.eqb_eq in E4.
      exfalso. apply Hne. congruence. }
    destruct (String.eqb tokenType "deepgram"); cbn [find];
      unfold usageOf in Hd |- *; cbn; now rewrite Hd.
  - cbn [find]. now rewrite IH.
Qed.

Lemma find_app_none {A} (f : A -> bool) (l1 l2 : list A) :
  find f l1 = None -> find f (l1 ++ l2) = find f l2.
Proof.
  induction l1 as [|x l1 IH]; [reflexivity|].
  cbn. destruct (f x); [discriminate | exact IH].
Qed.

Lemma find_app_some {A} (f : A -> bool) (l1 l2 : list A) (x : A) :
  find f l1 = Some x -> find f (l1 ++ l2) = Some x.
Proof.
  induction l1 as [|y l1 IH]; [discriminate|].
  cbn. destruct (f y); [trivial | exact IH].
Qed.

(** X20. Recorded usage counts against the quota. When
    [recordTokenUsage] is called for a user whose id the driver reads as
    an [ObjectId], for one of the two types of token and with the
    database available, it resolves; the usage of the day of that user
    and type has grown by the amount, no other user, day or type has
    changed, and the limits are as before; so the next [checkTokenLimit]
    allows exactly while the earlier usage plus the amount is below the
    limit of the day. *)
Theorem recorded_usage_counts (db : t) (userId : UserId) (id : ObjectId)
    (tokenType : string) (amount today : Z) (getDate : nat)
    (limitList : list Z) :
  available db = true ->
  newObjectId userId = Some id ->
  tokenType = "deepgram" \/ tokenType = "agent" ->
  limitsOf db id tokenType = Some limitList ->
  limitList <> [] ->
  exists db',
    recordTokenUsage db userId tokenType amount today = Resolved db' /\
    usedOn db' id tokenType today
      = usedOn db id tokenType today + amount /\
    (forall id' tokenType' today',
       (id', tokenType', today') <> (id, tokenType, today) ->
       tokenType' = "deepgram" \/ tokenType' = "agent" ->
       usedOn db' id' tokenType' today'
       = usedOn db id' tokenType' today') /\
    limit db' = limit db /\
    allowed (checkTokenLimit db' userId tokenType today getDate)
      = (usedOn db id tokenType today + amount
           <? limitOfDay limitList getDate).
Proof.
  intros Hav Hid Hty Hl Hne.
  pose proof Hav as Hav0. unfold available in Hav0.
  apply andb_prop in Hav0 as [Hc Hr].
  unfold recordTokenUsage, incrementTokenUsage, getCollection, withObjectId,
    driver.
  cbn [isConnected responding]. rewrite Hc, Hr, Hid. cbn [negb].
  eexists. split; [reflexivity|].
  match goal with
  | |- usedOn ?d _ _ _ = _ /\ _ => set (db' := d)
  end.
  assert (Hused : forall id' tokenType' today',
    tokenType' = "deepgram" \/ tokenType' = "agent" ->
    usedOn db' id' tokenType' today'
    = usedOn db id' tokenType' today'
      + (if ObjectId_eqb id' id && (today' =? today)
            && String.eqb tokenType' tokenType
         then amount else 0)).
  { intros id' tokenType' today' Hty'. unfold usedOn, db'.
    cbn [token_usage].
    destruct (ObjectId_eqb id' id && (today' =? today)) eqn:Esame.
    - apply andb_prop in Esame as [E1 E2].
      apply ObjectId_eqb_eq in E1. apply Z.eqb_eq in E2. subst id' today'.
      cbn [andb].
      destruct (find (usageOf id today) (token_usage db)) as [u|] eqn:Ef.
      + rewrite (find_incUsage_same _ _ _ _ _ _ Ef).
        destruct Hty as [-> | ->], Hty' as [-> | ->]; cbn; lia.
      + rewrite (find_app_none _ _ _ Ef). cbn [find].
        unfold usageOf at 1. cbn [usage_user_id date].
        rewrite ObjectId_eqb_refl, Z.eqb_refl.
        cbn [andb].
        destruct Hty as [-> | ->], Hty' as [-> | ->]; cbn; lia.
    - cbn [andb].
      assert (Hne' : (id', today') <> (id, today)).
      { intros [= -> ->]. rewrite ObjectId_eqb_refl, Z.eqb_refl in Esame.
        discriminate. }
      destruct (find (usageOf id today) (token_usage db)) as [u|] eqn:Ef.
      + rewrite (find_incUsage_other _ _ _ _ _ _ _ Hne'). lia.
      + destruct (find (usageOf id' today') (token_usage db))
          as [u'|] eqn:Ef'.
        * rewrite (find_app_some _ _ _ _ Ef'). lia.
        * rewrite (find_app_none _ _ _ Ef'). cbn [find].
          assert (Hd : usageOf id' today'
                    {| usage_user_id := id;
                       deepgram := if String.eqb tokenType "deepgram"
                                   then amount else 0;
                       agent := if String.eqb tokenType "agent"
                                then amount else 0;
                       date := today |} = false).
          { unfold usageOf. cbn [usage_user_id date].
            rewrite Z.eqb_sym. exact Esame. }
          rewrite Hd. lia. }
  split; [|split; [|split]].
  - rewrite (Hused id tokenType today Hty).
    now rewrite ObjectId_eqb_refl, String.eqb_refl, Z.eqb_refl.
  - intros id' tokenType' today' Hdiff Hty'.
    rewrite (Hused id' tokenType' today' Hty').
    destruct (ObjectId_eqb id' id && (today' =? today)
              && String.eqb tokenType' tokenType) eqn:E; [|lia].
    apply andb_prop in E as [E E3]. apply andb_prop in E as [E1 E2].
    apply ObjectId_eqb_eq in E1. apply String.eqb_eq in E3.
    apply Z.eqb_eq in E2.
    exfalso. apply Hdiff. congruence.
  - reflexivity.
  - assert (Hav' : available db' = true) by reflexivity.
    assert (Hl' : limitsOf db' id tokenType = Some limitList)
      by exact Hl.
    rewrite (checkTokenLimit_available db' _ _ _ _ _ _ Hav' Hid Hl' Hne).
    cbv zeta. rewrite (Hused id tokenType today Hty).
    rewrite ObjectId_eqb_refl, String.eqb_refl, Z.eqb_refl. cbn [andb].
    destruct (_ <=? _) eqn:E; cbn [allowed]; symmetry.
    + apply Z.ltb_ge. now apply Z.leb_le.
    + apply Z.ltb_lt. now apply Z.leb_gt.
Qed.

(** The theorem at a recording that takes the usage of the day over the
    limit. *)
Lemma recorded_usage_counts_second_call :
  let id := {| toHexString := "64b7f0c2a1d3e4f5a6b7c8d9" |} in
  let db := {| isConnected := true; responding := true; access := [];
               limit := [{| limit_user_id := Some id;
                            deepgram_token_list := [];
                            agent_token_list := [500] |}];
               token_usage := [{| usage_user_id := id; deepgram := 0;
                                  agent := 300; date := 19000 |}];
               profile := []; log := [] |} in
  exists db',
    recordTokenUsage db "64b7f0c2a1d3e4f5a6b7c8d9" "agent" 250 19000
      = Resolved db' /\
    usedOn db' id "agent" 19000 = 550 /\
    allowed (checkTokenLimit db' "64b7f0c2a1d3e4f5a6b7c8d9" "agent" 19000 7)
      = false.
Proof.
  intros id db.
  destruct (recorded_usage_counts db "64b7f0c2a1d3e4f5a6b7c8d9" id
              "agent" 250 19000 7 [500]
              eq_refl eq_refl (or_intror eq_refl) eq_refl
              ltac:(discriminate))
    as (db' & Hrun & Hused & _ & _ & Hcheck).
  exists db'. split; [exact Hrun|]. split; [exact Hused | exact Hcheck].
Defined.

(** *** Accounting and the agent *)

(** X21. A database failure costs the agent's answer. With the tracker
    enabled and a user logged in, [recordAgentUsage] rejects when the
    database is not available: the failed recording is to be logged,
    and the log write fails too. [analyze] awaits the recording inside
    its [try], so an answer that reports its token usage is dropped and
    the transcript comes back as text with no commands. *)
Theorem usage_accounting_failure_discards_analysis
    (JSON_parse : string -> option CrewAIAgent.Json)
    (tracker : TokenTracker.t) (auth : AuthService.t) (db : t)
    (user_id : UserId) (agent : CrewAIAgent.Agent)
    (transcript : string) (content : option string) (tokens today : Z) :
  TokenTracker.enabled tracker = true ->
  AuthService.currentUser auth = Some user_id ->
  available db = false ->
  CrewAIAgent.isEnabled agent = true ->
  SpeechRecognitionController.blank transcript = false ->
  let recorded :=
    resolves (snd (TokenTracker.recordAgentUsage tracker auth db
                     tokens today)) in
  recorded = false /\
  CrewAIAgent.analyze JSON_parse recorded agent transcript
    (CrewAIAgent.Answered content (Some tokens))
  = CrewAIAgent.Return {| CrewAIAgent.text := transcript;
                          CrewAIAgent.commands := [] |}.
Proof.
  intros Hen Hu Hav Hag Hb recorded.
  assert (Hrec : recorded = false).
  { subst recorded. unfold TokenTracker.recordAgentUsage.
    rewrite Hen, Hu. cbn [negb].
    unfold recordTokenUsage, createLog, getCollection, withObjectId,
      driver. unfold available in Hav.
    destruct (isConnected db); cbn [negb]; [|reflexivity].
    cbn in Hav. rewrite Hav. destruct (newObjectId user_id); reflexivity. }
  split; [exact Hrec|]. rewrite Hrec.
  unfold CrewAIAgent.isEnabled in Hag. apply andb_prop in Hag as [He Hg].
  unfold SpeechRecognitionController.blank in Hb.
  unfold CrewAIAgent.analyze, CrewAIAgent.analyze_try.
  rewrite He, Hg, Hb. reflexivity.
Qed.

(** The theorem at an answer with an [enter] command, lost with the
    database offline. *)
Lemma usage_accounting_failure_discards_analysis_offline :
  let db := {| isConnected := false; responding := true; access := [];
               limit := []; token_usage := []; profile := []; log := [] |} in
  let auth := {| AuthService.currentUser := Some "u1";
                 AuthService.isAuthenticated := true |} in
  let parse := fun _ : string =>
    Some (CrewAIAgent.JObject
            [("text", CrewAIAgent.JString "Hello.");
             ("commands",
              CrewAIAgent.JArray [CrewAIAgent.JString "enter"])]) in
  CrewAIAgent.analyze parse
    (resolves (snd (TokenTracker.recordAgentUsage
                      {| TokenTracker.enabled := true |} auth db 42 19000)))
    {| CrewAIAgent.enabled := true; CrewAIAgent.groqClient := true |}
    "Hello. Send it." (CrewAIAgent.Answered (Some "{}") (Some 42))
  = CrewAIAgent.Return {| CrewAIAgent.text := "Hello. Send it.";
                          CrewAIAgent.commands := [] |}.
Proof.
  intros db auth parse.
  exact (proj2 (usage_accounting_failure_discards_analysis parse
                  {| TokenTracker.enabled := true |} auth db "u1"
                  {| CrewAIAgent.enabled := true;
                     CrewAIAgent.groqClient := true |}
                  "Hello. Send it." (Some "{}") 42 19000
                  eq_refl eq_refl eq_refl eq_refl eq_refl)).
Defined.

(** *** From the access record to the microphone *)

(** X22. [start()] opens the session and the microphone only for a
    user it can vouch for. With the checks answered by the
    authentication service and the token tracker, a [start()] that
    returns normally means: the session is authenticated and names a
    user whose id the driver reads as an [ObjectId], the database is
    available and holds an access document of that user whose
    permission is [true] or ['yes'] and whose [stt_enabled] is [true],
    and, when the tracker is enabled, the user's usage of the day is
    within the limit. *)
Theorem start_is_gated_by_access_and_quota
    (auth : AuthService.t) (db : t) (tracker : TokenTracker.t)
    (today : Z) (getDate : nat)
    (rest : SpeechRecognitionController.Services)
    (c : SpeechRecognitionController.Controller) :
  SpeechRecognitionController.state c
    <> SpeechRecognitionController.listening ->
  snd (SpeechRecognitionController.start
         (servicesOf auth db tracker today getDate rest) c)
    = SpeechRecognitionController.Done tt ->
  AuthService.isAuthenticated auth = true /\
  exists user_id id doc,
    AuthService.currentUser auth = Some user_id /\
    newObjectId user_id = Some id /\
    available db = true /\
    find (fun d => sameUser id (access_user_id d)) (access db)
      = Some doc /\
    JSValue.grants (permission doc) = true /\
    JSValue.isTrue (stt_enabled doc) = true /\
    (TokenTracker.enabled tracker = true ->
     allowed (checkTokenLimit db user_id "deepgram" today getDate) = true).
Proof.
  intros Hs Hdone.
  set (w := servicesOf auth db tracker today getDate rest) in *.
  assert (Hpre :
    SpeechRecognitionController.isUserAuthenticated w = true /\
    SpeechRecognitionController.checkPermission w "stt" = true /\
    SpeechRecognitionController.allowed
      (SpeechRecognitionController.trackDeepgramUsage w) = true).
  { apply (SpeechRecognitionControllerFlows.start_done_checks w c Hs Hdone). }
  destruct Hpre as (Hauth & Hperm & Hquota).
  subst w. cbn in Hauth, Hperm, Hquota.
  split; [exact Hauth|].
  unfold AuthService.checkPermission, AuthService.getUserAccess in Hperm.
  destruct (AuthService.currentUser auth) as [user_id|] eqn:Eu;
    [|discriminate].
  unfold getAccessByUserId, getCollection, withObjectId, driver in Hperm.
  destruct (isConnected db) eqn:Ec; cbn [negb] in Hperm; [|discriminate].
  destruct (newObjectId user_id) as [id|] eqn:Eid; [|discriminate].
  destruct (responding db) eqn:Er; cbn [negb] in Hperm; [|discriminate].
  destruct (find _ (access db)) as [doc|] eqn:Ef; [|discriminate].
  destruct (JSValue.grants (permission doc)) eqn:Eg;
    cbn [negb] in Hperm; [|discriminate].
  exists user_id, id, doc. split; [reflexivity|]. split; [exact Eid|].
  split; [unfold available; now rewrite Ec, Er|].
  split; [exact Ef|]. split; [exact Eg|].
  split; [exact Hperm|].
  intros Hen. revert Hquota.
  unfold TokenTracker.trackDeepgramUsage, TokenTracker.trackUsage.
  rewrite Hen, Eu. cbn [negb].
  destruct (allowed (checkTokenLimit db user_id "deepgram" today getDate))
    eqn:Ea; [reflexivity|].
  cbn [negb fst]. now rewrite Ea.
Qed.

(** The theorem at a user whose access document says ['yes']. *)
Lemma start_is_gated_by_access_and_quota_granted :
  let id := {| toHexString := "64b7f0c2a1d3e4f5a6b7c8d9" |} in
  let db := {| isConnected := true; responding := true;
               access := [{| access_user_id := Some id;
                             permission := JSValue.Str "yes";
                             stt_enabled := JSValue.Bool true;
                             tts_enabled := JSValue.Bool false |}];
               limit := []; token_usage := []; profile := []; log := [] |} in
  let auth := {| AuthService.currentUser := Some "64b7f0c2a1d3e4f5a6b7c8d9";
                 AuthService.isAuthenticated := true |} in
  let w := servicesOf auth db {| TokenTracker.enabled := true |} 19000 3
             SpeechRecognitionController.granting in
  snd (SpeechRecognitionController.start w
         SpeechRecognitionController.fresh)
    = SpeechRecognitionController.Done tt /\
  AuthService.isAuthenticated auth = true.
Proof.
  intros id db auth w.
  assert (Hdone : snd (SpeechRecognitionController.start w
                         SpeechRecognitionController.fresh)
                  = SpeechRecognitionController.Done tt) by reflexivity.
  split; [exact Hdone|].
  exact (proj1 (start_is_gated_by_access_and_quota auth db
                  {| TokenTracker.enabled := true |} 19000 3
                  SpeechRecognitionController.granting
                  SpeechRecognitionController.fresh
                  ltac:(discriminate) Hdone)).
Defined.

End AccessFacts.

(* ================================================================== *)
(** ** TextInjector: quoting and shortcuts *)
(* ================================================================== *)

Module TextInjectorFacts.

Import TextInjector.
Local Open Scope list_scope.

(** *** Quoting *)

Lemma replaceAll_app (c : ascii) (by_ a b : string) :
  replaceAll c by_ (a ++ b) = (replaceAll c by_ a ++ replaceAll c by_ b)%string.
Proof.
  induction a as [|x a IH]; [reflexivity|].
  cbn [append replaceAll]. destruct (Ascii.eqb x c).
  - now rewrite IH, JSFacts.string_app_assoc.
  - cbn [append]. now rewrite IH.
Qed.

Lemma escapeText_cons (c : ascii) (text : string) :
  escapeText (String c text)
  = (escapeText (String c "") ++ escapeText text)%string.
Proof.
  unfold escapeText.
  change (String c text) with (String c "" ++ text)%string.
  now rewrite !replaceAll_app.
Qed.

Lemma escapeText_char (c : ascii) :
  escapeText (String c "") = escapeChar c.
Proof.
  destruct c as [[] [] [] [] [] [] [] []]; vm_compute; reflexivity.
Qed.

(** The four passes do not disturb one another: backslashes are
    doubled first, so the backslashes the later passes add stay
    single. *)
Lemma escapeText_one_pass (text : string) :
  escapeText text = escapeChars text.
Proof.
  induction text as [|c text IH]; [reflexivity|].
  rewrite escapeText_cons, escapeText_char, IH. reflexivity.
Qed.

Lemma unquote_escapeChars (text : string) :
  Sh.unquote (escapeChars text) = Some text.
Proof.
  induction text as [|c text IH]; [reflexivity|].
  cbn [escapeChars]. unfold escapeChar.
  destruct (Ascii.eqb c backslash || Ascii.eqb c dquote
            || Ascii.eqb c dollar || Ascii.eqb c backtick) eqn:E.
  - cbn [append Sh.unquote]. rewrite Ascii.eqb_refl.
    replace (Ascii.eqb c dollar || Ascii.eqb c backtick
             || Ascii.eqb c dquote || Ascii.eqb c backslash) with true
      by (destruct (Ascii.eqb c backslash), (Ascii.eqb c dquote),
            (Ascii.eqb c dollar), (Ascii.eqb c backtick);
          cbn in *; congruence).
    now rewrite IH.
  - apply orb_false_elim in E as [E E4]. apply orb_false_elim in E as [E E3].
    apply orb_false_elim in E as [E1 E2].
    cbn [append Sh.unquote]. rewrite E1, E2, E3, E4. cbn [orb].
    now rewrite IH.
Qed.

(** X23. Typed text cannot break out of its quotes. Whatever the text,
    the command line of [typeTextLinux] is the tool and its options
    followed by one double-quoted word, and the shell reads the inside
    of that word back as the text, character for character: no quote
    in the text ends the word and no [$] or backtick in it starts an
    expansion. *)
Theorem typeTextLinux_quotes_the_text (isWayland : bool) (text : string) :
  exists word,
    typeTextLinux isWayland text =
      ((if isWayland then "ydotool type "
        else "xdotool type --clearmodifiers -- ")
       ++ String dquote (word ++ String dquote ""))%string /\
    Sh.unquote word = Some text.
Proof.
  exists (escapeText text). split; [reflexivity|].
  rewrite escapeText_one_pass. apply unquote_escapeChars.
Qed.

(** *** Shortcuts on X11 *)

Lemma split_nonempty (sep : ascii) (s : string) : split sep s <> [].
Proof.
  destruct s as [|c r]; cbn; [discriminate|].
  destruct (Ascii.eqb c sep); [discriminate|].
  destruct (split sep r); discriminate.
Qed.

Lemma join_cons (sep x : string) (l : list string) :
  l <> [] -> join sep (x :: l) = (x ++ sep ++ join sep l)%string.
Proof. destruct l; [contradiction | reflexivity]. Qed.

Lemma join_head (sep : string) (c : ascii) (h : string) (t : list string) :
  join sep (String c h :: t) = String c (join sep (h :: t)).
Proof. destruct t; reflexivity. Qed.

Lemma join_split (sep : ascii) (s : string) :
  join (String sep "") (split sep s) = s.
Proof.
  induction s as [|c r IH]; [reflexivity|].
  cbn [split]. pose proof (split_nonempty sep r) as Hne.
  destruct (Ascii.eqb c sep) eqn:E.
  - apply Ascii.eqb_eq in E. subst c.
    rewrite join_cons by assumption. cbn [append]. now rewrite IH.
  - destruct (split sep r) as [|h t]; [contradiction|].
    now rewrite join_head, IH.
Qed.

(** X24. On X11 a shortcut made of names [xdotool] shares with the
    application goes to [xdotool] as it is: when every key of the
    shortcut translates to itself, the command line is [xdotool key]
    followed by the shortcut. *)
Theorem executeShortcutX11_passes_through (shortcut : string) :
  Forall (fun k => getXdotoolKey (JS.trim k) = k) (split "+" shortcut) ->
  executeShortcutX11 shortcut = ("xdotool key " ++ shortcut)%string.
Proof.
  intros H. unfold executeShortcutX11. f_equal.
  rewrite <- (join_split "+" shortcut) at 2. f_equal.
  induction H as [|k ks Hk _ IH]; [reflexivity|].
  cbn [map]. now rewrite Hk, IH.
Qed.

(** The theorem at a shortcut of three keys. *)
Lemma executeShortcutX11_passes_through_ctrl_a :
  executeShortcutX11 "ctrl+shift+a" = "xdotool key ctrl+shift+a".
Proof.
  apply executeShortcutX11_passes_through.
  repeat constructor.
Defined.

End TextInjectorFacts.
